(** * ChangeAbility front-end scripts: a shallow embedding of [script.js]

    The page scripts are modelled function by function.  JavaScript strings
    are sequences of UTF-16 code units; numbers are rationals, each
    operation followed by a rounding [rnd], of which [binary64] is the one
    of IEEE doubles;
    objects used as maps are finite maps; and the browser (DOM, network,
    clock, random source) is explicit state, or an explicit list of
    effects, that the handlers produce.

    The first part holds the definitions, the second the properties:
    the matcher behind [isValidEmail], the rolling histories of the
    dashboard, the mock readings, the fallback of [fetchESP32Data], the
    cursor follower, and the handlers for links and for the contact form;
    then the dashboard over many cycles, the cursor under its events, the
    mobile menu, the reveal on scroll, and the toasts with their timers. *)

From Stdlib Require Import Floats ZArith QArith Qpower Qround Qabs Reals Qreals Psatz List Ascii String.
From stdpp Require Import base option list gmap.
Import ListNotations.

Local Open Scope N_scope.

(** ** JavaScript strings *)

(** A JS string is a sequence of 16-bit code units. *)
Abbreviation code_unit := N (only parsing).
Abbreviation jsstring := (list N) (only parsing).

(** String literals of the source that stay within ASCII. *)
Definition lit (s : string) : jsstring :=
  List.map N_of_ascii (list_ascii_of_string s).

Definition ch_at : code_unit := 64.     (* '@' *)
Definition ch_dot : code_unit := 46.    (* '.' *)
Definition ch_zero : code_unit := 48.   (* '0' *)
Definition ch_minus : code_unit := 45.  (* '-' *)
Definition ch_plus : code_unit := 43.   (* '+' *)
Definition ch_degree : code_unit := 176. (* U+00B0 *)

(** The class [\s] of ECMAScript: WhiteSpace and LineTerminator. *)
Definition is_js_space (c : code_unit) : bool :=
  (9 <=? c) && (c <=? 13)            (* TAB LF VT FF CR *)
  || (c =? 32) || (c =? 160)         (* SP, NBSP *)
  || (c =? 5760)                     (* U+1680 *)
  || (8192 <=? c) && (c <=? 8202)    (* U+2000 .. U+200A *)
  || (c =? 8232) || (c =? 8233)      (* LS, PS *)
  || (c =? 8239) || (c =? 8287)      (* U+202F, U+205F *)
  || (c =? 12288) || (c =? 65279).   (* U+3000, U+FEFF *)

(** ** Regular expressions

    The fragment of the regular expression syntax that the source uses:
    literals and character classes, concatenation and [+].  [RNone] and
    [RAlt] only arise as derivatives. *)
Module Regex.

Inductive regex : Type :=
| RNone                              (* matches nothing *)
| REps                               (* matches the empty string *)
| RClass (p : code_unit -> bool)     (* one code unit of a class *)
| RSeq (r1 r2 : regex)
| RAlt (r1 r2 : regex)
| RStar (r : regex).

Definition RChar (c : code_unit) : regex := RClass (N.eqb c).
Definition RPlus (r : regex) : regex := RSeq r (RStar r).

(** The strings a regex matches as a whole. *)
Inductive matches : regex -> jsstring -> Prop :=
| m_eps : matches REps []
| m_class p c : p c = true -> matches (RClass p) [c]
| m_seq r1 r2 s1 s2 :
    matches r1 s1 -> matches r2 s2 -> matches (RSeq r1 r2) (s1 ++ s2)
| m_alt_l r1 r2 s : matches r1 s -> matches (RAlt r1 r2) s
| m_alt_r r1 r2 s : matches r2 s -> matches (RAlt r1 r2) s
| m_star_nil r : matches (RStar r) []
| m_star_cons r s1 s2 :
    matches r s1 -> matches (RStar r) s2 -> matches (RStar r) (s1 ++ s2).

Fixpoint nullable (r : regex) : bool :=
  match r with
  | RNone => false
  | REps => true
  | RClass _ => false
  | RSeq r1 r2 => nullable r1 && nullable r2
  | RAlt r1 r2 => nullable r1 || nullable r2
  | RStar _ => true
  end.

(** What is left of [r] once the code unit [c] has been read. *)
Fixpoint deriv (c : code_unit) (r : regex) : regex :=
  match r with
  | RNone => RNone
  | REps => RNone
  | RClass p => if p c then REps else RNone
  | RSeq r1 r2 =>
      if nullable r1
      then RAlt (RSeq (deriv c r1) r2) (deriv c r2)
      else RSeq (deriv c r1) r2
  | RAlt r1 r2 => RAlt (deriv c r1) (deriv c r2)
  | RStar r1 => RSeq (deriv c r1) (RStar r1)
  end.

(** [/^r$/.test(s)]: with both anchors and no [m] flag the whole of [s]
    has to match. *)
Fixpoint test (r : regex) (s : jsstring) : bool :=
  match s with
  | [] => nullable r
  | c :: s' => test (deriv c r) s'
  end.

End Regex.

(** ** Form validation: [isValidEmail] *)

Definition email_class (c : code_unit) : bool :=
  negb (is_js_space c || (c =? ch_at)).

(** [/^[^\s@]+@[^\s@]+\.[^\s@]+$/] *)
Definition email_regex : Regex.regex :=
  Regex.RSeq (Regex.RPlus (Regex.RClass email_class))
    (Regex.RSeq (Regex.RChar ch_at)
       (Regex.RSeq (Regex.RPlus (Regex.RClass email_class))
          (Regex.RSeq (Regex.RChar ch_dot)
             (Regex.RPlus (Regex.RClass email_class))))).

Definition isValidEmail (email : jsstring) : bool :=
  Regex.test email_regex email.

(** ** Numbers

    A JS number is an IEEE-754 double.  The finite ones are modelled by
    their exact rational value; an arithmetic operation computes the exact
    result and rounds it with [rnd], the rounding to the nearest double,
    which stays a parameter.  Overflow to an infinity and the sign of zero
    are not modelled. *)

Inductive number : Type :=
| NaN
| Infinity (negative : bool)
| Finite (q : Q).

Section Arithmetic.
Variable rnd : Q -> Q.

(** A numeric literal of the source. *)
Definition num_lit (q : Q) : Q := rnd q.
Definition js_add (x y : Q) : Q := rnd (x + y)%Q.
Definition js_sub (x y : Q) : Q := rnd (x - y)%Q.
Definition js_mul (x y : Q) : Q := rnd (x * y)%Q.

End Arithmetic.

(** Arithmetic without rounding: not the program's; the examples set
    it beside the doubles. *)
Definition exact (q : Q) : Q := q.

(** *** Rounding to binary64

    The double nearest to a rational, ties to the even mantissa: 53 bits
    of mantissa, and a unit in the last place of 2^-1074 at least.  The
    exponent has no upper limit here: [binary64] is the rounding of IEEE
    754 as long as its result is no larger in magnitude than
    [max_double], and where IEEE 754 gives an infinity it gives a value
    beyond [max_double] (2^1024 or more, from the middle between
    [max_double] and 2^1024 on).  [double_or_infinity] makes the infinity of it; the
    properties of the cursor are stated for positions up to 2^1022 and
    show that no result leaves the range of the finite doubles. *)

(** The exponent of the binade of a positive rational: [2^k <= a < 2^(k+1)]. *)
Definition log2_floor (a : Q) : Z :=
  let k := (Z.log2 (Qnum a) - Z.log2 (Z.pos (Qden a)))%Z in
  if Qle_bool (2 ^ k) a then k else (k - 1)%Z.

(** The nearest integer, the even one on a tie. *)
Definition round_half_even (q : Q) : Z :=
  let f := Qfloor q in
  match ((q - inject_Z f) ?= (1 # 2))%Q with
  | Lt => f
  | Gt => (f + 1)%Z
  | Eq => if Z.even f then f else (f + 1)%Z
  end.

(** The exponent of the unit in the last place of the doubles around [a]. *)
Definition ulp_exponent (a : Q) : Z := Z.max (log2_floor a - 52) (-1074).

Definition round_positive (a : Q) : Q :=
  (inject_Z (round_half_even (a / 2 ^ ulp_exponent a)) * 2 ^ ulp_exponent a)%Q.

Definition binary64 (x : Q) : Q :=
  match (x ?= 0)%Q with
  | Eq => 0%Q
  | Lt => (- round_positive (- x))%Q
  | Gt => round_positive x
  end.

(** The doubles: what the rounding leaves as it is. *)
Definition is_double (x : Q) : Prop := (binary64 x == x)%Q.

(** The largest finite double, (2^53 - 1) * 2^971. *)
Definition max_double : Q := inject_Z ((2 ^ 53 - 1) * 2 ^ 971).

(** The rounded value [r] as a number: an infinity of its sign when it
    is beyond the largest double. *)
Definition double_or_infinity (r : Q) : number :=
  if Qle_bool (Qabs r) max_double then Finite r
  else Infinity (negb (Qle_bool 0 r)).

(** The value is in the range of the finite doubles. *)
Definition finite_range (x : Q) : Prop := (- max_double <= x <= max_double)%Q.

(** The value of a finite double of the kernel's arithmetic, to compare
    [binary64] with. *)
Definition float_value (f : float) : option Q :=
  match Prim2SF f with
  | SpecFloat.S754_zero _ => Some 0%Q
  | SpecFloat.S754_finite s m e =>
      Some ((if s then - inject_Z (Z.pos m) else inject_Z (Z.pos m)) * 2 ^ e)%Q
  | _ => None
  end.

Definition same_value (f : float) (q : Q) : bool :=
  match float_value f with
  | Some v => Qeq_bool v q
  | None => false
  end.

(** *** Decimal digits *)

Definition is_digit (c : code_unit) : bool := (48 <=? c) && (c <=? 57).
Definition digit_char (d : N) : code_unit := 48 + d.
Definition digit_value (c : code_unit) : N := c - 48.

(** The decimal digits of [n], most significant first, in front of [acc];
    [fuel] bounds the number of digits. *)
Fixpoint digits_fuel (fuel : nat) (n : N) (acc : jsstring) : jsstring :=
  match fuel with
  | O => acc
  | S fuel' =>
      let acc' := digit_char (n mod 10) :: acc in
      if n / 10 =? 0 then acc' else digits_fuel fuel' (n / 10) acc'
  end.

(** The decimal representation of a natural number ("0" for zero). *)
Definition decimal_digits (n : N) : jsstring :=
  digits_fuel (S (N.to_nat (N.log2 n))) n [].

(** The number a digit sequence denotes. *)
Definition digits_value (ds : jsstring) : N :=
  fold_left (fun a d => 10 * a + digit_value d) ds 0.

(** *** [Number.prototype.toFixed]

    For a finite [x] below 10^21 in magnitude: [n] is the integer nearest
    to [x * 10^f], the larger one on a tie; its digits are padded with
    zeros to [f + 1] places and the point goes before the last [f]. *)
Definition toFixed (x : Q) (f : nat) : jsstring :=
  let ax := Qabs x in
  let n := Z.to_N (Qfloor (ax * inject_Z (10 ^ Z.of_nat f) + (1 # 2))%Q) in
  let m := decimal_digits n in
  let m := repeat ch_zero (S f - length m) ++ m in
  let k := length m in
  let m := if Nat.eqb f 0 then m
           else firstn (k - f) m ++ ch_dot :: skipn (k - f) m in
  (if Qlt_le_dec x 0 then [ch_minus] else []) ++ m.

(** *** [parseFloat] *)

Fixpoint trim_start (s : jsstring) : jsstring :=
  match s with
  | c :: s' => if is_js_space c then trim_start s' else s
  | [] => []
  end.

(** The longest prefix of digits, and what follows it. *)
Fixpoint span_digits (s : jsstring) : jsstring * jsstring :=
  match s with
  | c :: s' =>
      if is_digit c
      then let (ds, rest) := span_digits s' in (c :: ds, rest)
      else ([], s)
  | [] => ([], [])
  end.

Fixpoint starts_with (pre s : jsstring) : bool :=
  match pre, s with
  | [], _ => true
  | a :: pre', b :: s' => (a =? b) && starts_with pre' s'
  | _ :: _, [] => false
  end.

(** An optional sign in front of [s]: whether it is a minus, and the rest. *)
Definition read_sign (s : jsstring) : bool * jsstring :=
  match s with
  | c :: s' =>
      if c =? ch_plus then (false, s')
      else if c =? ch_minus then (true, s')
      else (false, s)
  | [] => (false, [])
  end.

(** An exponent part [e±ddd] in front of [s]; 0 when there is none. *)
Definition read_exponent (s : jsstring) : Z :=
  match s with
  | c :: s' =>
      if (c =? 101) || (c =? 69) then
        let (neg, s'') := read_sign s' in
        let (ds, _) := span_digits s'' in
        match ds with
        | [] => 0%Z
        | _ => let e := Z.of_N (digits_value ds) in if neg then (- e)%Z else e
        end
      else 0%Z
  | [] => 0%Z
  end.

(** The exact value of the longest prefix of [s] that is a
    StrDecimalLiteral, after leading white space; [None] when there is no
    such prefix. *)
Definition StrDecimalLiteral (s : jsstring) : option number :=
  let (neg, s1) := read_sign (trim_start s) in
  if starts_with (lit "Infinity") s1 then Some (Infinity neg)
  else
    let (ip, s2) := span_digits s1 in
    let (fp, s3) :=
      match s2 with
      | c :: s2' => if c =? ch_dot then span_digits s2' else ([], s2)
      | [] => ([], [])
      end in
    match ip, fp with
    | [], [] => None
    | _, _ =>
        let mant :=
          (inject_Z (Z.of_N (digits_value ip))
           + inject_Z (Z.of_N (digits_value fp))
             / inject_Z (10 ^ Z.of_nat (length fp)))%Q in
        let v := (mant * Qpower 10 (read_exponent s3))%Q in
        Some (Finite (if neg then - v else v)%Q)
    end.

Definition parseFloat (rnd : Q -> Q) (s : jsstring) : number :=
  match StrDecimalLiteral s with
  | Some (Finite q) => double_or_infinity (rnd q)
  | Some v => v
  | None => NaN
  end.

(** ** Data dashboard: [class DataDashboard] *)
Module DataDashboard.

(** A sensor reading, as the endpoint delivers it and as
    [generateMockData] builds it: every field is a string. *)
Record reading : Type := {
  temperature : jsstring;
  humidity : jsstring;
  pressure : jsstring;
  timestamp : jsstring
}.

(** [this.data]: the four arrays behind the chart. *)
Record histories : Type := {
  h_temperature : list number;
  h_humidity : list number;
  h_pressure : list number;
  h_timestamps : list jsstring
}.

(** What the chart shows: the labels and the two series it was last
    drawn with, and how often [update] redrew it. *)
Record chart_state : Type := {
  labels : list jsstring;
  series_temperature : list number;
  series_humidity : list number;
  redraws : nat
}.

Inductive exn : Type :=
| FetchError       (* the call to fetch threw *)
| JsonError.       (* response.json() rejected *)

(** A method invocation, logged with its result or its argument. *)
Inductive call : Type :=
| CallGenerateMockData (result : reading)
| CallUpdateDashboard (arg : reading).

(** The dashboard object together with the part of the page it touches.
    A stat box is [None] when its element is absent and [Some text] with
    its [textContent] when it is there. *)
Record page : Type := {
  data : histories;
  chart : option chart_state;
  current_temp : option jsstring;
  current_humidity : option jsstring;
  current_pressure : option jsstring;
  random_calls : nat;           (* calls of Math.random() so far *)
  clock_reads : nat;            (* [new Date()] so far *)
  console : list (jsstring * exn);
  calls : list call
}.

(** How one call of [fetch(...)] ends. *)
Inductive json_outcome : Type :=
| JsonRejects
| JsonValue (r : reading).

Inductive fetch_outcome : Type :=
| FetchThrows
| FetchRejects
| FetchResolves (ok : bool) (body : json_outcome).

(** What [response] is bound to: a Response of the network, or the object
    that the rejection handler returned. *)
Inductive response : Type :=
| HttpResponse (ok : bool) (body : json_outcome)
| MockObject (r : reading).

(** [response.ok]; a mock reading has no such field, and [undefined] is
    falsy. *)
Definition response_ok (r : response) : bool :=
  match r with
  | HttpResponse ok _ => ok
  | MockObject _ => false
  end.

(** *** Computations on the page that may throw *)

Inductive completion (A : Type) : Type :=
| Normal (a : A)
| Thrown (e : exn).
Arguments Normal {A} a.
Arguments Thrown {A} e.

Definition M (A : Type) : Type := page -> completion A * page.

Definition ret {A} (a : A) : M A := fun p => (Normal a, p).
Definition throw {A} (e : exn) : M A := fun p => (Thrown e, p).
Definition bind {A B} (m : M A) (k : A -> M B) : M B :=
  fun p =>
    match m p with
    | (Normal a, p') => k a p'
    | (Thrown e, p') => (Thrown e, p')
    end.
Definition try_catch {A} (body : M A) (handler : exn -> M A) : M A :=
  fun p =>
    match body p with
    | (Normal a, p') => (Normal a, p')
    | (Thrown e, p') => handler e p'
    end.

#[local] Instance M_ret : MRet M := @ret.
#[local] Instance M_bind : MBind M := fun A B k m => bind m k.

Definition modify (f : page -> page) : M unit := fun p => (Normal tt, f p).

Definition set_data (h : histories) (p : page) : page :=
  {| data := h; chart := chart p;
     current_temp := current_temp p; current_humidity := current_humidity p;
     current_pressure := current_pressure p;
     random_calls := random_calls p; clock_reads := clock_reads p;
     console := console p; calls := calls p |}.

Definition set_chart (c : option chart_state) (p : page) : page :=
  {| data := data p; chart := c;
     current_temp := current_temp p; current_humidity := current_humidity p;
     current_pressure := current_pressure p;
     random_calls := random_calls p; clock_reads := clock_reads p;
     console := console p; calls := calls p |}.

Definition set_stat_boxes (t h pr : option jsstring) (p : page) : page :=
  {| data := data p; chart := chart p;
     current_temp := t; current_humidity := h; current_pressure := pr;
     random_calls := random_calls p; clock_reads := clock_reads p;
     console := console p; calls := calls p |}.

Definition set_oracles (r c : nat) (p : page) : page :=
  {| data := data p; chart := chart p;
     current_temp := current_temp p; current_humidity := current_humidity p;
     current_pressure := current_pressure p;
     random_calls := r; clock_reads := c;
     console := console p; calls := calls p |}.

Definition add_console (msg : jsstring) (e : exn) (p : page) : page :=
  {| data := data p; chart := chart p;
     current_temp := current_temp p; current_humidity := current_humidity p;
     current_pressure := current_pressure p;
     random_calls := random_calls p; clock_reads := clock_reads p;
     console := console p ++ [(msg, e)]; calls := calls p |}.

Definition add_call (c : call) (p : page) : page :=
  {| data := data p; chart := chart p;
     current_temp := current_temp p; current_humidity := current_humidity p;
     current_pressure := current_pressure p;
     random_calls := random_calls p; clock_reads := clock_reads p;
     console := console p; calls := calls p ++ [c] |}.

Definition console_log (msg : jsstring) (e : exn) : M unit :=
  modify (add_console msg e).

Definition log_call (c : call) : M unit := modify (add_call c).

(** [Array.prototype.push] and [shift]. *)
Definition push {A} (l : list A) (x : A) : list A := l ++ [x].
Definition shift {A} (l : list A) : list A := tl l.

Section Environment.
(** The double nearest to a rational; the value of the [k]-th call of
    [Math.random()]; the text [toLocaleTimeString()] gives at the [k]-th
    reading of the clock. *)
Variable rnd : Q -> Q.
Variable random : nat -> Q.
Variable toLocaleTimeString : nat -> jsstring.

Definition Math_random : M Q :=
  fun p => (Normal (random (random_calls p)),
            set_oracles (S (random_calls p)) (clock_reads p) p).

Definition Date_now : M nat :=
  fun p => (Normal (clock_reads p),
            set_oracles (random_calls p) (S (clock_reads p)) p).

(** The reading built from the clock reading [now] and three draws. *)
Definition mock_reading (now : nat) (r1 r2 r3 : Q) : reading :=
  {| temperature :=
       toFixed (js_add rnd (num_lit rnd 20) (js_mul rnd r1 (num_lit rnd 10))) 2;
     humidity :=
       toFixed (js_add rnd (num_lit rnd 40) (js_mul rnd r2 (num_lit rnd 30))) 2;
     pressure :=
       toFixed (js_add rnd (num_lit rnd 1013) (js_mul rnd r3 (num_lit rnd 5))) 2;
     timestamp := toLocaleTimeString now |}.

Definition generateMockData : M reading :=
  now ← Date_now;
  r1 ← Math_random;
  r2 ← Math_random;
  r3 ← Math_random;
  let result := mock_reading now r1 r2 r3 in
  log_call (CallGenerateMockData result);;
  ret result.

(** [updateChart]: bind the current arrays and redraw. *)
Definition updateChart (p : page) : page :=
  match chart p with
  | None => p
  | Some c =>
      set_chart (Some {| labels := h_timestamps (data p);
                         series_temperature := h_temperature (data p);
                         series_humidity := h_humidity (data p);
                         redraws := S (redraws c) |}) p
  end.

(** The stat boxes, for those that exist. *)
Definition show_reading (d : reading) (p : page) : page :=
  set_stat_boxes
    (option_map (fun _ => temperature d ++ ch_degree :: lit "C") (current_temp p))
    (option_map (fun _ => humidity d ++ lit "%") (current_humidity p))
    (option_map (fun _ => pressure d ++ lit " hPa") (current_pressure p))
    p.

(** The four pushes, and the four shifts once the temperature array is
    longer than 20. *)
Definition append_reading (d : reading) (h : histories) : histories :=
  let h1 := {| h_temperature := push (h_temperature h) (parseFloat rnd (temperature d));
               h_humidity := push (h_humidity h) (parseFloat rnd (humidity d));
               h_pressure := push (h_pressure h) (parseFloat rnd (pressure d));
               h_timestamps := push (h_timestamps h) (timestamp d) |} in
  if (20 <? length (h_temperature h1))%nat
  then {| h_temperature := shift (h_temperature h1);
          h_humidity := shift (h_humidity h1);
          h_pressure := shift (h_pressure h1);
          h_timestamps := shift (h_timestamps h1) |}
  else h1.

Definition update_page (d : reading) (p : page) : page :=
  let p1 := show_reading d p in
  let p2 := set_data (append_reading d (data p1)) p1 in
  match chart p2 with
  | Some _ => updateChart p2
  | None => p2
  end.

Definition updateDashboard (d : reading) : M unit :=
  log_call (CallUpdateDashboard d);;
  modify (update_page d).

(** [fetch(...).catch(() => this.generateMockData())], awaited. *)
Definition fetch_with_fallback (o : fetch_outcome) : M response :=
  match o with
  | FetchThrows => throw FetchError
  | FetchRejects => r ← generateMockData; ret (MockObject r)
  | FetchResolves ok body => ret (HttpResponse ok body)
  end.

(** [await response.json()], only ever reached for a Response. *)
Definition response_json (r : response) : M reading :=
  match r with
  | HttpResponse _ (JsonValue d) => ret d
  | HttpResponse _ JsonRejects => throw JsonError
  | MockObject _ => throw JsonError
  end.

(** One cycle of [fetchESP32Data], given how its call of [fetch] ends. *)
Definition fetchESP32Data (o : fetch_outcome) : M unit :=
  try_catch
    (resp ← fetch_with_fallback o;
     if response_ok resp
     then (d ← response_json resp; updateDashboard d)
     else (d ← generateMockData; updateDashboard d))
    (fun error =>
       console_log (lit "Using mock data:") error;;
       d ← generateMockData;
       updateDashboard d).

(** The page after a cycle. *)
Definition cycle (o : fetch_outcome) (p : page) : page := snd (fetchESP32Data o p).

(** The polling: one cycle per outcome, in order. *)
Definition poll (os : list fetch_outcome) (p : page) : page :=
  fold_left (fun q o => cycle o q) os p.

(** The page after the readings [ds] went through [updateDashboard]. *)
Definition feed (ds : list reading) (p : page) : page :=
  fold_left (fun q d => snd (updateDashboard d q)) ds p.

End Environment.

(** [initChart]: a chart over the (shared) arrays when the drawing surface
    exists. *)
Definition initChart (sensor_chart_exists : bool) (p : page) : page :=
  if sensor_chart_exists
  then set_chart (Some {| labels := h_timestamps (data p);
                          series_temperature := h_temperature (data p);
                          series_humidity := h_humidity (data p);
                          redraws := 0 |}) p
  else p.

(** [init], up to its first cycle: [initChart] when Chart.js is loaded.
    The cycle it starts and those of its interval are the cycles of
    [poll]. *)
Definition init (chart_js_loaded sensor_chart_exists : bool) (p : page) : page :=
  if chart_js_loaded then initChart sensor_chart_exists p else p.

(** [new DataDashboard()]: empty arrays, no chart, then [init].  [t],
    [h], [pr]: the stat boxes of the document. *)
Definition constructor (chart_js_loaded sensor_chart_exists : bool)
    (t h pr : option jsstring) : page :=
  init chart_js_loaded sensor_chart_exists
    {| data := {| h_temperature := []; h_humidity := [];
                  h_pressure := []; h_timestamps := [] |};
       chart := None;
       current_temp := t; current_humidity := h; current_pressure := pr;
       random_calls := 0; clock_reads := 0;
       console := []; calls := [] |}.

End DataDashboard.

(** ** Cursor follower: [class CustomCursor] *)
Module CustomCursor.

(** One of the two cursor markers.  [style.left] and [style.top] are kept
    as the number in front of ['px']. *)
Record marker : Type := {
  style_left : option Q;
  style_top : option Q;
  style_opacity : option jsstring;
  classList : list jsstring
}.

(** What [isTouchDevice] reads; a property the browser lacks is [None]. *)
Record device : Type := {
  maxTouchPoints : option Z;
  msMaxTouchPoints : option Z;
  hover_none_matches : bool     (* window.matchMedia('(hover: none)').matches *)
}.

Inductive target : Type := Document | Element (id : nat).
Inductive event_type : Type := mousemove | mouseenter | mouseleave.

(** The callbacks the class registers. *)
Inductive callback : Type :=
| call_onMouseMove
| call_onMouseEnter
| call_onMouseLeave
| call_onElementHover
| call_onElementLeave.

#[global] Instance target_eq_dec : EqDecision target.
Proof. solve_decision. Defined.
#[global] Instance event_type_eq_dec : EqDecision event_type.
Proof. solve_decision. Defined.

(** The object and what it reaches: its two markers ([None] when the
    document has no such element), the listeners registered so far, and
    whether an animation frame is requested. *)
Record cursor : Type := {
  innerCursor : option marker;
  outerCursor : option marker;
  innerX : Q;
  innerY : Q;
  outerX : Q;
  outerY : Q;
  isHovering : bool;
  easeAmount : Q;
  listeners : list (target * event_type * callback);
  frame_requested : bool
}.

Definition set_inner (m : option marker) (c : cursor) : cursor :=
  {| innerCursor := m; outerCursor := outerCursor c;
     innerX := innerX c; innerY := innerY c;
     outerX := outerX c; outerY := outerY c;
     isHovering := isHovering c; easeAmount := easeAmount c;
     listeners := listeners c; frame_requested := frame_requested c |}.

Definition set_outer (m : option marker) (c : cursor) : cursor :=
  {| innerCursor := innerCursor c; outerCursor := m;
     innerX := innerX c; innerY := innerY c;
     outerX := outerX c; outerY := outerY c;
     isHovering := isHovering c; easeAmount := easeAmount c;
     listeners := listeners c; frame_requested := frame_requested c |}.

Definition set_inner_pos (x y : Q) (c : cursor) : cursor :=
  {| innerCursor := innerCursor c; outerCursor := outerCursor c;
     innerX := x; innerY := y;
     outerX := outerX c; outerY := outerY c;
     isHovering := isHovering c; easeAmount := easeAmount c;
     listeners := listeners c; frame_requested := frame_requested c |}.

Definition set_outer_pos (x y : Q) (c : cursor) : cursor :=
  {| innerCursor := innerCursor c; outerCursor := outerCursor c;
     innerX := innerX c; innerY := innerY c;
     outerX := x; outerY := y;
     isHovering := isHovering c; easeAmount := easeAmount c;
     listeners := listeners c; frame_requested := frame_requested c |}.

Definition set_hovering (b : bool) (c : cursor) : cursor :=
  {| innerCursor := innerCursor c; outerCursor := outerCursor c;
     innerX := innerX c; innerY := innerY c;
     outerX := outerX c; outerY := outerY c;
     isHovering := b; easeAmount := easeAmount c;
     listeners := listeners c; frame_requested := frame_requested c |}.

Definition addEventListener (t : target) (ty : event_type) (cb : callback)
    (c : cursor) : cursor :=
  {| innerCursor := innerCursor c; outerCursor := outerCursor c;
     innerX := innerX c; innerY := innerY c;
     outerX := outerX c; outerY := outerY c;
     isHovering := isHovering c; easeAmount := easeAmount c;
     listeners := listeners c ++ [(t, ty, cb)];
     frame_requested := frame_requested c |}.

Definition set_frame_requested (b : bool) (c : cursor) : cursor :=
  {| innerCursor := innerCursor c; outerCursor := outerCursor c;
     innerX := innerX c; innerY := innerY c;
     outerX := outerX c; outerY := outerY c;
     isHovering := isHovering c; easeAmount := easeAmount c;
     listeners := listeners c; frame_requested := b |}.

Definition with_position (x y : Q) (m : marker) : marker :=
  {| style_left := Some x; style_top := Some y;
     style_opacity := style_opacity m; classList := classList m |}.

Definition with_opacity (o : jsstring) (m : marker) : marker :=
  {| style_left := style_left m; style_top := style_top m;
     style_opacity := Some o; classList := classList m |}.

Definition with_classes (l : list jsstring) (m : marker) : marker :=
  {| style_left := style_left m; style_top := style_top m;
     style_opacity := style_opacity m; classList := l |}.

(** [classList.add] and [classList.remove]. *)
Definition classList_add (tok : jsstring) (l : list jsstring) : list jsstring :=
  if decide (tok ∈ l) then l else l ++ [tok].
Definition classList_remove (tok : jsstring) (l : list jsstring) : list jsstring :=
  filter (fun t => t ≠ tok) l.

(** [v > 0] for a property that may be [undefined]. *)
Definition positive_count (v : option Z) : bool :=
  match v with
  | Some n => (0 <? n)%Z
  | None => false
  end.

Definition isTouchDevice (d : device) : bool :=
  positive_count (maxTouchPoints d)
  || positive_count (msMaxTouchPoints d)
  || hover_none_matches d.

(** The handlers.  A statement on a marker that is [null] throws; the
    handler ends there, with what it had assigned before. *)
Definition onMouseMove (clientX clientY : Q) (c : cursor) : cursor :=
  let c := set_inner_pos clientX clientY c in
  match innerCursor c with
  | None => c
  | Some m => set_inner (Some (with_position (innerX c) (innerY c) m)) c
  end.

Definition onMouseEnter (c : cursor) : cursor :=
  match innerCursor c with
  | None => c
  | Some m =>
      let c := set_inner (Some (with_opacity (lit "1") m)) c in
      match outerCursor c with
      | None => c
      | Some o => set_outer (Some (with_opacity (lit "0.6") o)) c
      end
  end.

Definition onMouseLeave (c : cursor) : cursor :=
  match innerCursor c with
  | None => c
  | Some m =>
      let c := set_inner (Some (with_opacity (lit "0") m)) c in
      match outerCursor c with
      | None => c
      | Some o => set_outer (Some (with_opacity (lit "0") o)) c
      end
  end.

Definition onElementHover (c : cursor) : cursor :=
  let c := set_hovering true c in
  match outerCursor c with
  | None => c
  | Some o =>
      set_outer (Some (with_classes (classList_add (lit "cursor-hover") (classList o)) o)) c
  end.

Definition onElementLeave (c : cursor) : cursor :=
  let c := set_hovering false c in
  match outerCursor c with
  | None => c
  | Some o =>
      set_outer (Some (with_classes (classList_remove (lit "cursor-hover") (classList o)) o)) c
  end.

Section Arithmetic.
Variable rnd : Q -> Q.

(** One coordinate of a frame: [outer += (inner - outer) * easeAmount]. *)
Definition ease (inner outer amount : Q) : Q :=
  js_add rnd outer (js_mul rnd (js_sub rnd inner outer) amount).

(** One animation frame; the next one is requested at its end. *)
Definition animate (c : cursor) : cursor :=
  let x := ease (innerX c) (outerX c) (easeAmount c) in
  let c := set_outer_pos x (outerY c) c in
  let y := ease (innerY c) (outerY c) (easeAmount c) in
  let c := set_outer_pos (outerX c) y c in
  match outerCursor c with
  | None => c
  | Some o =>
      set_frame_requested true
        (set_outer (Some (with_position (outerX c) (outerY c) o)) c)
  end.

(** [addHoverListeners], over the elements the selector list matches. *)
Definition addHoverListeners (interactive : list nat) (c : cursor) : cursor :=
  fold_left
    (fun c el =>
       addEventListener (Element el) mouseleave call_onElementLeave
         (addEventListener (Element el) mouseenter call_onElementHover c))
    interactive c.

Definition init (d : device) (interactive : list nat) (c : cursor) : cursor :=
  if isTouchDevice d then c
  else
    let c := addEventListener Document mousemove call_onMouseMove c in
    let c := addEventListener Document mouseenter call_onMouseEnter c in
    let c := addEventListener Document mouseleave call_onMouseLeave c in
    let c := addHoverListeners interactive c in
    animate c.

(** The fields the constructor assigns before it calls [init], in a
    document with the markers [inner] and [outer]. *)
Definition fresh (inner outer : option marker) : cursor :=
  {| innerCursor := inner; outerCursor := outer;
     innerX := 0; innerY := 0; outerX := 0; outerY := 0;
     isHovering := false; easeAmount := num_lit rnd (12 # 100);
     listeners := []; frame_requested := false |}.

(** [new CustomCursor()]; [interactive] are the elements that the
    selector list of [addHoverListeners] matches. *)
Definition constructor (d : device) (inner outer : option marker)
    (interactive : list nat) : cursor :=
  init d interactive (fresh inner outer).

(** What the browser delivers afterwards. *)
Inductive event : Type :=
| Mouse (t : target) (ty : event_type) (clientX clientY : Q)
| AnimationFrame.

Definition run_callback (cb : callback) (clientX clientY : Q) (c : cursor) : cursor :=
  match cb with
  | call_onMouseMove => onMouseMove clientX clientY c
  | call_onMouseEnter => onMouseEnter c
  | call_onMouseLeave => onMouseLeave c
  | call_onElementHover => onElementHover c
  | call_onElementLeave => onElementLeave c
  end.

(** [mousemove] bubbles from its target up to the document;
    [mouseenter] and [mouseleave] do not. *)
Definition bubbles (ty : event_type) : bool :=
  match ty with
  | mousemove => true
  | mouseenter | mouseleave => false
  end.

(** The callbacks registered for a target and a type, in the order of
    registration. *)
Definition run_listeners (t : target) (ty : event_type) (clientX clientY : Q)
    (c : cursor) : cursor :=
  fold_left
    (fun c l =>
       match l with
       | (t', ty', cb) =>
           if decide (t' = t /\ ty' = ty) then run_callback cb clientX clientY c else c
       end)
    (listeners c) c.

(** An event runs the callbacks registered on its target and, when it
    is on an element and bubbles, those registered on the document after
    them (the class registers on no other ancestor a listener for a type
    that bubbles); an animation frame runs [animate] when one was
    requested. *)
Definition dispatch (c : cursor) (e : event) : cursor :=
  match e with
  | Mouse t ty x y =>
      let c := run_listeners t ty x y c in
      match t with
      | Element _ => if bubbles ty then run_listeners Document ty x y c else c
      | Document => c
      end
  | AnimationFrame =>
      if frame_requested c then animate (set_frame_requested false c) else c
  end.

Definition run (es : list event) (c : cursor) : cursor := fold_left dispatch es c.

End Arithmetic.

(** A marker without inline style or class. *)
Definition plain_marker : marker :=
  {| style_left := None; style_top := None; style_opacity := None; classList := [] |}.

(** The Euclidean distance from the follower to the pointer. *)
Definition distance (c : cursor) : R :=
  sqrt ((Q2R (innerX c) - Q2R (outerX c)) ^ 2 + (Q2R (innerY c) - Q2R (outerY c)) ^ 2)%R.

End CustomCursor.

(** ** Smooth scrolling: the two click handlers on [a[href^="#"]] *)
Module SmoothScroll.

(** [document.querySelector(sel)]: a [SyntaxError] for a selector that
    does not parse, [null], or the first matching element. *)
Inductive query_result : Type :=
| QuerySyntaxError
| QueryNull
| QueryElement (el : nat).

Record scroll_options : Type := {
  behavior : jsstring;
  block : option jsstring
}.

Inductive effect : Type :=
| PreventDefault
| ScrollIntoView (el : nat) (opts : scroll_options).

#[global] Instance scroll_options_eq_dec : EqDecision scroll_options.
Proof. solve_decision. Defined.
#[global] Instance effect_eq_dec : EqDecision effect.
Proof. solve_decision. Defined.

(** What a run of a handler did, in order, and whether it ended by an
    exception. *)
Record outcome : Type := {
  effects : list effect;
  threw : bool
}.

Definition done_with (l : list effect) : outcome := {| effects := l; threw := false |}.
Definition thrown_after (l : list effect) : outcome := {| effects := l; threw := true |}.

Section Document.
Variable querySelector : jsstring -> query_result.

(** The handler of the first script: it acts only when the target is
    found, and then queries once more for the element to scroll to. *)
Definition smoothScrollEnhancement (href : jsstring) : outcome :=
  if decide (href ≠ lit "#") then
    match querySelector href with
    | QuerySyntaxError => thrown_after []
    | QueryNull => done_with []
    | QueryElement _ =>
        match querySelector href with
        | QuerySyntaxError => thrown_after [PreventDefault]
        | QueryNull => thrown_after [PreventDefault]
        | QueryElement el =>
            done_with
              [PreventDefault;
               ScrollIntoView el {| behavior := lit "smooth"; block := Some (lit "start") |}]
        end
    end
  else done_with [].

(** The handler that [initSmoothScroll] registers. *)
Definition initSmoothScroll (href : jsstring) : outcome :=
  if decide (href ≠ lit "#") then
    match querySelector href with
    | QuerySyntaxError => thrown_after [PreventDefault]
    | QueryNull => done_with [PreventDefault]
    | QueryElement target =>
        done_with
          [PreventDefault;
           ScrollIntoView target {| behavior := lit "smooth"; block := None |}]
    end
  else done_with [].

End Document.

Definition is_scroll (e : effect) : bool :=
  match e with
  | ScrollIntoView _ _ => true
  | PreventDefault => false
  end.

(** The handler cancelled the default navigation. *)
Definition cancels_default (o : outcome) : Prop := PreventDefault ∈ effects o.
(** The handler started a scroll. *)
Definition scrolls (o : outcome) : Prop := existsb is_scroll (effects o) = true.
(** The handler started a smooth scroll to the element [el]. *)
Definition scrolls_to (el : nat) (o : outcome) : Prop :=
  exists opts, ScrollIntoView el opts ∈ effects o /\ behavior opts = lit "smooth".
(** An element matches the selector. *)
Definition target_exists (querySelector : jsstring -> query_result) (href : jsstring) : Prop :=
  exists el, querySelector href = QueryElement el.

End SmoothScroll.

(** ** Toasts and the contact form *)
Module ContactForm.

(** The [div] that [showNotification] appends to the body. *)
Record notification : Type := {
  textContent : jsstring;
  backgroundColor : jsstring
}.

Definition color_success : jsstring := lit "#2ecc71".
Definition color_error : jsstring := lit "#e74c3c".

(** [showNotification(message, type)]: the box and its colour.  Its
    removal after three seconds is a timer and is left out. *)
Definition showNotification (message type : jsstring) : notification :=
  {| textContent := message;
     backgroundColor :=
       if decide (type = lit "success") then color_success else color_error |}.

Definition msg_fill_all : jsstring :=
  lit "Bitte f" ++ 252 :: lit "lle alle Felder aus!".
Definition msg_bad_email : jsstring :=
  lit "Bitte gib eine g" ++ 252 :: lit "ltige E-Mail ein!".
Definition msg_thanks : jsstring :=
  lit "Danke f" ++ 252 :: lit "r deine Nachricht! Wir kontaktieren dich bald.".

(** [Object.fromEntries]: a later entry of the same name wins. *)
Definition fromEntries (entries : list (jsstring * jsstring)) : gmap (list N) (list N) :=
  fold_left (fun m kv => <[kv.1 := kv.2]> m) entries ∅.

(** [!v] for a property that is a string or [undefined]. *)
Definition falsy (v : option jsstring) : bool :=
  match v with
  | None => true
  | Some [] => true
  | Some (_ :: _) => false
  end.

Inductive effect : Type :=
| PreventDefault
| ShowNotification (n : notification)
| Reset
| ConsoleLog (data : gmap (list N) (list N)).

(** The submit handler of [initContactForm], on the entries of the
    form's [FormData]: what it does, in order. *)
Definition initContactForm (entries : list (jsstring * jsstring)) : list effect :=
  let data := fromEntries entries in
  PreventDefault ::
  if falsy (data !! lit "name") || falsy (data !! lit "email")
     || falsy (data !! lit "message")
  then [ShowNotification (showNotification msg_fill_all (lit "error"))]
  else if negb (isValidEmail (default [] (data !! lit "email")))
  then [ShowNotification (showNotification msg_bad_email (lit "error"))]
  else [ShowNotification (showNotification msg_thanks (lit "success"));
        Reset;
        ConsoleLog data].

(** The form and the toasts on the page. *)
Record form_page : Type := {
  fields : list (jsstring * jsstring);     (* the controls: name and value *)
  defaults : list (jsstring * jsstring);   (* their values after a reset *)
  toasts : list notification;
  default_prevented : bool;
  console : list (gmap (list N) (list N))
}.

Definition apply_effect (p : form_page) (e : effect) : form_page :=
  match e with
  | PreventDefault =>
      {| fields := fields p; defaults := defaults p; toasts := toasts p;
         default_prevented := true; console := console p |}
  | ShowNotification n =>
      {| fields := fields p; defaults := defaults p; toasts := toasts p ++ [n];
         default_prevented := default_prevented p; console := console p |}
  | Reset =>
      {| fields := defaults p; defaults := defaults p; toasts := toasts p;
         default_prevented := default_prevented p; console := console p |}
  | ConsoleLog d =>
      {| fields := fields p; defaults := defaults p; toasts := toasts p;
         default_prevented := default_prevented p; console := console p ++ [d] |}
  end.

(** A submission of the form as it stands. *)
Definition submit (p : form_page) : form_page :=
  fold_left apply_effect (initContactForm (fields p))
    {| fields := fields p; defaults := defaults p; toasts := toasts p;
       default_prevented := false; console := console p |}.

Definition is_error_toast (e : effect) : bool :=
  match e with
  | ShowNotification n => bool_decide (backgroundColor n = color_error)
  | _ => false
  end.

Definition is_reset (e : effect) : bool :=
  match e with
  | Reset => true
  | _ => false
  end.

(** The value of a field of the submitted data, [""] when absent. *)
Definition field (name : string) (entries : list (jsstring * jsstring)) : jsstring :=
  default [] (fromEntries entries !! lit name).

End ContactForm.

(** ** Notions used to state the properties *)

(** *** Addresses *)

(** The part of [s] after its first ['@']. *)
Fixpoint after_at (s : jsstring) : jsstring :=
  match s with
  | [] => []
  | c :: s' => if c =? ch_at then s' else after_at s'
  end.

(** An address in words: no white space, exactly one ['@'], not in
    front, and after it a ['.'] that is neither the first nor the last
    code unit. *)
Definition well_formed_email (s : jsstring) : Prop :=
  Forall (fun c => is_js_space c = false) s
  /\ count_occ N.eq_dec s ch_at = 1%nat
  /\ head s <> Some ch_at
  /\ exists i : nat,
       after_at s !! i = Some ch_dot
       /\ (0 < i)%nat /\ (S i < length (after_at s))%nat.

(** *** Rounding and numerals *)

(** What the proofs ask of the rounding to a double: it is monotone, and
    it keeps the integers up to 2^53, which are all doubles. *)
Record rounding (rnd : Q -> Q) : Prop := {
  rnd_monotone : forall x y : Q, (x <= y)%Q -> (rnd x <= rnd y)%Q;
  rnd_integer : forall z : Z, (Z.abs z <= 2 ^ 53)%Z -> (rnd (inject_Z z) == inject_Z z)%Q
}.

(** [Math.random()] returns a number from 0 up to, not including, 1. *)
Definition unit_interval (random : nat -> Q) : Prop :=
  forall k : nat, (0 <= random k < 1)%Q.

(** Enough fuel for the digits of [n]. *)
Definition enough_fuel (f : nat) (n : N) : Prop := f <> O /\ n < 2 ^ N.of_nat f.

(** The integer [toFixed(2)] prints: the nearest to [100 x], the larger
    one on a tie. *)
Definition hundredths (x : Q) : N := Z.to_N (Qfloor (x * 100 + (1 # 2))%Q).

(** [s] is a decimal numeral with exactly two digits after the point,
    and [q] is the number it denotes. *)
Definition two_decimals (s : jsstring) (q : Q) : Prop :=
  exists (ip : jsstring) (d1 d2 : code_unit),
    s = ip ++ [ch_dot; d1; d2]
    /\ ip <> []
    /\ Forall (fun c => is_digit c = true) ip
    /\ is_digit d1 = true /\ is_digit d2 = true
    /\ (q == inject_Z (Z.of_N (digits_value ip))
             + inject_Z (Z.of_N (10 * digit_value d1 + digit_value d2)) / 100)%Q.

(** A reading field: a two-decimal numeral of a value between [lo] and [hi]. *)
Definition two_decimals_within (lo hi : Q) (s : jsstring) : Prop :=
  exists q : Q, two_decimals s q /\ (lo <= q <= hi)%Q.

(** *** The dashboard *)

(** The last [n] entries of a list, in their order. *)
Definition last_n {A : Type} (n : nat) (l : list A) : list A :=
  skipn (length l - n) l.

(** The four columns a sequence of readings contributes to the histories. *)
Definition columns (rnd : Q -> Q) (ds : list DataDashboard.reading) : DataDashboard.histories :=
  {| DataDashboard.h_temperature :=
       List.map (fun d => parseFloat rnd (DataDashboard.temperature d)) ds;
     DataDashboard.h_humidity :=
       List.map (fun d => parseFloat rnd (DataDashboard.humidity d)) ds;
     DataDashboard.h_pressure :=
       List.map (fun d => parseFloat rnd (DataDashboard.pressure d)) ds;
     DataDashboard.h_timestamps := List.map DataDashboard.timestamp ds |}.

(** The last [n] entries of each of the four histories. *)
Definition last_rows (n : nat) (h : DataDashboard.histories) : DataDashboard.histories :=
  {| DataDashboard.h_temperature := last_n n (DataDashboard.h_temperature h);
     DataDashboard.h_humidity := last_n n (DataDashboard.h_humidity h);
     DataDashboard.h_pressure := last_n n (DataDashboard.h_pressure h);
     DataDashboard.h_timestamps := last_n n (DataDashboard.h_timestamps h) |}.

Definition no_history : DataDashboard.histories :=
  {| DataDashboard.h_temperature := []; DataDashboard.h_humidity := [];
     DataDashboard.h_pressure := []; DataDashboard.h_timestamps := [] |}.

(** The histories are in step and within the cap of 20. *)
Definition capped (h : DataDashboard.histories) : Prop :=
  (length (DataDashboard.h_temperature h) <= 20)%nat
  /\ length (DataDashboard.h_humidity h) = length (DataDashboard.h_temperature h)
  /\ length (DataDashboard.h_pressure h) = length (DataDashboard.h_temperature h)
  /\ length (DataDashboard.h_timestamps h) = length (DataDashboard.h_temperature h).

Section MockOracle.
Variable rnd : Q -> Q.
Variable random : nat -> Q.
Variable toLocaleTimeString : nat -> jsstring.

(** The reading [generateMockData] builds on the page [p]. *)
Definition next_mock (p : DataDashboard.page) : DataDashboard.reading :=
  DataDashboard.mock_reading rnd toLocaleTimeString
    (DataDashboard.clock_reads p)
    (random (DataDashboard.random_calls p))
    (random (S (DataDashboard.random_calls p)))
    (random (S (S (DataDashboard.random_calls p)))).

(** The page after that call: three draws and one reading of the clock
    later, the call logged. *)
Definition after_mock (p : DataDashboard.page) : DataDashboard.page :=
  DataDashboard.add_call (DataDashboard.CallGenerateMockData (next_mock p))
    (DataDashboard.set_oracles (3 + DataDashboard.random_calls p)
       (S (DataDashboard.clock_reads p)) p).

End MockOracle.

(** What the user sees of the dashboard: the histories behind the chart,
    the chart, and the three stat boxes. *)
Definition display (p : DataDashboard.page) :=
  (DataDashboard.data p, DataDashboard.chart p,
   DataDashboard.current_temp p, DataDashboard.current_humidity p,
   DataDashboard.current_pressure p).

(** The cycles in which no reading arrives: the call throws, its promise
    is rejected, the status is not a success, or the body does not parse. *)
Definition fetch_failed (o : DataDashboard.fetch_outcome) : bool :=
  match o with
  | DataDashboard.FetchThrows => true
  | DataDashboard.FetchRejects => true
  | DataDashboard.FetchResolves ok body =>
      negb ok || match body with
                 | DataDashboard.JsonRejects => true
                 | DataDashboard.JsonValue _ => false
                 end
  end.

(** *** The cursor *)

(** The cursor after [n] animation frames with the pointer at rest. *)
Definition frames (rnd : Q -> Q) (n : nat) (c : CustomCursor.cursor) : CustomCursor.cursor :=
  Nat.iter n (CustomCursor.animate rnd) c.

(** The follower is on the pointer. *)
Definition follower_at_pointer (c : CustomCursor.cursor) : Prop :=
  (CustomCursor.innerX c == CustomCursor.outerX c)%Q
  /\ (CustomCursor.innerY c == CustomCursor.outerY c)%Q.

(** The pointer and the follower are at doubles. *)
Definition double_positions (c : CustomCursor.cursor) : Prop :=
  is_double (CustomCursor.innerX c) /\ is_double (CustomCursor.innerY c)
  /\ is_double (CustomCursor.outerX c) /\ is_double (CustomCursor.outerY c).

(** The device is touch-capable: a positive count of touch points under
    either name, or a match of the media query ["(hover: none)"]. *)
Definition touch_capable (d : CustomCursor.device) : Prop :=
  (exists n : Z, CustomCursor.maxTouchPoints d = Some n /\ (0 < n)%Z)
  \/ (exists n : Z, CustomCursor.msMaxTouchPoints d = Some n /\ (0 < n)%Z)
  \/ CustomCursor.hover_none_matches d = true.

(** *** The contact form *)

(** Some required field of the submitted data is empty or missing. *)
Definition incomplete (entries : list (jsstring * jsstring)) : Prop :=
  ContactForm.field "name" entries = []
  \/ ContactForm.field "email" entries = []
  \/ ContactForm.field "message" entries = [].

(** *** The follower in doubles *)

(** The pointer and the follower are within [M] of the origin in both
    coordinates. *)
Definition positions_within (M : Q) (c : CustomCursor.cursor) : Prop :=
  (- M <= CustomCursor.innerX c <= M)%Q /\ (- M <= CustomCursor.innerY c <= M)%Q
  /\ (- M <= CustomCursor.outerX c <= M)%Q /\ (- M <= CustomCursor.outerY c <= M)%Q.

(** The three operations of [outer += (inner - outer) * amount] give
    results in the range of the finite doubles: none overflows. *)
Definition ease_finite (inner outer amount : Q) : Prop :=
  finite_range (js_sub binary64 inner outer)
  /\ finite_range (js_mul binary64 (js_sub binary64 inner outer) amount)
  /\ finite_range (CustomCursor.ease binary64 inner outer amount).

(** No operation of the next frame overflows. *)
Definition frame_finite (c : CustomCursor.cursor) : Prop :=
  ease_finite (CustomCursor.innerX c) (CustomCursor.outerX c) (CustomCursor.easeAmount c)
  /\ ease_finite (CustomCursor.innerY c) (CustomCursor.outerY c) (CustomCursor.easeAmount c).

(** What the rounding of a frame can add to or take from a coordinate
    of positions within [M]: 2^-52 of [M], or three times 2^-1075. *)
Definition rounding_level (M : Q) : Q :=
  (M * (1 # 4503599627370496) + 3 * 2 ^ (-1075))%Q.

(** ** Sample inputs *)

Definition sample_reading (k : nat) : DataDashboard.reading :=
  {| DataDashboard.temperature := lit "21.50";
     DataDashboard.humidity := lit "55.00";
     DataDashboard.pressure := lit "1015.25";
     DataDashboard.timestamp := decimal_digits (N.of_nat k) |}.

(** Twenty-one readings, told apart by their timestamps 1 to 21. *)
Definition sample_readings : list DataDashboard.reading :=
  List.map sample_reading (seq 1 21).

(** A page with a chart and the three stat boxes, all empty. *)
Definition sample_page : DataDashboard.page :=
  DataDashboard.constructor true true (Some []) (Some []) (Some []).

(** A random source that always draws one half, and a clock that
    numbers its readings. *)
Definition sample_random (k : nat) : Q := 1 # 2.
Definition sample_clock (k : nat) : jsstring := decimal_digits (N.of_nat k).

(** A desktop browser, and a phone. *)
Definition desktop : CustomCursor.device :=
  {| CustomCursor.maxTouchPoints := Some 0%Z;
     CustomCursor.msMaxTouchPoints := None;
     CustomCursor.hover_none_matches := false |}.
Definition phone : CustomCursor.device :=
  {| CustomCursor.maxTouchPoints := Some 5%Z;
     CustomCursor.msMaxTouchPoints := None;
     CustomCursor.hover_none_matches := true |}.

(** The cursor object with the pointer moved to (100, 50), in doubles. *)
Definition sample_cursor64 : CustomCursor.cursor :=
  CustomCursor.onMouseMove 100 50
    (CustomCursor.fresh binary64 (Some CustomCursor.plain_marker)
       (Some CustomCursor.plain_marker)).

(** A document in which only ["#about"] has a target. *)
Definition sample_document (sel : jsstring) : SmoothScroll.query_result :=
  if decide (sel = lit "#about") then SmoothScroll.QueryElement 1
  else SmoothScroll.QueryNull.

(** The contact form with its message left empty. *)
Definition sample_form : ContactForm.form_page :=
  {| ContactForm.fields :=
       [(lit "name", lit "Ada"); (lit "email", lit "ada@example.org");
        (lit "message", lit "")];
     ContactForm.defaults :=
       [(lit "name", lit ""); (lit "email", lit ""); (lit "message", lit "")];
     ContactForm.toasts := [];
     ContactForm.default_prevented := false;
     ContactForm.console := [] |}.

(** ** Mobile menu: [initMobileMenu] *)
Module MobileMenu.

(** [classList.toggle]. *)
Definition classList_toggle (tok : jsstring) (l : list jsstring) : list jsstring :=
  if decide (tok ∈ l) then CustomCursor.classList_remove tok l else l ++ [tok].

(** The element a click passes on its way up to the document. *)
Inductive node : Type :=
| NodeToggle               (* #menuToggle *)
| NodeNavLink (i : nat)    (* an element of class nav-link *)
| NodeOther.

#[global] Instance node_eq_dec : EqDecision node.
Proof. solve_decision. Defined.

Inductive callback : Type :=
| call_toggle      (* the listener on #menuToggle *)
| call_close_link  (* the listener on a nav link *)
| call_outside.    (* the listener on the document *)

Inductive target : Type :=
| OnNode (n : node)
| OnDocument.

#[global] Instance target_eq_dec : EqDecision target.
Proof. solve_decision. Defined.

(** The class lists of [#menuToggle] and [#navMenu] ([None] for an
    element the document lacks), and the click listeners registered. *)
Record menu : Type := {
  menuToggle : option (list jsstring);
  navMenu : option (list jsstring);
  listeners : list (target * callback)
}.

Definition set_toggle (l : list jsstring) (m : menu) : menu :=
  {| menuToggle := Some l; navMenu := navMenu m; listeners := listeners m |}.
Definition set_nav (l : list jsstring) (m : menu) : menu :=
  {| menuToggle := menuToggle m; navMenu := Some l; listeners := listeners m |}.
Definition addEventListener (t : target) (cb : callback) (m : menu) : menu :=
  {| menuToggle := menuToggle m; navMenu := navMenu m;
     listeners := listeners m ++ [(t, cb)] |}.

Definition active : jsstring := lit "active".

(** One statement [el.classList.f('active')] after the other; on an
    element that is [null] the statement throws and the listener ends. *)
Definition on_both (f : list jsstring -> list jsstring) (m : menu) : menu :=
  match menuToggle m with
  | None => m
  | Some t =>
      let m := set_toggle (f t) m in
      match navMenu m with
      | None => m
      | Some n => set_nav (f n) m
      end
  end.

(** The listener on the button. *)
Definition toggle_click (m : menu) : menu := on_both (classList_toggle active) m.

(** The listener on a nav link. *)
Definition link_click (m : menu) : menu :=
  on_both (CustomCursor.classList_remove active) m.

(** The listener on the document; [in_navbar] is whether
    [event.target.closest('.navbar')] finds an element. *)
Definition document_click (in_navbar : bool) (m : menu) : menu :=
  if in_navbar then m else on_both (CustomCursor.classList_remove active) m.

(** [initMobileMenu], in a document whose nav links are [links]. *)
Definition initMobileMenu (links : list nat) (m : menu) : menu :=
  match menuToggle m with
  | None => m
  | Some _ =>
      let m := addEventListener (OnNode NodeToggle) call_toggle m in
      let m := fold_left
                 (fun m i => addEventListener (OnNode (NodeNavLink i)) call_close_link m)
                 links m in
      addEventListener OnDocument call_outside m
  end.

(** A click: the elements with listeners it passes from its target
    upwards, and whether the target lies in the navbar. *)
Record click : Type := {
  path : list node;
  in_navbar : bool
}.

Definition run_callback (cb : callback) (e : click) (m : menu) : menu :=
  match cb with
  | call_toggle => toggle_click m
  | call_close_link => link_click m
  | call_outside => document_click (in_navbar e) m
  end.

(** The listeners registered on [t], in the order of registration. *)
Definition run_listeners (t : target) (e : click) (m : menu) : menu :=
  fold_left
    (fun m l => if decide (fst l = t) then run_callback (snd l) e m else m)
    (listeners m) m.

(** The click bubbles: the listeners of each element of the path, then
    those of the document. *)
Definition dispatch (m : menu) (e : click) : menu :=
  run_listeners OnDocument e
    (fold_left (fun m n => run_listeners (OnNode n) e m) (path e) m).

Definition run (es : list click) (m : menu) : menu := fold_left dispatch es m.

(** The element carries the class [active]. *)
Definition is_active (classes : option (list jsstring)) : Prop :=
  exists l, classes = Some l /\ active ∈ l.

End MobileMenu.


(** ** Reveal on scroll: [initIntersectionObserver] *)
Module Reveal.

(** The inline style of an element, as far as the script sets it. *)
Record style : Type := {
  opacity : option jsstring;
  animation : option jsstring
}.

Definition no_style : style := {| opacity := None; animation := None |}.

(** The inline styles set so far, by element (an element without an
    entry has none), and the elements the observer watches. *)
Record scene : Type := {
  styles : gmap nat style;
  observed : gset nat
}.

Definition style_of (el : nat) (s : scene) : style := default no_style (styles s !! el).

Definition set_style (el : nat) (st : style) (s : scene) : scene :=
  {| styles := <[el := st]> (styles s); observed := observed s |}.

Definition slide_in_up : jsstring := lit "slideInUp 0.6s ease forwards".

(** An entry the observer hands to its callback. *)
Record entry : Type := {
  target : nat;
  isIntersecting : bool
}.

(** The body of the callback for one entry. *)
Definition on_entry (s : scene) (e : entry) : scene :=
  if isIntersecting e then
    let s := set_style (target e)
               {| opacity := Some (lit "1"); animation := animation (style_of (target e) s) |} s in
    let s := set_style (target e)
               {| opacity := opacity (style_of (target e) s); animation := Some slide_in_up |} s in
    {| styles := styles s; observed := observed s ∖ {[target e]} |}
  else s.

(** The callback of the observer. *)
Definition callback (entries : list entry) (s : scene) : scene :=
  fold_left on_entry entries s.

(** [initIntersectionObserver], for the cards [cards] of the document:
    each is hidden and observed. *)
Definition initIntersectionObserver (cards : list nat) (s : scene) : scene :=
  fold_left
    (fun s el =>
       let s := set_style el
                  {| opacity := Some (lit "0"); animation := animation (style_of el s) |} s in
       {| styles := styles s; observed := observed s ∪ {[el]} |})
    cards s.

(** The calls of the callback over the life of the page. *)
Definition run (calls : list (list entry)) (s : scene) : scene :=
  fold_left (fun s es => callback es s) calls s.

Definition hidden (el : nat) (s : scene) : Prop := opacity (style_of el s) = Some (lit "0").
Definition revealed (el : nat) (s : scene) : Prop :=
  opacity (style_of el s) = Some (lit "1") /\ animation (style_of el s) = Some slide_in_up.

End Reveal.

(** ** Toasts and their timers: [showNotification] with its [setTimeout]s *)
Module Toasts.

Definition slide_in_right : jsstring := lit "slideInRight 0.3s ease".
Definition slide_out_right : jsstring := lit "slideOutRight 0.3s ease".

(** A notification on the page: the box, its animation, and the time
    (in ms) at which it was shown. *)
Record toast : Type := {
  box : ContactForm.notification;
  animation : jsstring;
  shown_at : N
}.

(** What a timer does when it fires: the outer callback of
    [showNotification] for the toast [id], or the inner one. *)
Inductive action : Type :=
| StartSlideOut (id : nat)
| Remove (id : nat).

(** The notifications in the body, by the order of their creation, the
    pending timers with the times they are due, and the clock. *)
Record screen : Type := {
  toasts : gmap nat toast;
  timers : list (N * action);
  now : N;
  next_id : nat
}.

Definition empty_screen : screen :=
  {| toasts := ∅; timers := []; now := 0; next_id := 0 |}.

(** [setTimeout(a, delay)]. *)
Definition setTimeout (a : action) (delay : N) (s : screen) : screen :=
  {| toasts := toasts s; timers := timers s ++ [(now s + delay, a)];
     now := now s; next_id := next_id s |}.

(** [showNotification(message, type)]: the box is appended to the body
    and the timer of three seconds is set. *)
Definition showNotification (message type : jsstring) (s : screen) : screen :=
  let id := next_id s in
  let s := {| toasts := <[id := {| box := ContactForm.showNotification message type;
                                   animation := slide_in_right;
                                   shown_at := now s |}]> (toasts s);
              timers := timers s; now := now s; next_id := S id |} in
  setTimeout (StartSlideOut id) 3000 s.

(** The two callbacks.  The outer one restyles the box, on the page or
    not, and sets the inner timer; the inner one removes the box. *)
Definition run_action (a : action) (s : screen) : screen :=
  match a with
  | StartSlideOut id =>
      let s := {| toasts := alter (fun t => {| box := box t; animation := slide_out_right;
                                               shown_at := shown_at t |}) id (toasts s);
                  timers := timers s; now := now s; next_id := next_id s |} in
      setTimeout (Remove id) 300 s
  | Remove id =>
      {| toasts := delete id (toasts s); timers := timers s;
         now := now s; next_id := next_id s |}
  end.

(** What happens on the page: time passes, and then a notification is
    shown or the [k]-th pending timer fires.  A timer does not fire
    before it is due. *)
Inductive event : Type :=
| Show (message type : jsstring)
| Fire (k : nat).

Definition pass (dt : N) (s : screen) : screen :=
  {| toasts := toasts s; timers := timers s; now := now s + dt; next_id := next_id s |}.

Definition fire (k : nat) (s : screen) : screen :=
  match timers s !! k with
  | Some (due, a) =>
      if due <=? now s
      then run_action a {| toasts := toasts s; timers := delete k (timers s);
                           now := now s; next_id := next_id s |}
      else s
  | None => s
  end.

Definition step (s : screen) (e : N * event) : screen :=
  let s := pass (fst e) s in
  match snd e with
  | Show message type => showNotification message type s
  | Fire k => fire k s
  end.

Definition run (es : list (N * event)) (s : screen) : screen := fold_left step es s.

End Toasts.


(** ** Further notions *)

(** *** The dashboard over many cycles *)

(** A history entry is a finite number between [lo] and [hi]. *)
Definition number_within (lo hi : Q) (n : number) : Prop :=
  exists v : Q, n = Finite v /\ (lo <= v <= hi)%Q.

(** Every entry of the three numeric histories lies in the range of the
    mock readings. *)
Definition within_mock_ranges (h : DataDashboard.histories) : Prop :=
  Forall (number_within 20 30) (DataDashboard.h_temperature h)
  /\ Forall (number_within 40 70) (DataDashboard.h_humidity h)
  /\ Forall (number_within 1013 1018) (DataDashboard.h_pressure h).

(** How often a cycle runs [generateMockData]: twice when the promise is
    rejected, not at all when a reading arrives, once otherwise. *)
Definition mock_generations (o : DataDashboard.fetch_outcome) : nat :=
  match o with
  | DataDashboard.FetchRejects => 2
  | DataDashboard.FetchResolves true (DataDashboard.JsonValue _) => 0
  | _ => 1
  end.

(** The cycles that end in the [catch] block. *)
Definition caught (o : DataDashboard.fetch_outcome) : option DataDashboard.exn :=
  match o with
  | DataDashboard.FetchThrows => Some DataDashboard.FetchError
  | DataDashboard.FetchResolves true DataDashboard.JsonRejects => Some DataDashboard.JsonError
  | _ => None
  end.

(** The chart as [updateChart] leaves it on the page [p], drawn [n] times. *)
Definition chart_of (p : DataDashboard.page) (n : nat) : DataDashboard.chart_state :=
  {| DataDashboard.labels := DataDashboard.h_timestamps (DataDashboard.data p);
     DataDashboard.series_temperature := DataDashboard.h_temperature (DataDashboard.data p);
     DataDashboard.series_humidity := DataDashboard.h_humidity (DataDashboard.data p);
     DataDashboard.redraws := n |}.

(** The lines the polling leaves on the console: one for each cycle
    that ended in the [catch] block, with what was caught. *)
Definition console_trace (os : list DataDashboard.fetch_outcome)
    : list (jsstring * DataDashboard.exn) :=
  flat_map
    (fun o => match caught o with
              | Some e => [(lit "Using mock data:", e)]
              | None => []
              end)
    os.

(** *** The cursor and its events *)

Definition cursor_hover : jsstring := lit "cursor-hover".

(** The follower carries the class [cursor-hover]. *)
Definition hover_shown (c : CustomCursor.cursor) : Prop :=
  exists o, CustomCursor.outerCursor c = Some o /\ cursor_hover ∈ CustomCursor.classList o.

(** The follower is drawn where the object holds it. *)
Definition follower_drawn (c : CustomCursor.cursor) : Prop :=
  exists o, CustomCursor.outerCursor c = Some o
            /\ CustomCursor.style_left o = Some (CustomCursor.outerX c)
            /\ CustomCursor.style_top o = Some (CustomCursor.outerY c).

(** The inner marker is drawn at [(x, y)]. *)
Definition inner_drawn_at (x y : Q) (c : CustomCursor.cursor) : Prop :=
  exists m, CustomCursor.innerCursor c = Some m
            /\ CustomCursor.style_left m = Some x
            /\ CustomCursor.style_top m = Some y.

(** The listeners on the document, and those on the interactive elements. *)
Definition document_listeners
    : list (CustomCursor.target * CustomCursor.event_type * CustomCursor.callback) :=
  [(CustomCursor.Document, CustomCursor.mousemove, CustomCursor.call_onMouseMove);
   (CustomCursor.Document, CustomCursor.mouseenter, CustomCursor.call_onMouseEnter);
   (CustomCursor.Document, CustomCursor.mouseleave, CustomCursor.call_onMouseLeave)].

Definition hover_listeners (interactive : list nat)
    : list (CustomCursor.target * CustomCursor.event_type * CustomCursor.callback) :=
  flat_map (fun el => [(CustomCursor.Element el, CustomCursor.mouseenter,
                        CustomCursor.call_onElementHover);
                       (CustomCursor.Element el, CustomCursor.mouseleave,
                        CustomCursor.call_onElementLeave)]) interactive.

(** *** The mobile menu *)

(** Neither the button nor the panel carries [active]. *)
Definition menu_closed (m : MobileMenu.menu) : Prop :=
  ~ MobileMenu.is_active (MobileMenu.menuToggle m)
  /\ ~ MobileMenu.is_active (MobileMenu.navMenu m).

(** Both carry it. *)
Definition menu_open (m : MobileMenu.menu) : Prop :=
  MobileMenu.is_active (MobileMenu.menuToggle m)
  /\ MobileMenu.is_active (MobileMenu.navMenu m).

(** The document has the button and the panel. *)
Definition menu_complete (m : MobileMenu.menu) : Prop :=
  is_Some (MobileMenu.menuToggle m) /\ is_Some (MobileMenu.navMenu m).

(** The listeners [initMobileMenu] registers, in their order. *)
Definition menu_listeners (links : list nat)
    : list (MobileMenu.target * MobileMenu.callback) :=
  (MobileMenu.OnNode MobileMenu.NodeToggle, MobileMenu.call_toggle)
  :: List.map (fun i => (MobileMenu.OnNode (MobileMenu.NodeNavLink i),
                         MobileMenu.call_close_link)) links
  ++ [(MobileMenu.OnDocument, MobileMenu.call_outside)].

(** What the listeners on the element [n] do together, in a document
    whose nav links are [links]. *)
Definition node_effect (links : list nat) (n : MobileMenu.node) (m : MobileMenu.menu)
    : MobileMenu.menu :=
  match n with
  | MobileMenu.NodeToggle => MobileMenu.toggle_click m
  | MobileMenu.NodeNavLink j =>
      Nat.iter (count_occ Nat.eq_dec links j) MobileMenu.link_click m
  | MobileMenu.NodeOther => m
  end.

(** A click on the button and nothing else: it passes the button once
    and no nav link, and its target lies in the navbar. *)
Definition button_click (links : list nat) (e : MobileMenu.click) : Prop :=
  MobileMenu.in_navbar e = true
  /\ count_occ MobileMenu.node_eq_dec (MobileMenu.path e) MobileMenu.NodeToggle = 1%nat
  /\ forall i : nat, i ∈ links -> MobileMenu.NodeNavLink i ∉ MobileMenu.path e.

(** *** Reveal on scroll *)

(** The observer has reported the element [el] as intersecting. *)
Definition intersected (el : nat) (calls : list (list Reveal.entry)) : Prop :=
  Exists (fun e => Reveal.target e = el /\ Reveal.isIntersecting e = true) (concat calls).

(** *** Toasts and their timers *)

(** The toast a timer is about. *)
Definition action_id (a : Toasts.action) : nat :=
  match a with
  | Toasts.StartSlideOut id => id
  | Toasts.Remove id => id
  end.

(** Where the toast [t], number [id], stands on the screen [s]: it
    slides in or rests, and the timer of three seconds after its showing
    is pending; or it slides out, and the timer of its removal is
    pending, due no earlier than 3.3 seconds after its showing. *)
Definition toast_phase (s : Toasts.screen) (id : nat) (t : Toasts.toast) : Prop :=
  (Toasts.animation t = Toasts.slide_in_right
   /\ (Toasts.shown_at t + 3000, Toasts.StartSlideOut id) ∈ Toasts.timers s)
  \/ (Toasts.animation t = Toasts.slide_out_right
      /\ exists due : N, Toasts.shown_at t + 3300 <= due
                         /\ (due, Toasts.Remove id) ∈ Toasts.timers s).

(** The timers and the toasts of a screen fit together. *)
Record timers_sound (s : Toasts.screen) : Prop := {
  sound_slide_out :
    forall (due : N) (id : nat),
      (due, Toasts.StartSlideOut id) ∈ Toasts.timers s ->
      exists t, Toasts.toasts s !! id = Some t
                /\ Toasts.animation t = Toasts.slide_in_right
                /\ due = Toasts.shown_at t + 3000;
  sound_remove :
    forall (due : N) (id : nat),
      (due, Toasts.Remove id) ∈ Toasts.timers s ->
      exists t, Toasts.toasts s !! id = Some t
                /\ Toasts.animation t = Toasts.slide_out_right
                /\ Toasts.shown_at t + 3300 <= due;
  sound_toast :
    forall (id : nat) (t : Toasts.toast),
      Toasts.toasts s !! id = Some t ->
      exists (due : N) (a : Toasts.action),
        (due, a) ∈ Toasts.timers s /\ action_id a = id;
  sound_once : NoDup (List.map (fun d => action_id d.2) (Toasts.timers s));
  sound_ids :
    forall (due : N) (a : Toasts.action),
      (due, a) ∈ Toasts.timers s -> (action_id a < Toasts.next_id s)%nat
}.

(** *** Further sample inputs *)

(** A page without the endpoint: two cycles, one thrown, one rejected. *)
Definition sample_outcomes : list DataDashboard.fetch_outcome :=
  [DataDashboard.FetchThrows; DataDashboard.FetchRejects].

(** A menu with the button and the panel, closed. *)
Definition sample_menu : MobileMenu.menu :=
  {| MobileMenu.menuToggle := Some [lit "menu-toggle"];
     MobileMenu.navMenu := Some [lit "nav-menu"];
     MobileMenu.listeners := [] |}.

(** A document without the button. *)
Definition sample_menu_without_button : MobileMenu.menu :=
  {| MobileMenu.menuToggle := None;
     MobileMenu.navMenu := Some [lit "nav-menu"];
     MobileMenu.listeners := [] |}.

(** A click on the first nav link, one on the button, and one on the
    page outside the navbar. *)
Definition sample_link_click : MobileMenu.click :=
  {| MobileMenu.path := [MobileMenu.NodeNavLink 1; MobileMenu.NodeOther];
     MobileMenu.in_navbar := true |}.
Definition sample_button_click : MobileMenu.click :=
  {| MobileMenu.path := [MobileMenu.NodeToggle; MobileMenu.NodeOther];
     MobileMenu.in_navbar := true |}.
Definition sample_outside_click : MobileMenu.click :=
  {| MobileMenu.path := [MobileMenu.NodeOther]; MobileMenu.in_navbar := false |}.

(** A page without inline styles, nothing observed. *)
Definition sample_scene : Reveal.scene :=
  {| Reveal.styles := ∅; Reveal.observed := ∅ |}.

(** The second card comes into view. *)
Definition sample_entries : list (list Reveal.entry) :=
  [[{| Reveal.target := 1; Reveal.isIntersecting := false |};
    {| Reveal.target := 2; Reveal.isIntersecting := true |}]].

(** A toast is shown, and its first timer fires three seconds later. *)
Definition sample_toast_events : list (N * Toasts.event) :=
  [(0, Toasts.Show (lit "Danke") (lit "success")); (3000, Toasts.Fire 0)].

Definition sample_toast : Toasts.toast :=
  {| Toasts.box := ContactForm.showNotification (lit "Danke") (lit "success");
     Toasts.animation := Toasts.slide_out_right;
     Toasts.shown_at := 0 |}.

(** The contact form filled in, with a valid and with an invalid address. *)
Definition sample_form_valid : ContactForm.form_page :=
  {| ContactForm.fields :=
       [(lit "name", lit "Ada"); (lit "email", lit "ada@example.org");
        (lit "message", lit "Hallo")];
     ContactForm.defaults :=
       [(lit "name", lit ""); (lit "email", lit ""); (lit "message", lit "")];
     ContactForm.toasts := [];
     ContactForm.default_prevented := false;
     ContactForm.console := [] |}.

Definition sample_form_bad_address : ContactForm.form_page :=
  {| ContactForm.fields :=
       [(lit "name", lit "Ada"); (lit "email", lit "ada.example.org");
        (lit "message", lit "Hallo")];
     ContactForm.defaults :=
       [(lit "name", lit ""); (lit "email", lit ""); (lit "message", lit "")];
     ContactForm.toasts := [];
     ContactForm.default_prevented := false;
     ContactForm.console := [] |}.


(** * Properties *)

(** ** Rounding to binary64 *)

Section Binary64.
Local Open Scope Q_scope.

Lemma two_power_pos (k : Z) : 0 < 2 ^ k.
Proof. apply Qpower_0_lt. reflexivity. Qed.

Lemma two_power_succ (k : Z) : 2 ^ (k + 1) == 2 * 2 ^ k.
Proof. rewrite Qpower_plus by discriminate. change (2 ^ 1) with 2. ring. Qed.

Lemma two_power_inject (k : Z) : (0 <= k)%Z -> inject_Z (2 ^ k) == 2 ^ k.
Proof. intros H. now rewrite Zpower_Qpower. Qed.

(** The binade of a positive rational is unique. *)
Lemma binade_unique (a : Q) (j k : Z) :
  2 ^ j <= a < 2 ^ (j + 1) -> 2 ^ k <= a < 2 ^ (k + 1) -> j = k.
Proof.
  intros [Hj1 Hj2] [Hk1 Hk2].
  assert (H1 : (j < k + 1)%Z).
  { apply (Qpower_lt_compat_l_inv 2); [|reflexivity].
    now apply Qle_lt_trans with a. }
  assert (H2 : (k < j + 1)%Z).
  { apply (Qpower_lt_compat_l_inv 2); [|reflexivity].
    now apply Qle_lt_trans with a. }
  lia.
Qed.

Lemma log2_floor_spec (a : Q) :
  0 < a -> 2 ^ log2_floor a <= a < 2 ^ (log2_floor a + 1).
Proof.
  intros Ha. unfold log2_floor.
  destruct a as [n d]. cbn [Qnum Qden].
  assert (Hn : (0 < n)%Z) by (unfold Qlt in Ha; simpl in Ha; lia).
  set (ln := Z.log2 n). set (ld := Z.log2 (Z.pos d)).
  destruct (Z.log2_spec n Hn) as [Hn1 Hn2]. fold ln in Hn1, Hn2.
  destruct (Z.log2_spec (Z.pos d) eq_refl) as [Hd1 Hd2]. fold ld in Hd1, Hd2.
  assert (Hln : (0 <= ln)%Z) by apply Z.log2_nonneg.
  assert (Hld : (0 <= ld)%Z) by apply Z.log2_nonneg.
  assert (Ea : n # d == inject_Z n / inject_Z (Z.pos d)) by apply Qmake_Qdiv.
  assert (Hdpos : 0 < inject_Z (Z.pos d)) by reflexivity.
  pose proof (two_power_pos ln) as Pln. pose proof (two_power_pos ld) as Pld.
  rewrite Zle_Qle, two_power_inject in Hn1, Hd1 by assumption.
  rewrite Zlt_Qlt, two_power_inject in Hn2, Hd2 by lia.
  unfold Z.succ in Hn2, Hd2. rewrite two_power_succ in Hn2, Hd2.
  (* the quotient lies strictly between 2^(k-1) and 2^(k+1) *)
  assert (Hup : n # d < 2 ^ (ln - ld + 1)).
  { rewrite two_power_succ. unfold Z.sub. rewrite Qpower_plus by discriminate.
    rewrite Qpower_opp, Ea.
    apply Qlt_shift_div_r; [exact Hdpos|].
    setoid_replace (2 * (2 ^ ln * / 2 ^ ld) * inject_Z (Z.pos d))
      with ((2 * 2 ^ ln) * (inject_Z (Z.pos d) / 2 ^ ld)) using relation Qeq by (field; lra).
    assert (1 <= inject_Z (Z.pos d) / 2 ^ ld) by (apply Qle_shift_div_l; lra).
    nra. }
  assert (Hlow : 2 ^ (ln - ld - 1) <= n # d).
  { replace (ln - ld - 1)%Z with (ln + - (ld + 1))%Z by lia.
    rewrite Qpower_plus by discriminate.
    rewrite Qpower_opp, two_power_succ, Ea.
    apply Qle_shift_div_l; [exact Hdpos|].
    setoid_replace (2 ^ ln * / (2 * 2 ^ ld) * inject_Z (Z.pos d))
      with (2 ^ ln * (inject_Z (Z.pos d) / (2 * 2 ^ ld))) using relation Qeq by (field; lra).
    assert (inject_Z (Z.pos d) / (2 * 2 ^ ld) <= 1) by (apply Qle_shift_div_r; lra).
    nra. }
  destruct (Qle_bool (2 ^ (ln - ld)) (n # d)) eqn:Hb.
  - apply Qle_bool_iff in Hb. split; assumption.
  - assert (Hlt : n # d < 2 ^ (ln - ld)).
    { apply Qnot_le_lt. intros H. apply Qle_bool_iff in H. congruence. }
    replace (ln - ld - 1 + 1)%Z with (ln - ld)%Z by lia. split; assumption.
Qed.

Lemma log2_floor_unique (a : Q) (k : Z) :
  2 ^ k <= a < 2 ^ (k + 1) -> log2_floor a = k.
Proof.
  intros H. apply (binade_unique a); [|exact H].
  apply log2_floor_spec. apply Qlt_le_trans with (2 ^ k); [apply two_power_pos | apply H].
Qed.

Lemma log2_floor_monotone (a b : Q) :
  0 < a -> a <= b -> (log2_floor a <= log2_floor b)%Z.
Proof.
  intros Ha Hab.
  destruct (log2_floor_spec a Ha) as [Ha1 _].
  destruct (log2_floor_spec b) as [_ Hb2]; [now apply Qlt_le_trans with a|].
  assert (H : (log2_floor a < log2_floor b + 1)%Z).
  { apply (Qpower_lt_compat_l_inv 2); [|reflexivity].
    apply Qle_lt_trans with a; [exact Ha1|]. now apply Qle_lt_trans with b. }
  lia.
Qed.

Lemma round_half_even_bounds (q : Q) :
  (Qfloor q <= round_half_even q <= Qfloor q + 1)%Z.
Proof.
  unfold round_half_even.
  destruct (q - inject_Z (Qfloor q) ?= 1 # 2); [destruct (Z.even (Qfloor q))| |]; lia.
Qed.

Lemma round_half_even_Z (z : Z) : round_half_even (inject_Z z) = z.
Proof.
  unfold round_half_even. rewrite Qfloor_Z.
  destruct (Qcompare_spec (inject_Z z - inject_Z z) (1 # 2)) as [H|H|H];
    [exfalso|reflexivity|exfalso]; ring_simplify in H; discriminate H.
Qed.

Lemma round_half_even_monotone (x y : Q) :
  x <= y -> (round_half_even x <= round_half_even y)%Z.
Proof.
  intros Hxy.
  pose proof (Qfloor_resp_le x y Hxy) as Hf.
  pose proof (round_half_even_bounds x) as Bx.
  pose proof (round_half_even_bounds y) as By.
  destruct (Z.eq_dec (Qfloor x) (Qfloor y)) as [E|NE]; [|lia].
  unfold round_half_even in *. rewrite <- E in *.
  set (f := Qfloor x) in *.
  destruct (Qcompare_spec (x - inject_Z f) (1 # 2)) as [Cx|Cx|Cx];
    destruct (Qcompare_spec (y - inject_Z f) (1 # 2)) as [Cy|Cy|Cy];
    try (destruct (Z.even f)); try lia; exfalso; lra.
Qed.

Lemma two_power_monotone (j k : Z) : (j <= k)%Z -> 2 ^ j <= 2 ^ k.
Proof. intros H. apply Qpower_le_compat_l; [exact H | discriminate]. Qed.

Lemma two_power_shift (j k : Z) : 2 ^ (j + k) == 2 ^ j * 2 ^ k.
Proof. apply Qpower_plus. discriminate. Qed.

Lemma round_positive_nonneg (a : Q) : 0 < a -> 0 <= round_positive a.
Proof.
  intros Ha. unfold round_positive.
  pose proof (two_power_pos (ulp_exponent a)) as Hp.
  assert (H : (0 <= round_half_even (a / 2 ^ ulp_exponent a))%Z).
  { rewrite <- (round_half_even_Z 0). apply round_half_even_monotone.
    apply Qle_shift_div_l; [exact Hp|]. change (inject_Z 0) with 0. lra. }
  rewrite Zle_Qle in H. change (inject_Z 0) with 0 in H. nra.
Qed.

Lemma round_positive_monotone (x y : Q) :
  0 < x -> x <= y -> round_positive x <= round_positive y.
Proof.
  intros Hx Hxy.
  assert (Hy : 0 < y) by now apply Qlt_le_trans with x.
  pose proof (log2_floor_monotone x y Hx Hxy) as HL.
  destruct (log2_floor_spec x Hx) as [_ Hx2].
  destruct (log2_floor_spec y Hy) as [Hy1 _].
  unfold round_positive, ulp_exponent in *.
  set (Lx := log2_floor x) in *. set (Ly := log2_floor y) in *.
  set (ex := Z.max (Lx - 52) (-1074)). set (ey := Z.max (Ly - 52) (-1074)).
  pose proof (two_power_pos ex) as Pex. pose proof (two_power_pos ey) as Pey.
  destruct (Z.eq_dec ex ey) as [E|NE].
  - rewrite <- E. apply Qmult_le_compat_r; [|lra].
    rewrite <- Zle_Qle. apply round_half_even_monotone.
    apply Qle_shift_div_l; [exact Pex|].
    setoid_replace (x / 2 ^ ex * 2 ^ ex) with x using relation Qeq by (field; lra). exact Hxy.
  - assert (Hlt : (ex + 1 <= ey)%Z) by lia.
    assert (Hey : ey = (Ly - 52)%Z) by lia.
    assert (Hexl : (Lx - 52 <= ex)%Z) by lia.
    (* the mantissa of x is at most 2^53 *)
    assert (Hmx : (round_half_even (x / 2 ^ ex) <= 2 ^ 53)%Z).
    { rewrite <- (round_half_even_Z (2 ^ 53)). apply round_half_even_monotone.
      apply Qle_shift_div_r; [exact Pex|].
      apply Qlt_le_weak. apply Qlt_le_trans with (2 ^ (Lx + 1)); [exact Hx2|].
      rewrite two_power_inject, <- two_power_shift by lia.
      apply two_power_monotone. lia. }
    (* the mantissa of y is at least 2^52 *)
    assert (Hmy : (2 ^ 52 <= round_half_even (y / 2 ^ ey))%Z).
    { rewrite <- (round_half_even_Z (2 ^ 52)) at 1. apply round_half_even_monotone.
      apply Qle_shift_div_l; [exact Pey|].
      apply Qle_trans with (2 ^ Ly); [|exact Hy1].
      rewrite two_power_inject, <- two_power_shift by lia.
      apply two_power_monotone. lia. }
    rewrite Zle_Qle in Hmx, Hmy.
    rewrite two_power_inject in Hmx, Hmy by lia.
    apply Qle_trans with (2 ^ 53 * 2 ^ ex).
    { apply Qmult_le_compat_r; [exact Hmx | lra]. }
    apply Qle_trans with (2 ^ 52 * 2 ^ ey).
    { rewrite <- !two_power_shift. apply two_power_monotone. lia. }
    apply Qmult_le_compat_r; [exact Hmy | lra].
Qed.

Lemma round_half_even_proper (x y : Q) : x == y -> round_half_even x = round_half_even y.
Proof.
  intros E. apply Z.le_antisymm; apply round_half_even_monotone; rewrite E; apply Qle_refl.
Qed.

Lemma log2_floor_Z (z : Z) : (0 < z)%Z -> log2_floor (inject_Z z) = Z.log2 z.
Proof.
  intros Hz. apply log2_floor_unique.
  destruct (Z.log2_spec z Hz) as [H1 H2].
  pose proof (Z.log2_nonneg z) as Hn.
  rewrite Zle_Qle, two_power_inject in H1 by assumption.
  rewrite Zlt_Qlt, two_power_inject in H2 by lia.
  split; assumption.
Qed.

Lemma round_positive_integer (z : Z) :
  (0 < z <= 2 ^ 53)%Z -> round_positive (inject_Z z) == inject_Z z.
Proof.
  intros [Hz0 Hz]. unfold round_positive, ulp_exponent.
  rewrite (log2_floor_Z z Hz0).
  assert (HL : (Z.log2 z <= 53)%Z).
  { change 53%Z with (Z.log2 (2 ^ 53)). now apply Z.log2_le_mono. }
  set (e := Z.max (Z.log2 z - 52) (-1074)).
  destruct (Z.le_gt_cases e 0) as [He|He].
  - assert (E : inject_Z z / 2 ^ e == inject_Z (z * 2 ^ (- e))).
    { rewrite inject_Z_mult, two_power_inject by lia.
      rewrite Qpower_opp. reflexivity. }
    rewrite (round_half_even_proper _ _ E), round_half_even_Z.
    rewrite inject_Z_mult, two_power_inject by lia.
    rewrite Qpower_opp. field.
    pose proof (two_power_pos e). lra.
  - assert (Ez : z = (2 ^ 53)%Z).
    { destruct (Z.log2_spec z Hz0) as [H1 _].
      assert (Z.log2 z = 53%Z) by lia.
      replace (Z.log2 z) with 53%Z in H1 by lia. lia. }
    subst z. vm_compute. reflexivity.
Qed.

Lemma binary64_monotone (x y : Q) : x <= y -> binary64 x <= binary64 y.
Proof.
  intros Hxy. unfold binary64.
  destruct (Qcompare_spec x 0) as [Ex|Lx|Gx];
    destruct (Qcompare_spec y 0) as [Ey|Ly|Gy]; try (exfalso; lra).
  - apply Qle_refl.
  - apply round_positive_nonneg. exact Gy.
  - pose proof (round_positive_nonneg (- x)). lra.
  - apply Qopp_le_compat. apply round_positive_monotone; lra.
  - pose proof (round_positive_nonneg (- x)).
    pose proof (round_positive_nonneg y). lra.
  - now apply round_positive_monotone.
Qed.

Lemma binary64_integer (z : Z) :
  (Z.abs z <= 2 ^ 53)%Z -> binary64 (inject_Z z) == inject_Z z.
Proof.
  intros Hz. unfold binary64.
  destruct (Qcompare_spec (inject_Z z) 0) as [E|L|G].
  - now symmetry.
  - change 0 with (inject_Z 0) in L. rewrite <- Zlt_Qlt in L.
    rewrite <- inject_Z_opp, round_positive_integer by lia.
    rewrite inject_Z_opp. ring.
  - change 0 with (inject_Z 0) in G. rewrite <- Zlt_Qlt in G.
    apply round_positive_integer. lia.
Qed.

(** Rounding to the nearest double is a rounding in the sense of the
    properties below. *)
Lemma binary64_rounding : rounding binary64.
Proof. split; [exact binary64_monotone | exact binary64_integer]. Qed.

Lemma binary64_opp (x : Q) : binary64 (- x) == - binary64 x.
Proof.
  unfold binary64.
  destruct (Qcompare_spec x 0) as [E|L|G];
    destruct (Qcompare_spec (- x) 0) as [E'|L'|G']; try (exfalso; lra).
  - reflexivity.
  - ring.
  - assert (H : round_positive (- - x) == round_positive x).
    { apply Qle_antisym; apply round_positive_monotone; lra. }
    rewrite H. reflexivity.
Qed.

(** *** The error of the rounding, and the grid of the doubles *)

Lemma round_half_even_upper (q : Q) : inject_Z (round_half_even q) <= q + (1 # 2).
Proof.
  unfold round_half_even.
  pose proof (Qfloor_le q) as Hf.
  destruct (Qcompare_spec (q - inject_Z (Qfloor q)) (1 # 2)) as [C|C|C];
    [destruct (Z.even (Qfloor q))| |];
    rewrite ?inject_Z_plus; change (inject_Z 1) with 1; lra.
Qed.

Lemma round_positive_upper (x : Q) :
  0 < x -> round_positive x <= x + x * (1 # 4) + 2 ^ (-1075).
Proof.
  intros Hx. unfold round_positive.
  destruct (log2_floor_spec x Hx) as [HL _].
  set (e := ulp_exponent x).
  pose proof (two_power_pos e) as Pe.
  pose proof (round_half_even_upper (x / 2 ^ e)) as Hm.
  assert (H1 : inject_Z (round_half_even (x / 2 ^ e)) * 2 ^ e <= x + 2 ^ e * (1 # 2)).
  { apply Qle_trans with ((x / 2 ^ e + (1 # 2)) * 2 ^ e).
    - apply Qmult_le_compat_r; [exact Hm | now apply Qlt_le_weak].
    - apply Qle_lteq. right. field. intros E. rewrite E in Pe. discriminate Pe. }
  assert (H2 : 2 ^ e * (1 # 2) <= x * (1 # 4) + 2 ^ (-1075)).
  { unfold e, ulp_exponent.
    destruct (Z.max_spec (log2_floor x - 52) (-1074)) as [[_ ->]|[_ ->]].
    - assert (E : 2 ^ (-1074) == 2 * 2 ^ (-1075)) by (vm_compute; reflexivity).
      rewrite E. pose proof (two_power_pos (-1075)) as Pg.
      remember (2 ^ (-1075)) as g. clear - Hx Pg. lra.
    - assert (E : 2 ^ (log2_floor x - 52) == 2 ^ log2_floor x * 2 ^ (-52))
        by (unfold Z.sub; apply two_power_shift).
      rewrite E. pose proof (two_power_pos (-1075)) as Pg.
      remember (2 ^ (-1075)) as g. remember (2 ^ log2_floor x) as l.
      change (2 ^ (-52)) with (1 # 4503599627370496). clear - Hx Pg HL. lra. }
  remember (2 ^ e) as u. remember (2 ^ (-1075)) as g.
  remember (inject_Z (round_half_even (x / u))) as m.
  clear - H1 H2. lra.
Qed.

Lemma round_positive_grid (x : Q) :
  exists k : Z, round_positive x == inject_Z k * 2 ^ (-1074).
Proof.
  unfold round_positive. set (e := ulp_exponent x).
  assert (He : (-1074 <= e)%Z) by (unfold e, ulp_exponent; lia).
  exists (round_half_even (x / 2 ^ e) * 2 ^ (e + 1074))%Z.
  rewrite inject_Z_mult, two_power_inject by lia.
  rewrite <- Qmult_assoc, <- two_power_shift.
  replace (e + 1074 + -1074)%Z with e by lia. reflexivity.
Qed.

Lemma double_grid (x : Q) :
  is_double x -> exists k : Z, x == inject_Z k * 2 ^ (-1074).
Proof.
  unfold is_double, binary64. intros H.
  destruct (Qcompare_spec x 0) as [E|L|G].
  - exists 0%Z. rewrite E. change (inject_Z 0) with 0. ring.
  - destruct (round_positive_grid (- x)) as [k Hk]. exists (- k)%Z.
    rewrite <- H, Hk, inject_Z_opp. ring.
  - destruct (round_positive_grid x) as [k Hk]. exists k. now rewrite <- H.
Qed.

Lemma double_gap (a b : Q) :
  is_double a -> is_double b -> a < b -> 2 ^ (-1074) <= b - a.
Proof.
  intros Ha Hb Hab.
  destruct (double_grid a Ha) as [ka Ea]. destruct (double_grid b Hb) as [kb Eb].
  pose proof (two_power_pos (-1074)) as Pg.
  assert (Hk : (ka + 1 <= kb)%Z).
  { apply Z.lt_succ_r, Z.succ_lt_mono. rewrite Zlt_Qlt.
    rewrite Ea, Eb in Hab. unfold Z.succ. rewrite !inject_Z_plus.
    change (inject_Z 1) with 1. nra. }
  rewrite Zle_Qle, inject_Z_plus in Hk. change (inject_Z 1) with 1 in Hk.
  rewrite Ea, Eb. nra.
Qed.

Lemma binary64_proper (x y : Q) : x == y -> binary64 x == binary64 y.
Proof.
  intros E. apply Qle_antisym; apply binary64_monotone; rewrite E; apply Qle_refl.
Qed.

Lemma binary64_zero : binary64 0 == 0.
Proof. reflexivity. Qed.

Lemma binary64_nonneg (x : Q) : 0 <= x -> 0 <= binary64 x.
Proof. intros H. rewrite <- binary64_zero. now apply binary64_monotone. Qed.

Lemma binary64_upper (x : Q) :
  0 <= x -> binary64 x <= x + x * (1 # 4) + 2 ^ (-1075).
Proof.
  intros Hx. pose proof (two_power_pos (-1075)) as Pg.
  unfold binary64. destruct (Qcompare_spec x 0) as [E|L|G].
  - remember (2 ^ (-1075)) as g. clear - Hx Pg. lra.
  - exfalso. lra.
  - now apply round_positive_upper.
Qed.

(** The ease amount of the source as a double: between 0 and an eighth. *)
Lemma ease_amount_bounds : 0 <= binary64 (12 # 100) <= 1 # 8.
Proof. split; vm_compute; discriminate. Qed.

(** The follower moves towards the pointer and not beyond it. *)
Lemma ease_between_up (inner outer : Q) :
  is_double inner -> is_double outer -> outer <= inner ->
  outer <= CustomCursor.ease binary64 inner outer (binary64 (12 # 100)) <= inner.
Proof.
  intros Hi Ho Hle. unfold CustomCursor.ease, js_add, js_mul, js_sub.
  destruct ease_amount_bounds as [He0 He1].
  set (e := binary64 (12 # 100)) in *.
  set (d := binary64 (inner - outer)).
  set (t := binary64 (d * e)).
  assert (Hd0 : 0 <= d) by (apply binary64_nonneg; lra).
  assert (Ht0 : 0 <= t) by (apply binary64_nonneg; nra).
  assert (Ht : t <= inner - outer).
  { destruct (Qlt_le_dec outer inner) as [Hlt|Hge].
    - pose proof (double_gap outer inner Ho Hi Hlt) as Hgap.
      assert (Eg : 2 ^ (-1074) == 2 * 2 ^ (-1075)) by (vm_compute; reflexivity).
      rewrite Eg in Hgap.
      pose proof (binary64_upper (inner - outer) ltac:(lra)) as Hd. fold d in Hd.
      pose proof (binary64_upper (d * e) ltac:(nra)) as Hy. fold t in Hy.
      remember (2 ^ (-1075)) as g. clear - Hgap Hd Hy Hd0 Ht0 He0 He1 Hlt. nra.
    - assert (E : inner - outer == 0) by lra.
      assert (Ed : d == 0).
      { unfold d. rewrite (binary64_proper _ _ E). apply binary64_zero. }
      assert (Et : t == 0).
      { unfold t. rewrite (binary64_proper (d * e) 0); [apply binary64_zero|].
        rewrite Ed. ring. }
      lra. }
  unfold is_double in Hi, Ho. split.
  - apply Qle_trans with (binary64 outer); [rewrite Ho; apply Qle_refl|].
    apply binary64_monotone. lra.
  - apply Qle_trans with (binary64 inner); [|rewrite Hi; apply Qle_refl].
    apply binary64_monotone. lra.
Qed.

Lemma is_double_opp (x : Q) : is_double x -> is_double (- x).
Proof. unfold is_double. intros H. now rewrite binary64_opp, H. Qed.

Lemma ease_opp (inner outer amount : Q) :
  CustomCursor.ease binary64 (- inner) (- outer) amount == - CustomCursor.ease binary64 inner outer amount.
Proof.
  unfold CustomCursor.ease, js_add, js_mul, js_sub.
  assert (E1 : binary64 (- inner - - outer) == - binary64 (inner - outer)).
  { rewrite <- binary64_opp. apply binary64_proper. ring. }
  assert (E2 : binary64 (binary64 (- inner - - outer) * amount)
               == - binary64 (binary64 (inner - outer) * amount)).
  { rewrite <- binary64_opp. apply binary64_proper. rewrite E1. ring. }
  rewrite <- binary64_opp. apply binary64_proper. rewrite E2. ring.
Qed.

Lemma ease_between_down (inner outer : Q) :
  is_double inner -> is_double outer -> inner <= outer ->
  inner <= CustomCursor.ease binary64 inner outer (binary64 (12 # 100)) <= outer.
Proof.
  intros Hi Ho Hle.
  destruct (ease_between_up (- inner) (- outer)) as [H1 H2];
    [now apply is_double_opp | now apply is_double_opp | lra |].
  rewrite ease_opp in H1, H2. lra.
Qed.

(** *** The result of the rounding is a double *)

Lemma round_positive_canonical (m e : Z) :
  (0 < m <= 2 ^ 53)%Z -> (-1074 <= e)%Z -> (2 ^ 52 <= m \/ e = -1074)%Z ->
  round_positive (inject_Z m * 2 ^ e) == inject_Z m * 2 ^ e.
Proof.
  intros [Hm0 Hm] He Hc.
  pose proof (two_power_pos e) as Pe.
  destruct (Z.eq_dec m (2 ^ 53)%Z) as [->|Hne].
  - (* the mantissa was rounded up to the next binade *)
    assert (Er : inject_Z (2 ^ 53) * 2 ^ e == 2 ^ (53 + e)).
    { rewrite two_power_inject, <- two_power_shift by lia. reflexivity. }
    assert (HL : log2_floor (inject_Z (2 ^ 53) * 2 ^ e) = (53 + e)%Z).
    { apply log2_floor_unique. rewrite Er. split; [apply Qle_refl|].
      apply Qpower_lt_compat_l; [lia | reflexivity]. }
    unfold round_positive, ulp_exponent. rewrite HL.
    replace (Z.max (53 + e - 52) (-1074)) with (e + 1)%Z by lia.
    assert (Eq : inject_Z (2 ^ 53) * 2 ^ e / 2 ^ (e + 1) == inject_Z (2 ^ 52)).
    { rewrite two_power_succ. change (inject_Z (2 ^ 53)) with (2 * inject_Z (2 ^ 52)).
      field. intros E. rewrite E in Pe. discriminate Pe. }
    rewrite (round_half_even_proper _ _ Eq), round_half_even_Z.
    rewrite two_power_succ. change (inject_Z (2 ^ 53)) with (2 * inject_Z (2 ^ 52)). ring.
  - assert (Hlt : (m < 2 ^ 53)%Z) by lia.
    destruct (Z.log2_spec m Hm0) as [Hl1 Hl2].
    pose proof (Z.log2_nonneg m) as Hl0.
    assert (Hl : (Z.log2 m <= 52)%Z).
    { apply Z.lt_succ_r. apply (Z.pow_lt_mono_r_iff 2); lia. }
    assert (HL : log2_floor (inject_Z m * 2 ^ e) = (Z.log2 m + e)%Z).
    { apply log2_floor_unique.
      rewrite Zle_Qle, two_power_inject in Hl1 by lia.
      rewrite Zlt_Qlt, two_power_inject in Hl2 by lia.
      replace (Z.log2 m + e + 1)%Z with (Z.succ (Z.log2 m) + e)%Z by lia.
      rewrite !two_power_shift. split.
      - apply Qmult_le_compat_r; [exact Hl1 | now apply Qlt_le_weak].
      - apply Qmult_lt_compat_r; [exact Pe | exact Hl2]. }
    assert (Hue : ulp_exponent (inject_Z m * 2 ^ e) = e).
    { unfold ulp_exponent. rewrite HL.
      destruct Hc as [Hc|Hc].
      - assert (52 <= Z.log2 m)%Z.
        { change 52%Z with (Z.log2 (2 ^ 52)). now apply Z.log2_le_mono. }
        lia.
      - lia. }
    unfold round_positive. rewrite Hue.
    assert (Eq : inject_Z m * 2 ^ e / 2 ^ e == inject_Z m).
    { field. intros E. rewrite E in Pe. discriminate Pe. }
    rewrite (round_half_even_proper _ _ Eq), round_half_even_Z. reflexivity.
Qed.

Lemma round_positive_shape (x : Q) :
  0 < x ->
  let m := round_half_even (x / 2 ^ ulp_exponent x) in
  (0 <= m <= 2 ^ 53)%Z /\ (2 ^ 52 <= m \/ ulp_exponent x = -1074)%Z.
Proof.
  intros Hx m. subst m.
  destruct (log2_floor_spec x Hx) as [HL1 HL2].
  set (e := ulp_exponent x).
  assert (He : (log2_floor x - 52 <= e /\ -1074 <= e)%Z) by (unfold e, ulp_exponent; lia).
  pose proof (two_power_pos e) as Pe.
  split; [split|].
  - rewrite <- (round_half_even_Z 0). apply round_half_even_monotone.
    apply Qle_shift_div_l; [exact Pe|]. change (inject_Z 0) with 0. lra.
  - rewrite <- (round_half_even_Z (2 ^ 53)). apply round_half_even_monotone.
    apply Qle_shift_div_r; [exact Pe|].
    apply Qlt_le_weak. apply Qlt_le_trans with (2 ^ (log2_floor x + 1)); [exact HL2|].
    rewrite two_power_inject, <- two_power_shift by lia.
    apply two_power_monotone. lia.
  - destruct (Z.eq_dec e (-1074)%Z) as [E|NE]; [now right | left].
    assert (Ee : e = (log2_floor x - 52)%Z) by (unfold e, ulp_exponent in *; lia).
    rewrite <- (round_half_even_Z (2 ^ 52)) at 1. apply round_half_even_monotone.
    apply Qle_shift_div_l; [exact Pe|].
    apply Qle_trans with (2 ^ log2_floor x); [|exact HL1].
    rewrite two_power_inject, <- two_power_shift by lia.
    apply two_power_monotone. lia.
Qed.

Lemma round_positive_is_double (x : Q) : 0 < x -> is_double (round_positive x).
Proof.
  intros Hx. unfold is_double.
  destruct (round_positive_shape x Hx) as [[Hm0 Hm1] Hc]. cbv zeta in *.
  assert (He : (-1074 <= ulp_exponent x)%Z) by (unfold ulp_exponent; lia).
  unfold round_positive.
  set (m := round_half_even (x / 2 ^ ulp_exponent x)) in *.
  set (e := ulp_exponent x) in *.
  pose proof (two_power_pos e) as Pe.
  destruct (Z.eq_dec m 0%Z) as [E|NE].
  - rewrite E. change (inject_Z 0) with 0.
    rewrite (binary64_proper (0 * 2 ^ e) 0) by ring.
    rewrite binary64_zero. ring.
  - assert (Hpos : 0 < inject_Z m * 2 ^ e).
    { apply Qmult_lt_0_compat; [|exact Pe].
      change 0 with (inject_Z 0). rewrite <- Zlt_Qlt. lia. }
    unfold binary64.
    destruct (Qcompare_spec (inject_Z m * 2 ^ e) 0) as [C|C|C];
      [rewrite C in Hpos; discriminate Hpos
      |exfalso; apply (Qlt_irrefl 0); now apply Qlt_trans with (inject_Z m * 2 ^ e)|].
    apply round_positive_canonical; [lia | exact He | exact Hc].
Qed.

Lemma binary64_cases (x : Q) :
  (x == 0 /\ binary64 x = 0)
  \/ (x < 0 /\ binary64 x = - round_positive (- x))
  \/ (0 < x /\ binary64 x = round_positive x).
Proof.
  unfold binary64. destruct (Qcompare_spec x 0) as [E|L|G]; auto.
Qed.

Lemma binary64_is_double (x : Q) : is_double (binary64 x).
Proof.
  destruct (binary64_cases x) as [[_ ->]|[[L ->]|[G ->]]].
  - reflexivity.
  - apply is_double_opp, round_positive_is_double. lra.
  - now apply round_positive_is_double.
Qed.

(** *** The error of a frame of the follower, and its range *)

Lemma round_half_even_lower (q : Q) : q - (1 # 2) <= inject_Z (round_half_even q).
Proof.
  unfold round_half_even.
  pose proof (Qlt_floor q) as Hf.
  rewrite inject_Z_plus in Hf. change (inject_Z 1) with 1 in Hf.
  destruct (Qcompare_spec (q - inject_Z (Qfloor q)) (1 # 2)) as [E|L|G].
  - destruct (Z.even (Qfloor q)); [|rewrite inject_Z_plus; change (inject_Z 1) with 1]; lra.
  - lra.
  - rewrite inject_Z_plus. change (inject_Z 1) with 1. lra.
Qed.

(** The error of the rounding: half a unit in the last place, which is
    2^-53 of the value at most, or 2^-1075 among the subnormal numbers. *)
Lemma round_positive_error (x : Q) :
  0 < x ->
  - (x * (1 # 9007199254740992) + 2 ^ (-1075)) <= round_positive x - x
  <= x * (1 # 9007199254740992) + 2 ^ (-1075).
Proof.
  intros Hx. unfold round_positive.
  destruct (log2_floor_spec x Hx) as [HL _].
  set (e := ulp_exponent x).
  pose proof (two_power_pos e) as Pe.
  pose proof (round_half_even_upper (x / 2 ^ e)) as Hup.
  pose proof (round_half_even_lower (x / 2 ^ e)) as Hlo.
  assert (Hne : ~ 2 ^ e == 0) by (intros E; rewrite E in Pe; discriminate Pe).
  assert (H1 : inject_Z (round_half_even (x / 2 ^ e)) * 2 ^ e <= x + 2 ^ e * (1 # 2)).
  { apply Qle_trans with ((x / 2 ^ e + (1 # 2)) * 2 ^ e).
    - apply Qmult_le_compat_r; [exact Hup | now apply Qlt_le_weak].
    - apply Qle_lteq. right. field. exact Hne. }
  assert (H1' : x - 2 ^ e * (1 # 2) <= inject_Z (round_half_even (x / 2 ^ e)) * 2 ^ e).
  { apply Qle_trans with ((x / 2 ^ e - (1 # 2)) * 2 ^ e).
    - apply Qle_lteq. right. field. exact Hne.
    - apply Qmult_le_compat_r; [exact Hlo | now apply Qlt_le_weak]. }
  assert (H2 : 2 ^ e * (1 # 2) <= x * (1 # 9007199254740992) + 2 ^ (-1075)).
  { unfold e, ulp_exponent.
    destruct (Z.max_spec (log2_floor x - 52) (-1074)) as [[_ ->]|[_ ->]].
    - assert (E : 2 ^ (-1074) == 2 * 2 ^ (-1075)) by (vm_compute; reflexivity).
      rewrite E. pose proof (two_power_pos (-1075)) as Pg.
      remember (2 ^ (-1075)) as g. clear - Hx Pg. lra.
    - assert (E : 2 ^ (log2_floor x - 52) == 2 ^ log2_floor x * 2 ^ (-52))
        by (unfold Z.sub; apply two_power_shift).
      rewrite E. pose proof (two_power_pos (-1075)) as Pg.
      remember (2 ^ (-1075)) as g. remember (2 ^ log2_floor x) as l.
      change (2 ^ (-52)) with (1 # 4503599627370496). clear - Hx Pg HL. lra. }
  remember (2 ^ e) as u. remember (2 ^ (-1075)) as g.
  remember (inject_Z (round_half_even (x / u))) as m.
  clear - H1 H1' H2. lra.
Qed.

Lemma binary64_error (x X : Q) :
  - X <= x <= X ->
  - (X * (1 # 9007199254740992) + 2 ^ (-1075)) <= binary64 x - x
  <= X * (1 # 9007199254740992) + 2 ^ (-1075).
Proof.
  intros [H1 H2]. pose proof (two_power_pos (-1075)) as Pg.
  destruct (binary64_cases x) as [[E ->]|[[L ->]|[G ->]]].
  - remember (2 ^ (-1075)) as g. clear - H1 H2 E Pg. lra.
  - pose proof (round_positive_error (- x) ltac:(lra)) as He.
    remember (2 ^ (-1075)) as g. remember (round_positive (- x)) as r.
    clear - H1 H2 L Pg He. lra.
  - pose proof (round_positive_error x G) as He.
    remember (2 ^ (-1075)) as g. remember (round_positive x) as r.
    clear - H1 H2 G Pg He. lra.
Qed.

(** The rounding does not leave an interval between a double and its
    opposite. *)
Lemma binary64_bounded (x B : Q) :
  is_double B -> - B <= x <= B -> - B <= binary64 x <= B.
Proof.
  intros HB [H1 H2]. unfold is_double in HB. split.
  - apply Qle_trans with (binary64 (- B)); [|now apply binary64_monotone].
    rewrite binary64_opp, HB. apply Qle_refl.
  - apply Qle_trans with (binary64 B); [now apply binary64_monotone|].
    rewrite HB. apply Qle_refl.
Qed.


Lemma ease_amount_value : binary64 (12 # 100) == 1080863910568919 # 9007199254740992.
Proof. vm_compute. reflexivity. Qed.

(** A frame takes a coordinate of the follower 0.12 of the way to the
    pointer, up to the rounding of its three operations: with both
    within [M] of zero, the error is at most 2^-52 of [M], or three times
    2^-1075. *)
Lemma ease_error (inner outer M : Q) :
  - M <= inner <= M -> - M <= outer <= M ->
  let outer' := CustomCursor.ease binary64 inner outer (binary64 (12 # 100)) in
  - (M * (1 # 4503599627370496) + 3 * 2 ^ (-1075))
  <= (inner - outer') - (88 # 100) * (inner - outer)
  <= M * (1 # 4503599627370496) + 3 * 2 ^ (-1075).
Proof.
  intros Hi Ho outer'. subst outer'.
  unfold CustomCursor.ease, js_add, js_mul, js_sub.
  pose proof (two_power_pos (-1075)) as Pg.
  pose proof ease_amount_value as Ea.
  set (a := binary64 (12 # 100)) in *.
  set (s := binary64 (inner - outer)).
  set (m := binary64 (s * a)).
  set (o := binary64 (outer + m)).
  pose proof (binary64_error (inner - outer) (2 * M) ltac:(lra)) as H1. fold s in H1.
  remember (2 ^ (-1075)) as g.
  set (S1 := 2 * M + (2 * M * (1 # 9007199254740992) + g)).
  assert (Hs : - S1 <= s <= S1) by (unfold S1; lra).
  set (X2 := S1 * (1080863910568919 # 9007199254740992)).
  assert (Hsa : - X2 <= s * a <= X2).
  { rewrite Ea. unfold X2. clear - Hs. lra. }
  pose proof (binary64_error (s * a) X2 Hsa) as H2. fold m in H2.
  rewrite <- Heqg in H2. rewrite Ea in H2, Hsa.
  set (X3 := M + X2 + (X2 * (1 # 9007199254740992) + g)).
  assert (Hom : - X3 <= outer + m <= X3) by (unfold X3; lra).
  pose proof (binary64_error (outer + m) X3 Hom) as H3. fold o in H3.
  rewrite <- Heqg in H3.
  unfold X3, X2, S1 in *.
  clear - Hi Ho Pg H1 H2 H3. lra.
Qed.

(** None of the three operations of a frame leaves the range of the
    finite doubles when the pointer and the follower are doubles up to
    2^1022. *)
Lemma ease_in_range (inner outer M : Q) :
  is_double inner -> is_double outer ->
  - M <= inner <= M -> - M <= outer <= M -> M <= 2 ^ 1022 ->
  ease_finite inner outer (binary64 (12 # 100)).
Proof.
  intros Di Do Hi Ho HM. unfold ease_finite, finite_range, js_mul, js_sub.
  assert (HT : is_double (2 ^ 1023)) by (vm_compute; reflexivity).
  assert (E2 : 2 ^ 1023 == 2 * 2 ^ 1022) by (vm_compute; reflexivity).
  assert (Hmax : 2 ^ 1023 <= max_double) by (vm_compute; discriminate).
  pose proof ease_amount_value as Ea.
  pose proof (two_power_pos 1022) as P2.
  set (a := binary64 (12 # 100)) in *.
  set (s := binary64 (inner - outer)).
  assert (Hs : - 2 ^ 1023 <= s <= 2 ^ 1023).
  { apply binary64_bounded; [exact HT|]. rewrite E2.
    remember (2 ^ 1022) as T. clear - Hi Ho HM. lra. }
  set (m := binary64 (s * a)).
  assert (Hm : - 2 ^ 1023 <= m <= 2 ^ 1023).
  { apply binary64_bounded; [exact HT|]. rewrite Ea.
    remember (2 ^ 1023) as T. clear - Hs. lra. }
  assert (Hb : - M <= CustomCursor.ease binary64 inner outer a <= M).
  { destruct (Qlt_le_dec inner outer) as [Hlt|Hle].
    - pose proof (ease_between_down inner outer Di Do (Qlt_le_weak _ _ Hlt)) as Hd.
      fold a in Hd. clear - Hd Hi Ho. lra.
    - pose proof (ease_between_up inner outer Di Do Hle) as Hu.
      fold a in Hu. clear - Hu Hi Ho. lra. }
  remember (2 ^ 1023) as T. remember (2 ^ 1022) as T2.
  remember (CustomCursor.ease binary64 inner outer a) as o.
  clear - Hs Hm Hb Hmax HM E2 P2. repeat split; lra.
Qed.

(** [binary64] against the kernel's doubles: the literal [0.12], a third,
    the sum of a tenth and a fifth, a tie at 2^53 + 1, the smallest
    subnormal, and the first step of the follower from 0 towards 100. *)
Example binary64_agrees_with_kernel_floats :
  forallb (fun fq : float * Q => same_value (fst fq) (snd fq))
    [ ((12 / 100)%float, binary64 (12 # 100));
      ((1 / 3)%float, binary64 (1 # 3));
      ((1 / 10 + 2 / 10)%float, binary64 (binary64 (1 # 10) + binary64 (2 # 10)));
      ((9007199254740992 + 1)%float, binary64 (9007199254740992 + 1));
      ((9007199254740994 + 1)%float, binary64 (9007199254740994 + 1));
      (PrimFloat.next_up 0, binary64 (3 * 2 ^ (-1076)));
      ((0 + (100 - 0) * (12 / 100))%float,
       CustomCursor.ease binary64 100 0 (num_lit binary64 (12 # 100)));
      ((20 + (1 / 3) * 10)%float,
       js_add binary64 (num_lit binary64 20) (js_mul binary64 (binary64 (1 # 3)) (num_lit binary64 10))) ]
  = true.
Proof. vm_compute. reflexivity. Qed.

End Binary64.

(** ** The matcher decides the language of a regular expression *)

Ltac invert_clear H := inversion H; subst; clear H.

Lemma nullable_matches (r : Regex.regex) :
  Regex.nullable r = true <-> Regex.matches r [].
Proof.
  induction r; simpl.
  - split; [discriminate | intros H; invert_clear H].
  - split; [constructor | reflexivity].
  - split; [discriminate | intros H; invert_clear H].
  - rewrite andb_true_iff, IHr1, IHr2. split.
    + intros [H1 H2]. change (@nil N) with (@nil N ++ []). now constructor.
    + intros H. invert_clear H.
      match goal with E : _ ++ _ = [] |- _ => apply app_eq_nil in E as [-> ->] end.
      now split.
  - rewrite orb_true_iff, IHr1, IHr2. split.
    + intros [H|H]; [now apply Regex.m_alt_l | now apply Regex.m_alt_r].
    + intros H. invert_clear H; auto.
  - split; [constructor | reflexivity].
Qed.

Lemma matches_cons_seq (c : N) (r1 r2 : Regex.regex) (s1 s2 : list N) :
  Regex.matches r1 (c :: s1) -> Regex.matches r2 s2 ->
  Regex.matches (Regex.RSeq r1 r2) (c :: s1 ++ s2).
Proof.
  intros H1 H2. change (c :: s1 ++ s2) with ((c :: s1) ++ s2). now constructor.
Qed.

Lemma deriv_sound (c : N) (r : Regex.regex) : forall s,
  Regex.matches (Regex.deriv c r) s -> Regex.matches r (c :: s).
Proof.
  induction r; simpl; intros s H.
  - invert_clear H.
  - invert_clear H.
  - destruct (p c) eqn:Hp; invert_clear H. now constructor.
  - destruct (Regex.nullable r1) eqn:Hn.
    + invert_clear H.
      * match goal with M : Regex.matches (Regex.RSeq _ _) _ |- _ => invert_clear M end.
        apply matches_cons_seq; auto.
      * change (c :: s) with ([] ++ c :: s). constructor; auto.
        now apply nullable_matches.
    + invert_clear H. apply matches_cons_seq; auto.
  - invert_clear H; [apply Regex.m_alt_l | apply Regex.m_alt_r]; auto.
  - invert_clear H.
    match goal with |- Regex.matches _ (c :: ?a ++ ?b) =>
      apply (Regex.m_star_cons r (c :: a) b) end; auto.
Qed.

Lemma deriv_complete (c : N) (r : Regex.regex) (s0 : list N) :
  Regex.matches r s0 -> forall s, s0 = c :: s -> Regex.matches (Regex.deriv c r) s.
Proof.
  induction 1 as [|p d Hp|r1 r2 s1 s2 H1 IH1 H2 IH2|r1 r2 s1 H1 IH1
                 |r1 r2 s1 H1 IH1|r1|r1 s1 s2 H1 IH1 H2 IH2];
    intros s Heq; simpl.
  - discriminate.
  - injection Heq as ? ?; subst. rewrite Hp. constructor.
  - destruct s1 as [|d s1'].
    + simpl in Heq. subst s2.
      apply nullable_matches in H1. rewrite H1.
      apply Regex.m_alt_r. now apply IH2.
    + injection Heq as ? ?; subst.
      assert (Hd : Regex.matches (Regex.RSeq (Regex.deriv c r1) r2) (s1' ++ s2))
        by (constructor; auto).
      destruct (Regex.nullable r1); [now apply Regex.m_alt_l | exact Hd].
  - apply Regex.m_alt_l. now apply IH1.
  - apply Regex.m_alt_r. now apply IH1.
  - discriminate.
  - destruct s1 as [|d s1'].
    + simpl in Heq. now apply IH2.
    + injection Heq as ? ?; subst. constructor; auto.
Qed.

Lemma test_matches (r : Regex.regex) (s : list N) :
  Regex.test r s = true <-> Regex.matches r s.
Proof.
  revert r. induction s as [|c s IH]; intros r; simpl.
  - apply nullable_matches.
  - rewrite IH. split.
    + apply deriv_sound.
    + intros H. now apply (deriv_complete c r (c :: s)).
Qed.

Lemma star_class_matches (p : N -> bool) (s : list N) :
  Regex.matches (Regex.RStar (Regex.RClass p)) s <-> Forall (fun c => p c = true) s.
Proof.
  split.
  - intros H. remember (Regex.RStar (Regex.RClass p)) as r eqn:Hr.
    induction H; try discriminate.
    + constructor.
    + injection Hr as ->. invert_clear H. simpl. constructor; auto.
  - induction 1 as [|c s Hc Hs IH].
    + constructor.
    + change (c :: s) with ([c] ++ s). constructor; [now constructor | exact IH].
Qed.

Lemma plus_class_matches (p : N -> bool) (s : list N) :
  Regex.matches (Regex.RPlus (Regex.RClass p)) s
  <-> s <> [] /\ Forall (fun c => p c = true) s.
Proof.
  unfold Regex.RPlus. split.
  - intros H. invert_clear H.
    match goal with M : Regex.matches (Regex.RClass _) _ |- _ => invert_clear M end.
    match goal with M : Regex.matches (Regex.RStar _) _ |- _ =>
      apply star_class_matches in M end.
    simpl. split; [discriminate | constructor; auto].
  - intros [Hne Hall]. destruct s as [|c s]; [congruence|].
    invert_clear Hall. change (c :: s) with ([c] ++ s).
    constructor; [now constructor | now apply star_class_matches].
Qed.

Lemma char_matches (c : N) (s : list N) :
  Regex.matches (Regex.RChar c) s <-> s = [c].
Proof.
  unfold Regex.RChar. split.
  - intros H. invert_clear H.
    match goal with E : (_ =? _) = true |- _ => apply N.eqb_eq in E; now subst end.
  - intros ->. constructor. apply N.eqb_refl.
Qed.

(** The strings of the pattern: local part, ['@'], domain, ['.'], rest,
    the three parts non-empty and free of white space and ['@']. *)
Lemma email_regex_matches (s : list N) :
  Regex.matches email_regex s <->
  exists l d t,
    s = l ++ ch_at :: d ++ ch_dot :: t
    /\ (l <> [] /\ Forall (fun c => email_class c = true) l)
    /\ (d <> [] /\ Forall (fun c => email_class c = true) d)
    /\ (t <> [] /\ Forall (fun c => email_class c = true) t).
Proof.
  unfold email_regex. split.
  - intros H. invert_clear H.
    repeat match goal with
           | M : Regex.matches (Regex.RSeq _ (Regex.RSeq _ _)) _ |- _ => invert_clear M
           | M : Regex.matches (Regex.RSeq (Regex.RChar _) _) _ |- _ => invert_clear M
           | M : Regex.matches (Regex.RChar _) _ |- _ => apply char_matches in M; subst
           | M : Regex.matches (Regex.RPlus _) _ |- _ => apply plus_class_matches in M
           end.
    eexists _, _, _. split; [reflexivity | auto].
  - intros (l & d & t & -> & Hl & Hd & Ht).
    constructor; [now apply plus_class_matches|].
    change (ch_at :: d ++ ch_dot :: t) with ([ch_at] ++ d ++ [ch_dot] ++ t).
    constructor; [now apply char_matches|].
    constructor; [now apply plus_class_matches|].
    constructor; [now apply char_matches | now apply plus_class_matches].
Qed.

Lemma email_class_spec (c : N) :
  email_class c = true <-> is_js_space c = false /\ c <> ch_at.
Proof.
  unfold email_class. rewrite negb_true_iff, orb_false_iff, N.eqb_neq. tauto.
Qed.

Lemma after_at_app (l s : list N) :
  ~ In ch_at l -> after_at (l ++ ch_at :: s) = s.
Proof.
  induction l as [|c l IH]; simpl; intros Hn.
  - reflexivity.
  - destruct (N.eqb_spec c ch_at) as [->|_]; [tauto | apply IH; tauto].
Qed.

Lemma after_at_split (s : list N) :
  In ch_at s -> exists l, s = l ++ ch_at :: after_at s /\ ~ In ch_at l.
Proof.
  induction s as [|c s IH]; simpl; [tauto|]. intros Hin.
  destruct (N.eqb_spec c ch_at) as [->|Hc].
  - exists []. split; [reflexivity | simpl; tauto].
  - destruct IH as (l & Hl & Hnl); [destruct Hin; congruence|].
    exists (c :: l). split; [simpl; congruence | simpl; intuition congruence].
Qed.

Lemma email_class_no_at (l : list N) :
  Forall (fun c => email_class c = true) l -> count_occ N.eq_dec l ch_at = 0%nat.
Proof.
  intros H. apply count_occ_not_In. intros Hin.
  rewrite Forall_forall in H. apply list_elem_of_In in Hin.
  apply H in Hin. apply email_class_spec in Hin. tauto.
Qed.

Lemma email_class_no_space (l : list N) :
  Forall (fun c => email_class c = true) l -> Forall (fun c => is_js_space c = false) l.
Proof.
  intros H. eapply Forall_impl; [exact H|].
  intros c Hc. now apply email_class_spec in Hc.
Qed.

Lemma email_class_parts (l : list N) :
  Forall (fun c => is_js_space c = false) l -> ~ In ch_at l ->
  Forall (fun c => email_class c = true) l.
Proof.
  intros Hs Hn. rewrite Forall_forall in *. intros c Hc.
  apply email_class_spec. split; [now apply Hs|].
  intros ->. apply Hn. now apply list_elem_of_In.
Qed.

(** C10. [isValidEmail] accepts exactly the strings without white space
    that have one ['@'], not as their first code unit, followed by a part
    holding a ['.'] that is neither directly after the ['@'] nor last. *)
Theorem isValidEmail_iff_well_formed (email : list N) :
  isValidEmail email = true <-> well_formed_email email.
Proof.
  unfold isValidEmail. rewrite test_matches, email_regex_matches.
  unfold well_formed_email. split.
  - intros (l & d & t & -> & [Hl Fl] & [Hd Fd] & [Ht Ft]).
    assert (Hnl : ~ In ch_at l).
    { apply (count_occ_not_In N.eq_dec). now apply email_class_no_at. }
    repeat split.
    + apply Forall_app. split; [now apply email_class_no_space|].
      constructor; [reflexivity|].
      apply Forall_app. split; [now apply email_class_no_space|].
      constructor; [reflexivity | now apply email_class_no_space].
    + rewrite count_occ_app, count_occ_cons_eq by reflexivity.
      rewrite count_occ_app, count_occ_cons_neq by discriminate.
      rewrite !email_class_no_at by assumption. reflexivity.
    + destruct l as [|c l]; [congruence|]. simpl. intros [= ->].
      apply Hnl. now left.
    + exists (length d). rewrite after_at_app by assumption.
      split; [|split].
      * rewrite lookup_app_r by lia. now rewrite Nat.sub_diag.
      * destruct d; [congruence | simpl; lia].
      * rewrite length_app. simpl. destruct t; [congruence | simpl; lia].
  - intros (Hs & Hc & Hh & i & Hi & Hpos & Hlast).
    destruct (after_at_split email) as (l & Hl & Hnl).
    { apply (count_occ_In N.eq_dec). lia. }
    set (a := after_at email) in *.
    assert (Hna : ~ In ch_at a).
    { apply (count_occ_not_In N.eq_dec).
      rewrite Hl, count_occ_app, count_occ_cons_eq in Hc by reflexivity. lia. }
    assert (Fs : Forall (fun c => is_js_space c = false) l
                 /\ Forall (fun c => is_js_space c = false) a).
    { rewrite Hl in Hs. apply Forall_app in Hs as [? Hs].
      apply Forall_cons in Hs as [_ Hs]. now split. }
    destruct Fs as [Fl Fa].
    pose proof (email_class_parts a Fa Hna) as Ca.
    exists l, (take i a), (drop (S i) a). repeat split.
    + rewrite Hl at 1. f_equal. f_equal. symmetry. now apply take_drop_middle.
    + intros ->. apply Hh. rewrite Hl. reflexivity.
    + now apply email_class_parts.
    + intros E. apply (f_equal length) in E. rewrite length_take in E.
      simpl in E. lia.
    + now apply Forall_take.
    + intros E. apply (f_equal length) in E. rewrite length_drop in E.
      simpl in E. lia.
    + now apply Forall_drop.
Qed.

(** C1, as the code has it: of the four sample addresses only ["a@b.co"]
    is accepted; ["a@b"] has no dot after the ['@'] and is rejected. *)
Theorem isValidEmail_samples :
  isValidEmail (lit "a@b.co") = true
  /\ isValidEmail (lit "a@b") = false
  /\ isValidEmail (lit "a b@c.com") = false
  /\ isValidEmail (lit "") = false.
Proof. repeat split; reflexivity. Qed.

(** C1, counterexample: ["a@b"], listed as valid, is rejected. *)
Lemma isValidEmail_a_at_b_rejected : isValidEmail (lit "a@b") = false.
Proof. vm_compute. reflexivity. Qed.

(** ** Rolling histories *)

Lemma last_n_short {A : Type} (n : nat) (l : list A) :
  (length l <= n)%nat -> last_n n l = l.
Proof.
  intros H. unfold last_n. replace (length l - n)%nat with 0%nat by lia. reflexivity.
Qed.

Lemma last_n_length {A : Type} (n : nat) (l : list A) :
  length (last_n n l) = Nat.min (length l) n.
Proof. unfold last_n. rewrite length_skipn. lia. Qed.

(** Pushing onto the last [n] entries and shifting when there are more
    than [n] gives the last [n] entries of the longer list. *)
Lemma tl_skipn_snoc {A : Type} (l : list A) (x : A) (k : nat) :
  (k < length l)%nat -> tl (skipn k l ++ [x]) = skipn (S k) l ++ [x].
Proof.
  revert k. induction l as [|a l IH]; intros k Hk; simpl in Hk; [lia|].
  destruct k as [|k]; [reflexivity|].
  change (skipn (S k) (a :: l)) with (skipn k l).
  change (skipn (S (S k)) (a :: l)) with (skipn (S k) l).
  apply IH. lia.
Qed.

Lemma last_n_push {A : Type} (n : nat) (l : list A) (x : A) :
  (0 < n)%nat ->
  last_n n (l ++ [x]) =
  if (n <? length (last_n n l ++ [x]))%nat
  then tl (last_n n l ++ [x])
  else last_n n l ++ [x].
Proof.
  intros Hn. rewrite length_app, last_n_length. simpl.
  destruct (Nat.ltb_spec n (Nat.min (length l) n + 1)) as [Hlt|Hge].
  - unfold last_n. rewrite length_app. simpl.
    replace (length l + 1 - n)%nat with (S (length l - n)) by lia.
    rewrite tl_skipn_snoc by lia.
    rewrite skipn_app.
    replace (S (length l - n) - length l)%nat with 0%nat by lia. reflexivity.
  - rewrite !last_n_short; [reflexivity | lia | rewrite length_app; simpl; lia].
Qed.

Section Histories.
Variable rnd : Q -> Q.

Lemma append_reading_columns (ds : list DataDashboard.reading) (d : DataDashboard.reading) :
  DataDashboard.append_reading rnd d (last_rows 20 (columns rnd ds))
  = last_rows 20 (columns rnd (ds ++ [d])).
Proof.
  unfold DataDashboard.append_reading, last_rows, columns, DataDashboard.push,
    DataDashboard.shift. simpl.
  rewrite !List.map_app. simpl List.map.
  rewrite !(last_n_push 20) by lia.
  rewrite !length_app, !last_n_length, !length_map. simpl.
  destruct (20 <? Nat.min (length ds) 20 + 1)%nat; reflexivity.
Qed.

Lemma update_page_data (d : DataDashboard.reading) (p : DataDashboard.page) :
  DataDashboard.data (DataDashboard.update_page rnd d p)
  = DataDashboard.append_reading rnd d (DataDashboard.data p).
Proof.
  unfold DataDashboard.update_page, DataDashboard.updateChart. simpl.
  destruct (DataDashboard.chart p); reflexivity.
Qed.

Lemma updateDashboard_run (d : DataDashboard.reading) (p : DataDashboard.page) :
  DataDashboard.updateDashboard rnd d p
  = (DataDashboard.Normal tt,
     DataDashboard.update_page rnd d
       (DataDashboard.add_call (DataDashboard.CallUpdateDashboard d) p)).
Proof. reflexivity. Qed.

Lemma updateDashboard_data (d : DataDashboard.reading) (p : DataDashboard.page) :
  DataDashboard.data (snd (DataDashboard.updateDashboard rnd d p))
  = DataDashboard.append_reading rnd d (DataDashboard.data p).
Proof. rewrite updateDashboard_run. simpl. now rewrite update_page_data. Qed.

(** After any number of readings the histories hold the last 20 of them. *)
Lemma feed_histories (ds : list DataDashboard.reading) (p : DataDashboard.page) :
  DataDashboard.data p = no_history ->
  DataDashboard.data (DataDashboard.feed rnd ds p) = last_rows 20 (columns rnd ds).
Proof.
  intros Hp. induction ds as [|d ds IH] using rev_ind.
  - exact Hp.
  - unfold DataDashboard.feed in *. rewrite fold_left_app. cbn [fold_left].
    rewrite updateDashboard_data, IH. apply append_reading_columns.
Qed.

(** C2. Fed from empty histories, no history ever holds more than 20
    entries, the four have the same length, and after 21 readings each
    holds readings 2 to 21 in their order. *)
Theorem histories_capped_fifo (ds : list DataDashboard.reading) (p : DataDashboard.page) :
  DataDashboard.data p = no_history ->
  let h := DataDashboard.data (DataDashboard.feed rnd ds p) in
  ((length (DataDashboard.h_temperature h) <= 20)%nat
   /\ length (DataDashboard.h_humidity h) = length (DataDashboard.h_temperature h)
   /\ length (DataDashboard.h_pressure h) = length (DataDashboard.h_temperature h)
   /\ length (DataDashboard.h_timestamps h) = length (DataDashboard.h_temperature h))
  /\ (length ds = 21%nat -> h = columns rnd (tl ds)).
Proof.
  intros Hp h. subst h. rewrite (feed_histories ds p Hp).
  split.
  - unfold last_rows, columns. simpl.
    rewrite !last_n_length, !length_map. lia.
  - intros Hlen. destruct ds as [|d0 ds]; [discriminate|].
    unfold last_rows, columns, last_n. cbn [tl DataDashboard.h_temperature
      DataDashboard.h_humidity DataDashboard.h_pressure DataDashboard.h_timestamps].
    rewrite !length_map, Hlen. reflexivity.
Qed.

End Histories.

(** ** Decimal digits *)

Lemma digit_value_char (d : N) : digit_value (digit_char d) = d.
Proof. unfold digit_value, digit_char. lia. Qed.

Lemma is_digit_char (d : N) : d < 10 -> is_digit (digit_char d) = true.
Proof.
  intros H. unfold is_digit, digit_char.
  apply andb_true_iff. split; apply N.leb_le; lia.
Qed.

Lemma enough_fuel_div (f : nat) (n : N) :
  enough_fuel (S f) n -> n / 10 <> 0 -> enough_fuel f (n / 10).
Proof.
  intros [_ Hn] Hd.
  assert (H10 : 10 <= n).
  { destruct (N.le_gt_cases 10 n) as [H|H]; [exact H|].
    apply N.div_small in H. congruence. }
  assert (Hhalf : n / 10 < 2 ^ N.of_nat f).
  { replace (N.of_nat (S f)) with (N.succ (N.of_nat f)) in Hn by lia.
    rewrite N.pow_succ_r' in Hn.
    apply N.Div0.div_lt_upper_bound. lia. }
  split; [|exact Hhalf].
  intros ->. simpl in Hhalf. lia.
Qed.

Lemma enough_fuel_log2 (n : N) : enough_fuel (S (N.to_nat (N.log2 n))) n.
Proof.
  split; [discriminate|].
  replace (N.of_nat (S (N.to_nat (N.log2 n)))) with (N.succ (N.log2 n)) by lia.
  destruct n as [|q]; [reflexivity|].
  apply N.log2_spec. lia.
Qed.

Lemma digits_fuel_acc (f : nat) : forall n acc,
  digits_fuel f n acc = digits_fuel f n [] ++ acc.
Proof.
  induction f as [|f IH]; intros n acc; simpl; [reflexivity|].
  destruct (n / 10 =? 0); [reflexivity|].
  rewrite IH, (IH _ [_]), <- app_assoc. reflexivity.
Qed.

Lemma digits_fuel_irrelevant (f1 : nat) : forall f2 n acc,
  enough_fuel f1 n -> enough_fuel f2 n ->
  digits_fuel f1 n acc = digits_fuel f2 n acc.
Proof.
  induction f1 as [|f1 IH]; intros f2 n acc H1 H2.
  - destruct H1 as [H1 _]. congruence.
  - destruct f2 as [|f2]; [destruct H2 as [H2 _]; congruence|].
    simpl. destruct (N.eqb_spec (n / 10) 0) as [|Hd]; [reflexivity|].
    apply IH; now apply enough_fuel_div.
Qed.

(** The digits of [n]: those of [n / 10], unless that is zero, and the
    last digit. *)
Lemma decimal_digits_step (n : N) :
  decimal_digits n =
  (if n / 10 =? 0 then [] else decimal_digits (n / 10)) ++ [digit_char (n mod 10)].
Proof.
  unfold decimal_digits at 1. simpl.
  destruct (N.eqb_spec (n / 10) 0) as [|Hd]; [reflexivity|].
  rewrite digits_fuel_acc. f_equal.
  apply digits_fuel_irrelevant; [|apply enough_fuel_log2].
  apply enough_fuel_div; [apply enough_fuel_log2 | exact Hd].
Qed.

Lemma decimal_digits_small (n : N) : n < 10 -> decimal_digits n = [digit_char n].
Proof.
  intros H. rewrite decimal_digits_step.
  rewrite (N.div_small n 10), (N.mod_small n 10) by exact H. reflexivity.
Qed.

Lemma digits_value_snoc (ds : list N) (c : N) :
  digits_value (ds ++ [c]) = 10 * digits_value ds + digit_value c.
Proof. unfold digits_value. now rewrite fold_left_app. Qed.

(** Strong induction along [n / 10]. *)
Lemma div10_induction (P : N -> Prop) :
  (forall n, (n / 10 <> 0 -> P (n / 10)) -> P n) -> forall n, P n.
Proof.
  intros Hstep n. induction n as [n IH] using (well_founded_induction N.lt_wf_0).
  apply Hstep. intros Hd. apply IH.
  apply N.div_lt; [|lia].
  destruct n; [now rewrite N.Div0.div_0_l in Hd | lia].
Qed.

Lemma decimal_digits_value (n : N) : digits_value (decimal_digits n) = n.
Proof.
  induction n as [n IH] using div10_induction.
  rewrite decimal_digits_step, digits_value_snoc, digit_value_char.
  destruct (N.eqb_spec (n / 10) 0) as [Hd|Hd].
  - change (digits_value []) with 0.
    pose proof (N.div_mod n 10). lia.
  - rewrite IH by exact Hd. pose proof (N.div_mod n 10). lia.
Qed.

Lemma decimal_digits_are_digits (n : N) :
  Forall (fun c => is_digit c = true) (decimal_digits n).
Proof.
  induction n as [n IH] using div10_induction.
  rewrite decimal_digits_step. apply Forall_app. split.
  - destruct (N.eqb_spec (n / 10) 0); [constructor | now apply IH].
  - constructor; [|constructor]. apply is_digit_char.
    apply N.mod_lt. discriminate.
Qed.

Lemma decimal_digits_nonempty (n : N) : decimal_digits n <> [].
Proof.
  rewrite decimal_digits_step. intros H. apply app_eq_nil in H as [_ H]. discriminate.
Qed.

(** ** [toFixed(2)] *)

Lemma Qabs_nonneg_eq (x : Q) : (0 <= x)%Q -> Qabs x = x.
Proof.
  destruct x as [a b]. unfold Qle, Qabs. simpl. intros H.
  f_equal. apply Z.abs_eq. lia.
Qed.

Lemma toFixed_2 (x : Q) :
  (0 <= x)%Q ->
  toFixed x 2 =
  decimal_digits (hundredths x / 100)
  ++ [ch_dot; digit_char ((hundredths x / 10) mod 10); digit_char (hundredths x mod 10)].
Proof.
  intros Hx. unfold toFixed. rewrite (Qabs_nonneg_eq x Hx).
  destruct (Qlt_le_dec x 0) as [Hneg|_]; [exfalso; revert Hneg Hx; apply Qlt_not_le|].
  change (inject_Z (10 ^ Z.of_nat 2)) with 100%Q.
  fold (hundredths x). generalize (hundredths x) as n. intros n.
  cbn [Nat.eqb app].
  rewrite (decimal_digits_step n).
  destruct (N.eqb_spec (n / 10) 0) as [H10|H10].
  - assert (Hn : n < 10).
    { destruct (N.lt_ge_cases n 10) as [H|H]; [exact H|].
      pose proof (N.Div0.mul_div_le n 10). pose proof (N.mod_lt n 10).
      pose proof (N.div_mod n 10). lia. }
    rewrite (N.div_small n 100) by lia. rewrite H10.
    reflexivity.
  - rewrite (decimal_digits_step (n / 10)).
    rewrite N.Div0.div_div. change (10 * 10) with 100.
    destruct (N.eqb_spec (n / 100) 0) as [H100|H100].
    + rewrite H100. reflexivity.
    + set (D := decimal_digits (n / 100)).
      assert (HD : (0 < length D)%nat).
      { pose proof (decimal_digits_nonempty (n / 100)). fold D in H.
        destruct D; [congruence | simpl; lia]. }
      rewrite <- !app_assoc. cbn [app].
      rewrite !length_app. cbn [length].
      replace (3 - (length D + 2))%nat with 0%nat by lia. cbn [repeat app].
      replace (length [] + (length D + 2) - 2)%nat with (length D) by (simpl; lia).
      rewrite take_app_length, drop_app_length. reflexivity.
Qed.

Lemma hundredths_bounds (x : Q) (lo hi : Z) :
  (0 <= lo)%Z -> (inject_Z lo <= x <= inject_Z hi)%Q ->
  (100 * lo <= Z.of_N (hundredths x) <= 100 * hi)%Z.
Proof.
  intros Hlo [Hl Hh]. unfold hundredths.
  set (y := (x * 100 + (1 # 2))%Q).
  assert (Hfl : (100 * lo <= Qfloor y)%Z).
  { rewrite <- (Qfloor_Z (100 * lo)). apply Qfloor_resp_le.
    unfold y. rewrite inject_Z_mult. change (inject_Z 100) with 100%Q. lra. }
  assert (Hfh : (Qfloor y < 100 * hi + 1)%Z).
  { rewrite Zlt_Qlt. apply Qle_lt_trans with y; [apply Qfloor_le|].
    unfold y. rewrite inject_Z_plus, inject_Z_mult.
    change (inject_Z 100) with 100%Q. change (inject_Z 1) with 1%Q. lra. }
  rewrite Z2N.id by lia. lia.
Qed.

Lemma toFixed_2_two_decimals (x : Q) :
  (0 <= x)%Q ->
  two_decimals (toFixed x 2) (inject_Z (Z.of_N (hundredths x)) / 100)%Q.
Proof.
  intros Hx. rewrite (toFixed_2 x Hx).
  set (n := hundredths x).
  exists (decimal_digits (n / 100)), (digit_char ((n / 10) mod 10)), (digit_char (n mod 10)).
  split; [reflexivity|].
  split; [apply decimal_digits_nonempty|].
  split; [apply decimal_digits_are_digits|].
  split; [apply is_digit_char, N.mod_lt; discriminate|].
  split; [apply is_digit_char, N.mod_lt; discriminate|].
  rewrite decimal_digits_value, !digit_value_char.
  assert (Hn : (Z.of_N n
                = 100 * Z.of_N (n / 100)
                  + Z.of_N (10 * ((n / 10) mod 10) + n mod 10))%Z).
  { pose proof (N.div_mod n 100).
    pose proof (N.Div0.mod_mul_r n 10 10) as Hm. change (10 * 10) with 100 in Hm.
    lia. }
  rewrite Hn, inject_Z_plus, inject_Z_mult. change (inject_Z 100) with 100%Q.
  field.
Qed.

(** ** [parseFloat] reads a two-decimal numeral back *)

Lemma digit_range (c : N) : is_digit c = true <-> 48 <= c <= 57.
Proof. unfold is_digit. rewrite andb_true_iff, !N.leb_le. tauto. Qed.

Lemma digit_not_space (c : N) : is_digit c = true -> is_js_space c = false.
Proof.
  intros H. apply digit_range in H. unfold is_js_space.
  repeat match goal with
         | |- _ || _ = false => apply orb_false_iff; split
         | |- _ && _ = false => apply andb_false_iff
         end;
    try (apply N.eqb_neq; lia).
  - right. apply N.leb_gt. lia.
  - left. apply N.leb_gt. lia.
Qed.

Lemma span_digits_app (ds rest : list N) (c : N) :
  Forall (fun d => is_digit d = true) ds -> is_digit c = false ->
  span_digits (ds ++ c :: rest) = (ds, c :: rest).
Proof.
  intros Hds Hc. induction Hds as [|d ds Hd _ IH]; simpl.
  - now rewrite Hc.
  - now rewrite Hd, IH.
Qed.

Lemma span_digits_all (ds : list N) :
  Forall (fun d => is_digit d = true) ds -> span_digits ds = (ds, []).
Proof.
  induction 1 as [|d ds Hd _ IH]; simpl; [reflexivity|]. now rewrite Hd, IH.
Qed.

Lemma StrDecimalLiteral_two_decimals (s : list N) (q : Q) :
  two_decimals s q ->
  exists q' : Q, StrDecimalLiteral s = Some (Finite q') /\ (q' == q)%Q.
Proof.
  intros (ip & d1 & d2 & -> & Hne & Hip & Hd1 & Hd2 & Hq).
  destruct ip as [|c ip]; [congruence|].
  assert (Hc : is_digit c = true) by now apply Forall_cons in Hip as [? _].
  pose proof (proj1 (digit_range c) Hc) as Rc.
  unfold StrDecimalLiteral.
  cbn [app trim_start]. rewrite (digit_not_space c Hc).
  unfold read_sign.
  destruct (N.eqb_spec c ch_plus) as [E|_]; [unfold ch_plus in E; lia|].
  destruct (N.eqb_spec c ch_minus) as [E|_]; [unfold ch_minus in E; lia|].
  assert (Hinf : starts_with (lit "Infinity") (c :: ip ++ [ch_dot; d1; d2]) = false).
  { change (lit "Infinity") with [73; 110; 102; 105; 110; 105; 116; 121].
    cbn [starts_with]. destruct (N.eqb_spec 73 c) as [E|_]; [lia | reflexivity]. }
  rewrite Hinf.
  change (c :: ip ++ [ch_dot; d1; d2]) with ((c :: ip) ++ ch_dot :: [d1; d2]).
  rewrite (span_digits_app (c :: ip) [d1; d2] ch_dot Hip eq_refl).
  rewrite N.eqb_refl.
  rewrite (span_digits_all [d1; d2]) by (repeat constructor; assumption).
  eexists. split; [reflexivity|].
  rewrite Hq. cbn [read_exponent length]. change (Qpower 10 0) with 1%Q.
  unfold digits_value at 2. cbn [fold_left].
  replace (10 * (10 * 0 + digit_value d1) + digit_value d2)
    with (10 * digit_value d1 + digit_value d2) by lia.
  change (inject_Z (10 ^ Z.of_nat 2)) with 100%Q. ring.
Qed.


(** ** The mock reading *)

(** A value that is not negative and at most 2^53 is in the range of the
    finite doubles. *)
Lemma double_or_infinity_small (r : Q) (z : Z) :
  (0 <= r)%Q -> (r <= inject_Z z)%Q -> (z <= 2 ^ 53)%Z ->
  double_or_infinity r = Finite r.
Proof.
  intros H0 Hr Hz. unfold double_or_infinity.
  rewrite (Qabs_nonneg_eq r H0).
  assert (H : Qle_bool r max_double = true).
  { apply Qle_bool_iff. apply Qle_trans with (inject_Z z); [exact Hr|].
    unfold max_double. rewrite <- Zle_Qle.
    apply Z.le_trans with (2 ^ 53)%Z; [exact Hz|].
    apply Z.leb_le. vm_compute. reflexivity. }
  now rewrite H.
Qed.

Section MockData.
Variable rnd : Q -> Q.
Hypothesis rnd_ok : rounding rnd.

Lemma rnd_proper (x y : Q) : (x == y)%Q -> (rnd x == rnd y)%Q.
Proof.
  intros E. apply Qle_antisym; apply (rnd_monotone rnd rnd_ok); rewrite E; apply Qle_refl.
Qed.

(** [lo + r * w] for a draw [r] stays between [lo] and [lo + w]. *)
Lemma scaled_draw_bounds (lo w : Z) (r : Q) :
  (0 <= lo)%Z -> (0 <= w)%Z -> (lo + w <= 2 ^ 53)%Z ->
  (0 <= r < 1)%Q ->
  let x := js_add rnd (num_lit rnd (inject_Z lo)) (js_mul rnd r (num_lit rnd (inject_Z w))) in
  (inject_Z lo <= x <= inject_Z (lo + w))%Q.
Proof.
  intros Hlo Hw Hsum [Hr0 Hr1] x. subst x. unfold js_add, js_mul, num_lit.
  pose proof (rnd_integer rnd rnd_ok lo ltac:(lia)) as Elo.
  pose proof (rnd_integer rnd rnd_ok w ltac:(lia)) as Ew.
  pose proof (rnd_integer rnd rnd_ok 0 ltac:(lia)) as E0.
  pose proof (rnd_integer rnd rnd_ok (lo + w) ltac:(lia)) as Es.
  assert (Hw' : (0 <= inject_Z w)%Q) by (change 0%Q with (inject_Z 0); rewrite <- Zle_Qle; exact Hw).
  assert (Hm : (0 <= rnd (r * rnd (inject_Z w)) <= inject_Z w)%Q).
  { split.
    - rewrite <- E0. apply (rnd_monotone rnd rnd_ok).
      rewrite Ew. change (inject_Z 0) with 0%Q. nra.
    - rewrite <- Ew at 2. apply (rnd_monotone rnd rnd_ok).
      rewrite Ew. nra. }
  split.
  - rewrite <- Elo at 1. apply (rnd_monotone rnd rnd_ok). rewrite Elo. lra.
  - rewrite <- Es. apply (rnd_monotone rnd rnd_ok).
    rewrite Elo, inject_Z_plus. lra.
Qed.

Lemma mock_field_within (lo w : Z) (r : Q) :
  (0 <= lo)%Z -> (0 <= w)%Z -> (lo + w <= 2 ^ 53)%Z ->
  (0 <= r < 1)%Q ->
  two_decimals_within (inject_Z lo) (inject_Z (lo + w))
    (toFixed (js_add rnd (num_lit rnd (inject_Z lo))
                (js_mul rnd r (num_lit rnd (inject_Z w)))) 2).
Proof.
  intros Hlo Hw Hsum Hr.
  pose proof (scaled_draw_bounds lo w r Hlo Hw Hsum Hr) as Hx. cbv zeta in Hx.
  set (x := js_add rnd _ _) in *.
  assert (Hx0 : (0 <= x)%Q).
  { apply Qle_trans with (inject_Z lo); [|apply Hx].
    change 0%Q with (inject_Z 0). now rewrite <- Zle_Qle. }
  exists (inject_Z (Z.of_N (hundredths x)) / 100)%Q.
  split; [now apply toFixed_2_two_decimals|].
  pose proof (hundredths_bounds x lo (lo + w) Hlo Hx) as [Hb1 Hb2].
  rewrite Zle_Qle, inject_Z_mult in Hb1, Hb2.
  change (inject_Z 100) with 100%Q in *.
  split; [apply Qle_shift_div_l|apply Qle_shift_div_r]; lra.
Qed.

(** A field of the mock reading, read back by [parseFloat] as
    [updateDashboard] does, is a number between [lo] and [lo + w]. *)
Lemma mock_field_parses_within (lo w : Z) (r : Q) :
  (0 <= lo)%Z -> (0 <= w)%Z -> (lo + w <= 2 ^ 53)%Z ->
  (0 <= r < 1)%Q ->
  exists v : Q,
    parseFloat rnd (toFixed (js_add rnd (num_lit rnd (inject_Z lo))
                              (js_mul rnd r (num_lit rnd (inject_Z w)))) 2)
    = Finite v
    /\ (inject_Z lo <= v <= inject_Z (lo + w))%Q.
Proof.
  intros Hlo Hw Hsum Hr.
  destruct (mock_field_within lo w r Hlo Hw Hsum Hr) as (q & Hq & Hq1 & Hq2).
  destruct (StrDecimalLiteral_two_decimals _ _ Hq) as (q' & Hs & E).
  assert (Hv : (inject_Z lo <= rnd q' <= inject_Z (lo + w))%Q).
  { rewrite <- (rnd_integer rnd rnd_ok lo) by lia.
    rewrite <- (rnd_integer rnd rnd_ok (lo + w)) by lia.
    split; apply (rnd_monotone rnd rnd_ok); rewrite E; assumption. }
  unfold parseFloat. rewrite Hs. exists (rnd q'). split; [|exact Hv].
  apply (double_or_infinity_small _ (lo + w)); [|apply Hv|exact Hsum].
  apply Qle_trans with (inject_Z lo); [|apply Hv].
  change 0%Q with (inject_Z 0). now rewrite <- Zle_Qle.
Qed.

End MockData.

Section Dashboard.
Variable rnd : Q -> Q.
Variable random : nat -> Q.
Variable toLocaleTimeString : nat -> list N.

Let next_mock := next_mock rnd random toLocaleTimeString.
Let after_mock := after_mock rnd random toLocaleTimeString.

Lemma generateMockData_run (p : DataDashboard.page) :
  DataDashboard.generateMockData rnd random toLocaleTimeString p
  = (DataDashboard.Normal (next_mock p), after_mock p).
Proof. reflexivity. Qed.

(** C4. Whatever the random source draws, [generateMockData] returns a
    reading whose temperature, humidity and pressure are numerals with
    two decimals, of values within [20,30], [40,70] and [1013,1018]. *)
Theorem generateMockData_within_ranges (p : DataDashboard.page) :
  rounding rnd -> unit_interval random ->
  exists (d : DataDashboard.reading) (p' : DataDashboard.page),
    DataDashboard.generateMockData rnd random toLocaleTimeString p
    = (DataDashboard.Normal d, p')
    /\ two_decimals_within 20 30 (DataDashboard.temperature d)
    /\ two_decimals_within 40 70 (DataDashboard.humidity d)
    /\ two_decimals_within 1013 1018 (DataDashboard.pressure d).
Proof.
  intros Hrnd Hrand. exists (next_mock p), (after_mock p).
  split; [apply generateMockData_run|].
  unfold next_mock, DataDashboard.mock_reading. cbn [DataDashboard.temperature
    DataDashboard.humidity DataDashboard.pressure].
  split; [|split].
  - apply (mock_field_within rnd Hrnd 20 10); try lia. apply Hrand.
  - apply (mock_field_within rnd Hrnd 40 30); try lia. apply Hrand.
  - apply (mock_field_within rnd Hrnd 1013 5); try lia. apply Hrand.
Qed.

Lemma update_page_display (d : DataDashboard.reading) (p q : DataDashboard.page) :
  display p = display q ->
  display (DataDashboard.update_page rnd d p) = display (DataDashboard.update_page rnd d q).
Proof.
  destruct p, q. unfold display. simpl. intros [= -> -> -> -> ->].
  unfold DataDashboard.update_page, DataDashboard.updateChart. simpl.
  destruct chart0; reflexivity.
Qed.

Lemma update_page_calls (d : DataDashboard.reading) (p : DataDashboard.page) :
  DataDashboard.calls (DataDashboard.update_page rnd d p) = DataDashboard.calls p.
Proof.
  unfold DataDashboard.update_page, DataDashboard.updateChart. simpl.
  destruct (DataDashboard.chart p); reflexivity.
Qed.

(** The end of every path without a reading: a fresh mock reading goes to
    [updateDashboard]. *)
Lemma fallback_run (q : DataDashboard.page) :
  let d := next_mock q in
  let r := DataDashboard.updateDashboard rnd d (after_mock q) in
  fst r = DataDashboard.Normal tt
  /\ DataDashboard.calls (snd r)
     = DataDashboard.calls q
       ++ [DataDashboard.CallGenerateMockData d; DataDashboard.CallUpdateDashboard d]
  /\ display (snd r) = display (DataDashboard.update_page rnd d q).
Proof.
  intros d r. subst r. rewrite updateDashboard_run. cbn [fst snd].
  split; [reflexivity|]. split.
  - rewrite update_page_calls. simpl. now rewrite <- app_assoc.
  - apply update_page_display. reflexivity.
Qed.

Lemma fetch_throws_run (p : DataDashboard.page) :
  DataDashboard.fetchESP32Data rnd random toLocaleTimeString DataDashboard.FetchThrows p
  = let q := DataDashboard.add_console (lit "Using mock data:") DataDashboard.FetchError p in
    DataDashboard.updateDashboard rnd (next_mock q) (after_mock q).
Proof. reflexivity. Qed.

Lemma fetch_rejects_run (p : DataDashboard.page) :
  DataDashboard.fetchESP32Data rnd random toLocaleTimeString DataDashboard.FetchRejects p
  = let q := after_mock p in
    DataDashboard.updateDashboard rnd (next_mock q) (after_mock q).
Proof. reflexivity. Qed.

Lemma fetch_not_ok_run (body : DataDashboard.json_outcome) (p : DataDashboard.page) :
  DataDashboard.fetchESP32Data rnd random toLocaleTimeString
    (DataDashboard.FetchResolves false body) p
  = DataDashboard.updateDashboard rnd (next_mock p) (after_mock p).
Proof. reflexivity. Qed.

Lemma fetch_bad_json_run (p : DataDashboard.page) :
  DataDashboard.fetchESP32Data rnd random toLocaleTimeString
    (DataDashboard.FetchResolves true DataDashboard.JsonRejects) p
  = let q := DataDashboard.add_console (lit "Using mock data:") DataDashboard.JsonError p in
    DataDashboard.updateDashboard rnd (next_mock q) (after_mock q).
Proof. reflexivity. Qed.

(** C9. When the promise of [fetch] is rejected, [generateMockData] runs
    twice: the reading of the rejection handler has no [ok] and is dropped,
    and a second reading, from the next three draws, goes to
    [updateDashboard]. *)
Theorem rejected_fetch_generates_twice (p : DataDashboard.page) :
  let d1 := next_mock p in
  let d2 := next_mock (after_mock p) in
  DataDashboard.response_ok (DataDashboard.MockObject d1) = false
  /\ DataDashboard.fetchESP32Data rnd random toLocaleTimeString DataDashboard.FetchRejects p
     = DataDashboard.updateDashboard rnd d2 (after_mock (after_mock p))
  /\ DataDashboard.calls
       (DataDashboard.cycle rnd random toLocaleTimeString DataDashboard.FetchRejects p)
     = DataDashboard.calls p
       ++ [DataDashboard.CallGenerateMockData d1;
           DataDashboard.CallGenerateMockData d2;
           DataDashboard.CallUpdateDashboard d2]
  /\ d2 = DataDashboard.mock_reading rnd toLocaleTimeString
            (S (DataDashboard.clock_reads p))
            (random (3 + DataDashboard.random_calls p))
            (random (4 + DataDashboard.random_calls p))
            (random (5 + DataDashboard.random_calls p))
  /\ display (DataDashboard.cycle rnd random toLocaleTimeString DataDashboard.FetchRejects p)
     = display (DataDashboard.update_page rnd d2 p).
Proof.
  intros d1 d2. split; [reflexivity|]. split; [reflexivity|].
  unfold DataDashboard.cycle. rewrite fetch_rejects_run. cbv zeta.
  destruct (fallback_run (after_mock p)) as (_ & Hc & Hd). cbv zeta in Hc, Hd.
  fold d2 in Hc, Hd |- *.
  split; [|split].
  - rewrite Hc. simpl. now rewrite <- app_assoc.
  - reflexivity.
  - rewrite Hd. apply update_page_display. reflexivity.
Qed.


Lemma fetch_ok_run (d : DataDashboard.reading) (p : DataDashboard.page) :
  DataDashboard.fetchESP32Data rnd random toLocaleTimeString
    (DataDashboard.FetchResolves true (DataDashboard.JsonValue d)) p
  = DataDashboard.updateDashboard rnd d p.
Proof. reflexivity. Qed.

(** Every cycle, failed or not, appends exactly one reading. *)
Lemma cycle_appends (o : DataDashboard.fetch_outcome) (p : DataDashboard.page) :
  exists d : DataDashboard.reading,
    DataDashboard.data (DataDashboard.cycle rnd random toLocaleTimeString o p)
    = DataDashboard.append_reading rnd d (DataDashboard.data p).
Proof.
  unfold DataDashboard.cycle.
  destruct o as [| |[|] [|d]]; eexists;
    first [ rewrite fetch_throws_run | rewrite fetch_rejects_run
          | rewrite fetch_bad_json_run | rewrite fetch_ok_run
          | rewrite fetch_not_ok_run ];
    cbv zeta; rewrite updateDashboard_data; reflexivity.
Qed.

Lemma append_reading_capped (d : DataDashboard.reading) (h : DataDashboard.histories) :
  capped h -> capped (DataDashboard.append_reading rnd d h).
Proof.
  unfold capped, DataDashboard.append_reading, DataDashboard.push, DataDashboard.shift.
  intros (H1 & H2 & H3 & H4). cbn [DataDashboard.h_temperature].
  rewrite length_app. cbn [length].
  destruct (Nat.ltb_spec 20 (length (DataDashboard.h_temperature h) + 1)) as [Hlt|Hge];
    cbn [DataDashboard.h_temperature DataDashboard.h_humidity
         DataDashboard.h_pressure DataDashboard.h_timestamps].
  - assert (Htl : forall (A : Type) (l : list A), length (tl l) = (length l - 1)%nat)
      by (intros A [|a l]; simpl; lia).
    rewrite !Htl, !length_app. cbn [length]. lia.
  - rewrite !length_app. cbn [length]. lia.
Qed.

(** The cap holds along the polling, whatever the outcomes of the
    fetches. *)
Lemma poll_capped (os : list DataDashboard.fetch_outcome) (p : DataDashboard.page) :
  capped (DataDashboard.data p) ->
  capped (DataDashboard.data (DataDashboard.poll rnd random toLocaleTimeString os p)).
Proof.
  revert p. induction os as [|o os IH]; intros p Hp; [exact Hp|].
  unfold DataDashboard.poll in *. cbn [fold_left]. apply IH.
  destruct (cycle_appends o p) as [d ->]. now apply append_reading_capped.
Qed.

End Dashboard.

(** ** The cursor follower *)

(** A frame leaves the pointer and the ease amount as they are. *)
Lemma animate_pointer (rnd : Q -> Q) (c : CustomCursor.cursor) :
  CustomCursor.innerX (CustomCursor.animate rnd c) = CustomCursor.innerX c
  /\ CustomCursor.innerY (CustomCursor.animate rnd c) = CustomCursor.innerY c
  /\ CustomCursor.easeAmount (CustomCursor.animate rnd c) = CustomCursor.easeAmount c.
Proof.
  unfold CustomCursor.animate. simpl. destruct (CustomCursor.outerCursor c); auto.
Qed.

Lemma frames_easeAmount (rnd : Q -> Q) (n : nat) (c : CustomCursor.cursor) :
  CustomCursor.easeAmount (frames rnd n c) = CustomCursor.easeAmount c.
Proof.
  induction n as [|n IH]; [reflexivity|].
  unfold frames in *. simpl. now rewrite (proj2 (proj2 (animate_pointer rnd _))).
Qed.

Open Scope R_scope.

Lemma distance_nonneg (c : CustomCursor.cursor) : 0 <= CustomCursor.distance c.
Proof. apply sqrt_pos. Qed.

Lemma distance_zero_iff (c : CustomCursor.cursor) :
  CustomCursor.distance c = 0 <-> follower_at_pointer c.
Proof.
  unfold CustomCursor.distance, follower_at_pointer.
  set (dx := Q2R (CustomCursor.innerX c) - Q2R (CustomCursor.outerX c)).
  set (dy := Q2R (CustomCursor.innerY c) - Q2R (CustomCursor.outerY c)).
  split.
  - intros H. apply sqrt_eq_0 in H; [|nra].
    assert (dx = 0 /\ dy = 0) as [Hx Hy] by (split; nra).
    unfold dx, dy in Hx, Hy.
    split; apply eqR_Qeq; lra.
  - intros [Hx Hy]. apply Qeq_eqR in Hx, Hy.
    replace (dx ^ 2 + dy ^ 2) with 0 by (unfold dx, dy; rewrite Hx, Hy; ring).
    apply sqrt_0.
Qed.

(** *** The follower in doubles *)

Lemma animate_outer (rnd : Q -> Q) (c : CustomCursor.cursor) :
  CustomCursor.outerX (CustomCursor.animate rnd c)
  = CustomCursor.ease rnd (CustomCursor.innerX c) (CustomCursor.outerX c)
      (CustomCursor.easeAmount c)
  /\ CustomCursor.outerY (CustomCursor.animate rnd c)
     = CustomCursor.ease rnd (CustomCursor.innerY c) (CustomCursor.outerY c)
         (CustomCursor.easeAmount c).
Proof.
  unfold CustomCursor.animate. simpl. destruct (CustomCursor.outerCursor c); auto.
Qed.

(** A coordinate of the follower stays between its old value and the
    pointer. *)
Lemma ease_between (inner outer : Q) :
  is_double inner -> is_double outer ->
  let outer' := CustomCursor.ease binary64 inner outer (binary64 (12 # 100)) in
  is_double outer'
  /\ (Q2R inner - Q2R outer') ^ 2 <= (Q2R inner - Q2R outer) ^ 2.
Proof.
  intros Hi Ho outer'. split; [apply binary64_is_double|].
  destruct (Qlt_le_dec inner outer) as [Hlt|Hle].
  - destruct (ease_between_down inner outer Hi Ho (Qlt_le_weak _ _ Hlt)) as [H1 H2].
    fold outer' in H1, H2. apply Qle_Rle in H1, H2. nra.
  - destruct (ease_between_up inner outer Hi Ho Hle) as [H1 H2].
    fold outer' in H1, H2. apply Qle_Rle in H1, H2. nra.
Qed.

Lemma animate_binary64_step (c : CustomCursor.cursor) :
  double_positions c ->
  CustomCursor.easeAmount c = num_lit binary64 (12 # 100) ->
  double_positions (CustomCursor.animate binary64 c)
  /\ CustomCursor.distance (CustomCursor.animate binary64 c) <= CustomCursor.distance c.
Proof.
  intros (Hix & Hiy & Hox & Hoy) He.
  destruct (animate_pointer binary64 c) as (Ex & Ey & _).
  destruct (animate_outer binary64 c) as (Eox & Eoy).
  rewrite He in Eox, Eoy. unfold num_lit in Eox, Eoy.
  destruct (ease_between _ _ Hix Hox) as [Dx Sx].
  destruct (ease_between _ _ Hiy Hoy) as [Dy Sy].
  cbv zeta in Dx, Sx, Dy, Sy.
  unfold double_positions, CustomCursor.distance.
  rewrite Ex, Ey, Eox, Eoy. split; [tauto|].
  apply sqrt_le_1_alt. lra.
Qed.

Lemma ease_within (inner outer M : Q) :
  is_double inner -> is_double outer ->
  (- M <= inner <= M)%Q -> (- M <= outer <= M)%Q ->
  (- M <= CustomCursor.ease binary64 inner outer (binary64 (12 # 100)) <= M)%Q.
Proof.
  intros Di Do Hi Ho.
  destruct (Qlt_le_dec inner outer) as [Hlt|Hle].
  - pose proof (ease_between_down inner outer Di Do (Qlt_le_weak _ _ Hlt)) as Hd. lra.
  - pose proof (ease_between_up inner outer Di Do Hle) as Hu. lra.
Qed.

(** The triangle inequality of the Euclidean norm of the plane. *)
Lemma norm_triangle (a b e f : R) :
  sqrt ((a + e) ^ 2 + (b + f) ^ 2) <= sqrt (a ^ 2 + b ^ 2) + sqrt (e ^ 2 + f ^ 2).
Proof.
  set (A := sqrt (a ^ 2 + b ^ 2)). set (B := sqrt (e ^ 2 + f ^ 2)).
  assert (HA : 0 <= A) by apply sqrt_pos.
  assert (HB : 0 <= B) by apply sqrt_pos.
  assert (EA : A * A = a ^ 2 + b ^ 2) by (apply sqrt_sqrt; nra).
  assert (EB : B * B = e ^ 2 + f ^ 2) by (apply sqrt_sqrt; nra).
  assert (Hcs : a * e + b * f <= A * B).
  { destruct (Rle_lt_dec (a * e + b * f) (A * B)) as [H|H]; [exact H|].
    exfalso.
    assert (H0 : 0 <= A * B) by (apply Rmult_le_pos; assumption).
    assert (H1 : (A * B) * (A * B) < (a * e + b * f) * (a * e + b * f)).
    { clear - H H0. set (p := A * B) in *. set (q := a * e + b * f) in *.
      clearbody p q. nra. }
    assert (H2 : (A * B) * (A * B) = (a ^ 2 + b ^ 2) * (e ^ 2 + f ^ 2)).
    { rewrite <- EA, <- EB. ring. }
    pose proof (Rle_0_sqr (a * f - b * e)) as H3. unfold Rsqr in H3.
    assert (H4 : (a ^ 2 + b ^ 2) * (e ^ 2 + f ^ 2)
                 = (a * e + b * f) * (a * e + b * f) + (a * f - b * e) * (a * f - b * e))
      by ring.
    lra. }
  rewrite <- (sqrt_square (A + B)) by lra.
  apply sqrt_le_1_alt. nra.
Qed.

Lemma norm_scale (k a b : R) :
  0 <= k -> sqrt ((k * a) ^ 2 + (k * b) ^ 2) = k * sqrt (a ^ 2 + b ^ 2).
Proof.
  intros Hk. replace ((k * a) ^ 2 + (k * b) ^ 2) with (k * k * (a ^ 2 + b ^ 2)) by ring.
  rewrite sqrt_mult by nra. now rewrite sqrt_square.
Qed.

Lemma norm_small (e f r : R) :
  - r <= e <= r -> - r <= f <= r -> sqrt (e ^ 2 + f ^ 2) <= 2 * r.
Proof.
  intros He Hf. assert (Hr : 0 <= r) by lra.
  rewrite <- (sqrt_square (2 * r)) by lra.
  apply sqrt_le_1_alt. nra.
Qed.

(** A vector that is 0.88 of another up to [r] in each coordinate has
    0.88 of its length up to [2 r]. *)
Lemma norm_step (vx vy wx wy r : R) :
  - r <= wx - 88 / 100 * vx <= r -> - r <= wy - 88 / 100 * vy <= r ->
  - (2 * r) <= sqrt (wx ^ 2 + wy ^ 2) - 88 / 100 * sqrt (vx ^ 2 + vy ^ 2) <= 2 * r.
Proof.
  intros Hx Hy.
  set (ex := wx - 88 / 100 * vx) in *. set (ey := wy - 88 / 100 * vy) in *.
  pose proof (norm_small ex ey r Hx Hy) as He.
  assert (He' : sqrt ((- ex) ^ 2 + (- ey) ^ 2) <= 2 * r).
  { replace ((- ex) ^ 2 + (- ey) ^ 2) with (ex ^ 2 + ey ^ 2) by ring. exact He. }
  rewrite <- (norm_scale (88 / 100) vx vy) by lra.
  pose proof (norm_triangle (88 / 100 * vx) (88 / 100 * vy) ex ey) as H1.
  replace (88 / 100 * vx + ex) with wx in H1 by (unfold ex; ring).
  replace (88 / 100 * vy + ey) with wy in H1 by (unfold ey; ring).
  pose proof (norm_triangle wx wy (- ex) (- ey)) as H2.
  replace (wx + - ex) with (88 / 100 * vx) in H2 by (unfold ex; ring).
  replace (wy + - ey) with (88 / 100 * vy) in H2 by (unfold ey; ring).
  lra.
Qed.

Lemma Q2R_88 : Q2R (88 # 100) = 88 / 100.
Proof. unfold Q2R. simpl. lra. Qed.

(** One frame in doubles, from positions that are doubles within [M]. *)
Lemma animate_binary64_error (c : CustomCursor.cursor) (M : Q) :
  double_positions c -> positions_within M c -> (M <= 2 ^ 1022)%Q ->
  CustomCursor.easeAmount c = num_lit binary64 (12 # 100) ->
  let c' := CustomCursor.animate binary64 c in
  double_positions c' /\ positions_within M c' /\ frame_finite c
  /\ CustomCursor.distance c' <= CustomCursor.distance c
  /\ - (2 * Q2R (rounding_level M))
     <= CustomCursor.distance c' - 88 / 100 * CustomCursor.distance c
     <= 2 * Q2R (rounding_level M).
Proof.
  intros Hd Hw HM He c'.
  destruct (animate_binary64_step c Hd He) as (Hd' & Hle). fold c' in Hd', Hle.
  destruct Hd as (Dix & Diy & Dox & Doy). destruct Hw as (Wix & Wiy & Wox & Woy).
  destruct (animate_pointer binary64 c) as (Ex & Ey & _).
  destruct (animate_outer binary64 c) as (Eox & Eoy).
  fold c' in Ex, Ey, Eox, Eoy.
  rewrite He in Eox, Eoy. unfold num_lit in Eox, Eoy.
  split; [exact Hd'|]. split; [|split; [|split; [exact Hle|]]].
  - unfold positions_within. rewrite Ex, Ey, Eox, Eoy.
    split; [exact Wix|]. split; [exact Wiy|].
    split; now apply ease_within.
  - unfold frame_finite. rewrite He. unfold num_lit.
    split; now apply (ease_in_range _ _ M).
  - pose proof (ease_error _ _ M Wix Wox) as Hx.
    pose proof (ease_error _ _ M Wiy Woy) as Hy.
    cbv zeta in Hx, Hy. rewrite <- Eox in Hx. rewrite <- Eoy in Hy.
    fold (rounding_level M) in Hx, Hy.
    destruct Hx as [Hx1 Hx2]. destruct Hy as [Hy1 Hy2].
    apply Qle_Rle in Hx1, Hx2, Hy1, Hy2.
    rewrite Q2R_opp in Hx1, Hy1.
    rewrite !Q2R_minus, Q2R_mult, Q2R_minus, Q2R_88 in Hx1, Hx2, Hy1, Hy2.
    unfold CustomCursor.distance. rewrite Ex, Ey.
    apply norm_step; split; assumption.
Qed.

Lemma rounding_level_nonneg (M : Q) (c : CustomCursor.cursor) :
  positions_within M c -> 0 <= Q2R (rounding_level M).
Proof.
  intros (Hx & _). unfold rounding_level.
  pose proof (two_power_pos (-1075)) as Pg.
  assert (H : (0 <= M * (1 # 4503599627370496) + 3 * 2 ^ (-1075))%Q).
  { remember (2 ^ (-1075))%Q as g. clear - Hx Pg. lra. }
  apply Qle_Rle in H. replace (Q2R 0) with 0 in H by (unfold Q2R; simpl; lra). exact H.
Qed.

(** What every frame keeps, in doubles: the positions are doubles
    within [M], and the ease amount is the one of the constructor. *)
Lemma frames_binary64_invariant (c : CustomCursor.cursor) (M : Q) (n : nat) :
  double_positions c -> positions_within M c -> (M <= 2 ^ 1022)%Q ->
  CustomCursor.easeAmount c = num_lit binary64 (12 # 100) ->
  double_positions (frames binary64 n c)
  /\ positions_within M (frames binary64 n c)
  /\ CustomCursor.easeAmount (frames binary64 n c) = num_lit binary64 (12 # 100).
Proof.
  intros Hd Hw HM He. induction n as [|n (I1 & I2 & I3)]; [auto|].
  change (frames binary64 (S n) c) with (CustomCursor.animate binary64 (frames binary64 n c)).
  destruct (animate_binary64_error _ M I1 I2 HM I3) as (J1 & J2 & _).
  split; [exact J1|]. split; [exact J2|].
  now rewrite (proj2 (proj2 (animate_pointer binary64 _))).
Qed.

(** C3, as the code has it, in doubles, for a pointer at rest and
    positions that are doubles up to 2^1022 in magnitude (where the
    frames do not overflow): the distance from the follower to the
    pointer never grows; each frame multiplies it by 0.88 up to the
    rounding of the frame, so that it decreases strictly as long as it
    is above the level of the rounding; and it comes, and stays, as
    close to that level as one likes.  It need not reach zero. *)
Theorem follower_distance_decays (c : CustomCursor.cursor) (M : Q) :
  double_positions c -> positions_within M c -> (M <= 2 ^ 1022)%Q ->
  CustomCursor.easeAmount c = num_lit binary64 (12 # 100) ->
  let rho := Q2R (rounding_level M) in
  (forall n : nat,
      frame_finite (frames binary64 n c)
      /\ CustomCursor.distance (frames binary64 (S n) c)
         <= CustomCursor.distance (frames binary64 n c)
      /\ Rabs (CustomCursor.distance (frames binary64 (S n) c)
               - (1 - 12 / 100) * CustomCursor.distance (frames binary64 n c))
         <= 2 * rho
      /\ (17 * rho < CustomCursor.distance (frames binary64 n c) ->
          CustomCursor.distance (frames binary64 (S n) c)
          < CustomCursor.distance (frames binary64 n c)))
  /\ (forall n : nat,
        CustomCursor.distance (frames binary64 n c)
        <= (88 / 100) ^ n * CustomCursor.distance c + 17 * rho)
  /\ (forall eps : R, 0 < eps ->
        exists N : nat, forall n : nat, (N <= n)%nat ->
          CustomCursor.distance (frames binary64 n c) < 17 * rho + eps).
Proof.
  intros Hd Hw HM He rho.
  assert (Hrho : 0 <= rho) by (apply (rounding_level_nonneg M c); exact Hw).
  assert (Hstep : forall n : nat,
             frame_finite (frames binary64 n c)
             /\ CustomCursor.distance (frames binary64 (S n) c)
                <= CustomCursor.distance (frames binary64 n c)
             /\ - (2 * rho)
                <= CustomCursor.distance (frames binary64 (S n) c)
                   - 88 / 100 * CustomCursor.distance (frames binary64 n c)
                <= 2 * rho).
  { intros n. destruct (frames_binary64_invariant c M n Hd Hw HM He) as (I1 & I2 & I3).
    destruct (animate_binary64_error _ M I1 I2 HM I3) as (_ & _ & J3 & J4 & J5).
    auto. }
  assert (Hgeo : forall n : nat,
             CustomCursor.distance (frames binary64 n c)
             <= (88 / 100) ^ n * (CustomCursor.distance c - 50 / 3 * rho) + 50 / 3 * rho).
  { induction n as [|n IH]; [simpl; lra|].
    destruct (Hstep n) as (_ & _ & Hn).
    simpl pow. lra. }
  assert (Hbound : forall n : nat,
             CustomCursor.distance (frames binary64 n c)
             <= (88 / 100) ^ n * CustomCursor.distance c + 17 * rho).
  { intros n. specialize (Hgeo n).
    assert (Hp : 0 <= (88 / 100) ^ n) by (apply pow_le; lra). nra. }
  split; [|split; [exact Hbound|]].
  - intros n. destruct (Hstep n) as (H1 & H2 & H3).
    split; [exact H1|]. split; [exact H2|].
    replace (1 - 12 / 100) with (88 / 100) by lra. split; [apply Rabs_le; exact H3|].
    intros Hfar. lra.
  - intros eps Heps.
    pose proof (distance_nonneg c) as Hd0.
    destruct (pow_lt_1_zero (88 / 100)) with (y := eps / (CustomCursor.distance c + 1))
      as [N HN].
    + rewrite Rabs_pos_eq; lra.
    + apply Rdiv_lt_0_compat; lra.
    + exists N. intros n Hn. specialize (Hbound n).
      specialize (HN n Hn). rewrite Rabs_pos_eq in HN by (apply pow_le; lra).
      assert (Hp : 0 <= (88 / 100) ^ n) by (apply pow_le; lra).
      apply (Rmult_lt_compat_r (CustomCursor.distance c + 1)) in HN; [|lra].
      unfold Rdiv in HN. rewrite Rmult_assoc, Rinv_l, Rmult_1_r in HN by lra.
      nra.
Qed.

Lemma distance_same_positions (c c' : CustomCursor.cursor) :
  (CustomCursor.innerX c == CustomCursor.innerX c')%Q ->
  (CustomCursor.innerY c == CustomCursor.innerY c')%Q ->
  (CustomCursor.outerX c == CustomCursor.outerX c')%Q ->
  (CustomCursor.outerY c == CustomCursor.outerY c')%Q ->
  CustomCursor.distance c = CustomCursor.distance c'.
Proof.
  intros H1 H2 H3 H4. unfold CustomCursor.distance.
  now rewrite (Qeq_eqR _ _ H1), (Qeq_eqR _ _ H2), (Qeq_eqR _ _ H3), (Qeq_eqR _ _ H4).
Qed.

(** C3, counterexample, in doubles: the object as constructed has the
    follower on the pointer, and a frame leaves the distance at zero;
    and with the pointer at (100, 50) the follower, started at (0, 0),
    stops after 274 frames short of the pointer, the distance staying
    what it is; and with the pointer at the largest double and the
    follower at its opposite, the subtraction of a frame is beyond the
    largest double, where the code has Infinity and no distance that
    shrinks. *)
Lemma follower_distance_counterexample :
  (let c := CustomCursor.fresh binary64 (Some CustomCursor.plain_marker)
              (Some CustomCursor.plain_marker) in
   CustomCursor.distance c = 0
   /\ CustomCursor.distance (CustomCursor.animate binary64 c) = 0
   /\ ~ CustomCursor.distance (CustomCursor.animate binary64 c) < CustomCursor.distance c)
  /\ (let c := frames binary64 274 sample_cursor64 in
      ~ follower_at_pointer c
      /\ CustomCursor.distance (CustomCursor.animate binary64 c) = CustomCursor.distance c
      /\ ~ CustomCursor.distance (CustomCursor.animate binary64 c) < CustomCursor.distance c)
  /\ (let c := CustomCursor.set_outer_pos (- max_double) 0
                (CustomCursor.onMouseMove max_double 0
                   (CustomCursor.fresh binary64 (Some CustomCursor.plain_marker)
                      (Some CustomCursor.plain_marker))) in
      double_positions c
      /\ (max_double
          < js_sub binary64 (CustomCursor.innerX c) (CustomCursor.outerX c))%Q
      /\ ~ frame_finite c).
Proof.
  split; [|split].
  - intros c.
    assert (H0 : CustomCursor.distance c = 0).
    { apply distance_zero_iff. split; reflexivity. }
    assert (H1 : CustomCursor.distance (CustomCursor.animate binary64 c) = 0).
    { apply distance_zero_iff. split; vm_compute; reflexivity. }
    rewrite H0, H1. repeat split. lra.
  - intros c.
    assert (Hsame : CustomCursor.distance (CustomCursor.animate binary64 c)
                    = CustomCursor.distance c).
    { apply distance_same_positions; vm_compute; reflexivity. }
    split; [|split; [exact Hsame | rewrite Hsame; lra]].
    intros [Hx _]. vm_compute in Hx. discriminate Hx.
  - intros c.
    assert (Hov : (max_double
                   < js_sub binary64 (CustomCursor.innerX c) (CustomCursor.outerX c))%Q).
    { vm_compute. reflexivity. }
    split; [repeat split; vm_compute; reflexivity | split; [exact Hov |]].
    intros [[[_ Hle] _] _].
    exact (Qlt_not_le _ _ Hov Hle).
Qed.

Close Scope R_scope.

Section TouchDevices.
Variable rnd : Q -> Q.

Lemma dispatch_idle (c : CustomCursor.cursor) (e : CustomCursor.event) :
  CustomCursor.listeners c = [] -> CustomCursor.frame_requested c = false ->
  CustomCursor.dispatch rnd c e = c.
Proof.
  intros Hl Hf. destruct e as [t ty x y|]; cbn [CustomCursor.dispatch].
  - unfold CustomCursor.run_listeners. rewrite Hl. cbn [fold_left]. rewrite Hl.
    destruct t; [reflexivity|]. now destruct (CustomCursor.bubbles ty).
  - now rewrite Hf.
Qed.

Lemma run_idle (es : list CustomCursor.event) (c : CustomCursor.cursor) :
  CustomCursor.listeners c = [] -> CustomCursor.frame_requested c = false ->
  CustomCursor.run rnd es c = c.
Proof.
  intros Hl Hf. induction es as [|e es IH]; [reflexivity|].
  unfold CustomCursor.run in *. simpl. now rewrite dispatch_idle.
Qed.

Lemma positive_count_spec (v : option Z) :
  CustomCursor.positive_count v = true <-> exists n : Z, v = Some n /\ (0 < n)%Z.
Proof.
  destruct v as [n|]; simpl.
  - rewrite Z.ltb_lt. split; [intros H; now exists n | intros (m & [= ->] & H); exact H].
  - split; [discriminate | intros (m & H & _); discriminate].
Qed.

Lemma isTouchDevice_spec (d : CustomCursor.device) :
  CustomCursor.isTouchDevice d = true <-> touch_capable d.
Proof.
  unfold CustomCursor.isTouchDevice, touch_capable.
  rewrite !orb_true_iff, !positive_count_spec. tauto.
Qed.

(** C8. On a touch-capable device [init] returns at once: the
    constructed object has no listener and no animation frame requested,
    and whatever events follow, neither its fields nor the markers'
    styles change. *)
Theorem touch_device_cursor_inert (d : CustomCursor.device)
    (inner outer : option CustomCursor.marker) (interactive : list nat)
    (es : list CustomCursor.event) :
  touch_capable d ->
  let c := CustomCursor.constructor rnd d inner outer interactive in
  c = CustomCursor.fresh rnd inner outer
  /\ CustomCursor.listeners c = []
  /\ CustomCursor.frame_requested c = false
  /\ CustomCursor.run rnd es c = c.
Proof.
  intros Htouch c. subst c. apply isTouchDevice_spec in Htouch.
  unfold CustomCursor.constructor, CustomCursor.init.
  rewrite Htouch. repeat split. now apply run_idle.
Qed.

End TouchDevices.

(** ** Smooth scrolling *)

Section SmoothScrolling.
Variable querySelector : list N -> SmoothScroll.query_result.

Lemma enhancement_found (href : list N) (el : nat) :
  href <> lit "#" -> querySelector href = SmoothScroll.QueryElement el ->
  SmoothScroll.smoothScrollEnhancement querySelector href
  = SmoothScroll.done_with
      [SmoothScroll.PreventDefault;
       SmoothScroll.ScrollIntoView el
         {| SmoothScroll.behavior := lit "smooth";
            SmoothScroll.block := Some (lit "start") |}].
Proof.
  intros Hh Hq. unfold SmoothScroll.smoothScrollEnhancement.
  destruct (decide (href ≠ lit "#")); [|contradiction]. now rewrite Hq.
Qed.

Lemma enhancement_not_found (href : list N) :
  ~ SmoothScroll.target_exists querySelector href ->
  SmoothScroll.effects (SmoothScroll.smoothScrollEnhancement querySelector href) = [].
Proof.
  intros Hn. unfold SmoothScroll.smoothScrollEnhancement.
  destruct (decide (href ≠ lit "#")); [|reflexivity].
  destruct (querySelector href) eqn:Hq; try reflexivity.
  exfalso. apply Hn. now exists el.
Qed.

Lemma initSmoothScroll_effects (href : list N) :
  href <> lit "#" ->
  SmoothScroll.effects (SmoothScroll.initSmoothScroll querySelector href)
  = SmoothScroll.PreventDefault ::
    match querySelector href with
    | SmoothScroll.QueryElement el =>
        [SmoothScroll.ScrollIntoView el
           {| SmoothScroll.behavior := lit "smooth"; SmoothScroll.block := None |}]
    | _ => []
    end.
Proof.
  intros Hh. unfold SmoothScroll.initSmoothScroll.
  destruct (decide (href ≠ lit "#")); [|contradiction].
  destruct (querySelector href); reflexivity.
Qed.

(** C6, as the code has it: for a link [#...] other than ["#"], the
    handler of the first script cancels the default navigation and
    scrolls exactly when the target exists, and does nothing otherwise;
    the handler of [initSmoothScroll] cancels the default navigation in
    every case and scrolls exactly when the target exists. *)
Theorem smooth_scroll_handlers (href : list N) :
  href <> lit "#" ->
  let first := SmoothScroll.smoothScrollEnhancement querySelector href in
  let second := SmoothScroll.initSmoothScroll querySelector href in
  (SmoothScroll.cancels_default first <-> SmoothScroll.target_exists querySelector href)
  /\ (SmoothScroll.scrolls first <-> SmoothScroll.target_exists querySelector href)
  /\ (~ SmoothScroll.target_exists querySelector href -> SmoothScroll.effects first = [])
  /\ SmoothScroll.cancels_default second
  /\ (SmoothScroll.scrolls second <-> SmoothScroll.target_exists querySelector href)
  /\ (forall el, querySelector href = SmoothScroll.QueryElement el ->
        SmoothScroll.scrolls_to el first /\ SmoothScroll.scrolls_to el second).
Proof.
  intros Hh first second.
  assert (Hfirst : forall el, querySelector href = SmoothScroll.QueryElement el ->
            SmoothScroll.cancels_default first /\ SmoothScroll.scrolls first
            /\ SmoothScroll.scrolls_to el first).
  { intros el Hq. subst first.
    unfold SmoothScroll.cancels_default, SmoothScroll.scrolls, SmoothScroll.scrolls_to.
    rewrite (enhancement_found href el Hh Hq). simpl.
    split; [left|split; [reflexivity|]].
    eexists. split; [right; left|]; reflexivity. }
  assert (Hnone : ~ SmoothScroll.target_exists querySelector href ->
            SmoothScroll.effects first = []).
  { apply enhancement_not_found. }
  assert (Hdec : SmoothScroll.target_exists querySelector href
                 \/ ~ SmoothScroll.target_exists querySelector href).
  { unfold SmoothScroll.target_exists.
    destruct (querySelector href) as [| |el]; [right|right|left; now exists el];
      intros [el' ?]; discriminate. }
  assert (Hsecond : SmoothScroll.effects second
                    = SmoothScroll.PreventDefault ::
                      match querySelector href with
                      | SmoothScroll.QueryElement el =>
                          [SmoothScroll.ScrollIntoView el
                             {| SmoothScroll.behavior := lit "smooth";
                                SmoothScroll.block := None |}]
                      | _ => []
                      end).
  { now apply initSmoothScroll_effects. }
  repeat split.
  - intros Hc. destruct Hdec as [|Hn]; [assumption|].
    unfold SmoothScroll.cancels_default in Hc. rewrite (Hnone Hn) in Hc.
    now apply not_elem_of_nil in Hc.
  - intros [el Hq]. now apply (Hfirst el).
  - intros Hc. destruct Hdec as [|Hn]; [assumption|].
    unfold SmoothScroll.scrolls in Hc. rewrite (Hnone Hn) in Hc. discriminate.
  - intros [el Hq]. now apply (Hfirst el).
  - exact Hnone.
  - unfold SmoothScroll.cancels_default. rewrite Hsecond. left.
  - unfold SmoothScroll.scrolls, SmoothScroll.target_exists. rewrite Hsecond.
    destruct (querySelector href) as [| |el]; simpl; try discriminate.
    intros _. now exists el.
  - unfold SmoothScroll.scrolls, SmoothScroll.target_exists. rewrite Hsecond.
    intros [el ->]. reflexivity.
  - now apply (Hfirst el).
  - unfold SmoothScroll.scrolls_to. rewrite Hsecond, H.
    eexists. split; [right; left|]; reflexivity.
Qed.

End SmoothScrolling.

(** C6, counterexample: where nothing matches ["#missing"], the handler
    of [initSmoothScroll] still cancels the default navigation. *)
Lemma initSmoothScroll_cancels_without_target :
  let querySelector := fun _ : list N => SmoothScroll.QueryNull in
  ~ SmoothScroll.target_exists querySelector (lit "#missing")
  /\ SmoothScroll.cancels_default (SmoothScroll.initSmoothScroll querySelector (lit "#missing")).
Proof.
  intros querySelector. split.
  - intros [el H]. discriminate.
  - unfold SmoothScroll.cancels_default. vm_compute. left.
Qed.

(** ** The contact form *)

Lemma falsy_field (name : string) (entries : list (list N * list N)) :
  ContactForm.falsy (ContactForm.fromEntries entries !! lit name) = true
  <-> ContactForm.field name entries = [].
Proof.
  unfold ContactForm.field.
  destruct (ContactForm.fromEntries entries !! lit name) as [[|c v]|]; simpl;
    split; congruence.
Qed.

Lemma incomplete_spec (entries : list (list N * list N)) :
  let data := ContactForm.fromEntries entries in
  ContactForm.falsy (data !! lit "name") || ContactForm.falsy (data !! lit "email")
  || ContactForm.falsy (data !! lit "message") = true
  <-> incomplete entries.
Proof.
  intros data. subst data. unfold incomplete.
  rewrite !orb_true_iff, !falsy_field. tauto.
Qed.

Lemma initContactForm_incomplete (entries : list (list N * list N)) :
  incomplete entries ->
  ContactForm.initContactForm entries
  = [ContactForm.PreventDefault;
     ContactForm.ShowNotification
       (ContactForm.showNotification ContactForm.msg_fill_all (lit "error"))].
Proof.
  intros H. apply incomplete_spec in H. cbv zeta in H.
  unfold ContactForm.initContactForm. now rewrite H.
Qed.

(** C7. A submission with an empty message, or with any required field
    empty, shows an error toast and leaves the form as it is; the form is
    reset only when the three fields are filled and the address is valid. *)
Theorem contact_form_reset_only_when_valid (p : ContactForm.form_page) :
  let effects := ContactForm.initContactForm (ContactForm.fields p) in
  (incomplete (ContactForm.fields p) ->
     existsb ContactForm.is_error_toast effects = true
     /\ existsb ContactForm.is_reset effects = false
     /\ ContactForm.fields (ContactForm.submit p) = ContactForm.fields p
     /\ ContactForm.toasts (ContactForm.submit p)
        = ContactForm.toasts p
          ++ [{| ContactForm.textContent := ContactForm.msg_fill_all;
                 ContactForm.backgroundColor := ContactForm.color_error |}])
  /\ (existsb ContactForm.is_reset effects = true <->
      ~ incomplete (ContactForm.fields p)
      /\ isValidEmail (ContactForm.field "email" (ContactForm.fields p)) = true).
Proof.
  intros effects. split.
  - intros Hinc. subst effects. unfold ContactForm.submit.
    rewrite (initContactForm_incomplete _ Hinc). repeat split.
  - subst effects. unfold ContactForm.initContactForm.
    pose proof (incomplete_spec (ContactForm.fields p)) as Hspec. cbv zeta in Hspec.
    destruct (ContactForm.falsy _ || ContactForm.falsy _ || ContactForm.falsy _) eqn:Hf.
    + split; [discriminate|]. intros [Hn _]. exfalso. apply Hn, Hspec. reflexivity.
    + fold (ContactForm.field "email" (ContactForm.fields p)).
      destruct (isValidEmail (ContactForm.field "email" (ContactForm.fields p))) eqn:Hv.
      * split; [|reflexivity]. intros _. split; [|reflexivity].
        intros Hinc. apply Hspec in Hinc. discriminate.
      * split; [discriminate|]. intros [_ H]. discriminate.
Qed.

(** ** The model at work *)

Example toFixed_samples :
  toFixed (2345678 # 100000) 2 = lit "23.46"
  /\ toFixed (5 # 1000) 2 = lit "0.01"
  /\ toFixed (29996 # 1000) 2 = lit "30.00"
  /\ toFixed (- (1 # 1000)) 2 = lit "-0.00"
  /\ toFixed (12345 # 10) 0 = lit "1235".
Proof. repeat split; vm_compute; reflexivity. Qed.

Example parseFloat_samples :
  parseFloat exact (lit "23.46") = Finite (2346 # 100)
  /\ parseFloat exact (lit "  -1.5e2xyz") = Finite (- (1500 # 10))
  /\ parseFloat exact (lit ".5") = Finite (5 # 10)
  /\ parseFloat exact (lit "12.") = Finite (12 # 1)
  /\ parseFloat exact (lit "-Infinity") = Infinity true
  /\ parseFloat exact (lit ".") = NaN
  /\ parseFloat exact (lit "n/a") = NaN
  /\ parseFloat binary64 (lit "1e400") = Infinity false
  /\ parseFloat binary64 (lit "-1e309") = Infinity true
  /\ parseFloat binary64 (lit "1.7976931348623157e308") = Finite max_double
  /\ parseFloat binary64 (lit "1.7976931348623158e308") = Finite max_double
  /\ parseFloat binary64 (lit "1.7976931348623159e308") = Infinity false.
Proof. repeat split; vm_compute; reflexivity. Qed.

(** A draw of one half gives the middle of each range; the largest
    double below 1 gives a temperature that prints as 30.00. *)
Example mock_reading_samples :
  DataDashboard.mock_reading binary64 sample_clock 7 (1 # 2) (1 # 2) (1 # 2)
  = {| DataDashboard.temperature := lit "25.00";
       DataDashboard.humidity := lit "55.00";
       DataDashboard.pressure := lit "1015.50";
       DataDashboard.timestamp := lit "7" |}
  /\ DataDashboard.temperature
       (DataDashboard.mock_reading binary64 sample_clock 0
          (1 - 1 / 2 ^ 53) 0 0)
     = lit "30.00".
Proof. split; vm_compute; reflexivity. Qed.

(** A cycle with the endpoint out of reach: the stat box shows the mock
    temperature with its unit, and each history has one entry. *)
Example unreachable_endpoint_sample :
  let p := DataDashboard.cycle binary64 sample_random sample_clock
             DataDashboard.FetchRejects sample_page in
  DataDashboard.current_temp p = Some (lit "25.00" ++ ch_degree :: lit "C")
  /\ (exists q : Q,
        DataDashboard.h_temperature (DataDashboard.data p) = [Finite q] /\ (q == 25)%Q)
  /\ DataDashboard.h_timestamps (DataDashboard.data p) = [lit "1"]
  /\ DataDashboard.random_calls p = 6%nat.
Proof.
  intros p. split; [vm_compute; reflexivity|]. split.
  - eexists. split; vm_compute; reflexivity.
  - split; vm_compute; reflexivity.
Qed.

(** On a desktop the constructor registers three listeners on the
    document and two per interactive element, and runs the first frame. *)
Example desktop_cursor_sample :
  let c := CustomCursor.constructor binary64 desktop (Some CustomCursor.plain_marker)
             (Some CustomCursor.plain_marker) [1; 2]%nat in
  length (CustomCursor.listeners c) = 7%nat
  /\ CustomCursor.frame_requested c = true
  /\ ~ touch_capable desktop.
Proof.
  intros c. split; [reflexivity|]. split; [reflexivity|].
  intros [(n & [= <-] & H)|[(n & [=] & _)|[=]]]. lia.
Qed.

(** In doubles the first frame from (0, 0) towards (1, 0) leaves a
    distance that is not 0.88. *)
Example first_frame_in_doubles :
  Qeq_bool (1 - CustomCursor.ease binary64 1 0 (num_lit binary64 (12 # 100))) (88 # 100)
  = false
  /\ Qeq_bool (1 - CustomCursor.ease exact 1 0 (num_lit exact (12 # 100))) (88 # 100)
     = true.
Proof. split; vm_compute; reflexivity. Qed.

Example contact_form_samples :
  ContactForm.initContactForm
    [(lit "name", lit "Ada"); (lit "email", lit "ada@example.org"); (lit "message", lit "Hi")]
  = [ContactForm.PreventDefault;
     ContactForm.ShowNotification
       {| ContactForm.textContent := ContactForm.msg_thanks;
          ContactForm.backgroundColor := ContactForm.color_success |};
     ContactForm.Reset;
     ContactForm.ConsoleLog
       (ContactForm.fromEntries
          [(lit "name", lit "Ada"); (lit "email", lit "ada@example.org");
           (lit "message", lit "Hi")])]
  /\ ContactForm.initContactForm
       [(lit "name", lit "Ada"); (lit "email", lit "ada@example"); (lit "message", lit "Hi")]
     = [ContactForm.PreventDefault;
        ContactForm.ShowNotification
          {| ContactForm.textContent := ContactForm.msg_bad_email;
             ContactForm.backgroundColor := ContactForm.color_error |}].
Proof. split; vm_compute; reflexivity. Qed.

(** ** The properties at sample inputs *)

Lemma sample_random_unit : unit_interval sample_random.
Proof. intros k. unfold sample_random. split; [discriminate | reflexivity]. Qed.

Lemma histories_capped_fifo_witness :
  DataDashboard.data sample_page = no_history
  /\ length sample_readings = 21%nat
  /\ (length (DataDashboard.h_temperature
                (DataDashboard.data (DataDashboard.feed binary64 sample_readings sample_page)))
      <= 20)%nat
  /\ DataDashboard.data (DataDashboard.feed binary64 sample_readings sample_page)
     = columns binary64 (tl sample_readings).
Proof.
  pose proof (histories_capped_fifo binary64 sample_readings sample_page eq_refl) as [H1 H2].
  split; [reflexivity|]. split; [reflexivity|].
  split; [apply H1 | apply H2; reflexivity].
Defined.

Lemma sample_cursor64_doubles : double_positions sample_cursor64.
Proof. repeat split; vm_compute; reflexivity. Qed.

Lemma sample_cursor64_within : positions_within 100 sample_cursor64.
Proof. repeat split; vm_compute; discriminate. Qed.

Lemma hundred_in_range : (100 <= 2 ^ 1022)%Q.
Proof. vm_compute. discriminate. Qed.

Lemma follower_distance_decays_witness :
  double_positions sample_cursor64
  /\ positions_within 100 sample_cursor64
  /\ (100 <= 2 ^ 1022)%Q
  /\ CustomCursor.easeAmount sample_cursor64 = num_lit binary64 (12 # 100)
  /\ frame_finite (frames binary64 274 sample_cursor64)
  /\ (CustomCursor.distance (frames binary64 275 sample_cursor64)
      <= CustomCursor.distance (frames binary64 274 sample_cursor64))%R
  /\ (CustomCursor.distance (frames binary64 274 sample_cursor64)
      <= (88 / 100) ^ 274 * CustomCursor.distance sample_cursor64
         + 17 * Q2R (rounding_level 100))%R.
Proof.
  pose proof (follower_distance_decays sample_cursor64 100 sample_cursor64_doubles
                sample_cursor64_within hundred_in_range eq_refl) as (H1 & H2 & _).
  split; [exact sample_cursor64_doubles|]. split; [exact sample_cursor64_within|].
  split; [exact hundred_in_range|]. split; [reflexivity|].
  split; [exact (proj1 (H1 274%nat))|].
  split; [exact (proj1 (proj2 (H1 274%nat))) | exact (H2 274%nat)].
Defined.

Lemma generateMockData_within_ranges_witness :
  rounding binary64 /\ unit_interval sample_random
  /\ exists (d : DataDashboard.reading) (p' : DataDashboard.page),
       DataDashboard.generateMockData binary64 sample_random sample_clock sample_page
       = (DataDashboard.Normal d, p')
       /\ two_decimals_within 20 30 (DataDashboard.temperature d)
       /\ two_decimals_within 40 70 (DataDashboard.humidity d)
       /\ two_decimals_within 1013 1018 (DataDashboard.pressure d).
Proof.
  split; [exact binary64_rounding|]. split; [exact sample_random_unit|].
  exact (generateMockData_within_ranges binary64 sample_random sample_clock sample_page
           binary64_rounding sample_random_unit).
Defined.


Lemma smooth_scroll_handlers_witness :
  lit "#about" <> lit "#"
  /\ SmoothScroll.cancels_default
       (SmoothScroll.smoothScrollEnhancement sample_document (lit "#about"))
  /\ SmoothScroll.cancels_default
       (SmoothScroll.initSmoothScroll sample_document (lit "#about"))
  /\ SmoothScroll.scrolls_to 1
       (SmoothScroll.smoothScrollEnhancement sample_document (lit "#about"))
  /\ SmoothScroll.scrolls_to 1
       (SmoothScroll.initSmoothScroll sample_document (lit "#about")).
Proof.
  assert (Hne : lit "#about" <> lit "#") by (vm_compute; discriminate).
  pose proof (smooth_scroll_handlers sample_document (lit "#about") Hne)
    as (H1 & _ & _ & H4 & _ & H6).
  split; [exact Hne|].
  split; [apply H1; exists 1%nat; reflexivity|].
  split; [exact H4|].
  apply (H6 1%nat). reflexivity.
Defined.

Lemma contact_form_reset_only_when_valid_witness :
  incomplete (ContactForm.fields sample_form)
  /\ existsb ContactForm.is_error_toast
       (ContactForm.initContactForm (ContactForm.fields sample_form)) = true
  /\ existsb ContactForm.is_reset
       (ContactForm.initContactForm (ContactForm.fields sample_form)) = false
  /\ ContactForm.fields (ContactForm.submit sample_form) = ContactForm.fields sample_form.
Proof.
  assert (Hinc : incomplete (ContactForm.fields sample_form)).
  { right. right. vm_compute. reflexivity. }
  pose proof (proj1 (contact_form_reset_only_when_valid sample_form) Hinc)
    as (H1 & H2 & H3 & _).
  split; [exact Hinc|]. split; [exact H1|]. split; [exact H2 | exact H3].
Defined.

Lemma touch_device_cursor_inert_witness :
  touch_capable phone
  /\ CustomCursor.listeners
       (CustomCursor.constructor binary64 phone (Some CustomCursor.plain_marker)
          (Some CustomCursor.plain_marker) [1; 2]%nat) = []
  /\ CustomCursor.run binary64
       [CustomCursor.Mouse CustomCursor.Document CustomCursor.mousemove 10 20;
        CustomCursor.AnimationFrame]
       (CustomCursor.constructor binary64 phone (Some CustomCursor.plain_marker)
          (Some CustomCursor.plain_marker) [1; 2]%nat)
     = CustomCursor.constructor binary64 phone (Some CustomCursor.plain_marker)
         (Some CustomCursor.plain_marker) [1; 2]%nat.
Proof.
  assert (Htouch : touch_capable phone).
  { left. exists 5%Z. split; [reflexivity | lia]. }
  pose proof (touch_device_cursor_inert binary64 phone (Some CustomCursor.plain_marker)
                (Some CustomCursor.plain_marker) [1; 2]%nat
                [CustomCursor.Mouse CustomCursor.Document CustomCursor.mousemove 10 20;
                 CustomCursor.AnimationFrame] Htouch)
    as (_ & H2 & _ & H4).
  split; [exact Htouch|]. split; [exact H2 | exact H4].
Defined.

(** * Further properties *)

(** ** The dashboard over many cycles *)

Section Polling.
Variable rnd : Q -> Q.
Variable random : nat -> Q.
Variable toLocaleTimeString : nat -> list N.

Let cycle := DataDashboard.cycle rnd random toLocaleTimeString.
Let poll := DataDashboard.poll rnd random toLocaleTimeString.

Lemma poll_snoc (o : DataDashboard.fetch_outcome) (os : list DataDashboard.fetch_outcome)
    (p : DataDashboard.page) :
  poll (os ++ [o]) p = cycle o (poll os p).
Proof. unfold poll, DataDashboard.poll. now rewrite fold_left_app. Qed.

(** What [update_page] leaves alone. *)
Lemma update_page_rest (d : DataDashboard.reading) (p : DataDashboard.page) :
  DataDashboard.random_calls (DataDashboard.update_page rnd d p) = DataDashboard.random_calls p
  /\ DataDashboard.clock_reads (DataDashboard.update_page rnd d p) = DataDashboard.clock_reads p
  /\ DataDashboard.console (DataDashboard.update_page rnd d p) = DataDashboard.console p.
Proof.
  unfold DataDashboard.update_page, DataDashboard.updateChart. simpl.
  destruct (DataDashboard.chart p); auto.
Qed.

(** A cycle by cases: the reading that reaches [updateDashboard] and the
    page it reaches it on. *)
Lemma cycle_cases (o : DataDashboard.fetch_outcome) (p : DataDashboard.page) :
  exists (d : DataDashboard.reading) (q : DataDashboard.page),
    cycle o p = DataDashboard.update_page rnd d
                  (DataDashboard.add_call (DataDashboard.CallUpdateDashboard d) q)
    /\ display q = display p
    /\ DataDashboard.random_calls q = (DataDashboard.random_calls p + 3 * mock_generations o)%nat
    /\ DataDashboard.clock_reads q = (DataDashboard.clock_reads p + mock_generations o)%nat
    /\ DataDashboard.console q
       = DataDashboard.console p
         ++ match caught o with
            | Some e => [(lit "Using mock data:", e)]
            | None => []
            end
    /\ match o with
       | DataDashboard.FetchResolves true (DataDashboard.JsonValue d') => d = d'
       | _ => exists now k : nat,
                d = DataDashboard.mock_reading rnd toLocaleTimeString now
                      (random k) (random (S k)) (random (S (S k)))
       end.
Proof.
  unfold cycle, DataDashboard.cycle.
  destruct o as [| |[|] [|d]].
  - rewrite fetch_throws_run. cbv zeta. rewrite updateDashboard_run. cbn [snd].
    eexists _, _. split; [reflexivity|]. cbn.
    repeat split; try (f_equal; lia). eexists _, _; reflexivity.
  - rewrite fetch_rejects_run. cbv zeta. rewrite updateDashboard_run. cbn [snd].
    eexists _, _. split; [reflexivity|]. cbn.
    repeat split; try (f_equal; lia); try (now rewrite app_nil_r).
    eexists _, _; reflexivity.
  - rewrite fetch_bad_json_run. cbv zeta. rewrite updateDashboard_run. cbn [snd].
    eexists _, _. split; [reflexivity|]. cbn.
    repeat split; try (f_equal; lia). eexists _, _; reflexivity.
  - rewrite fetch_ok_run, updateDashboard_run. cbn [snd].
    exists d, p. split; [reflexivity|]. cbn.
    repeat split; try lia. now rewrite app_nil_r.
  - rewrite fetch_not_ok_run, updateDashboard_run. cbn [snd].
    eexists _, _. split; [reflexivity|]. cbn.
    repeat split; try (f_equal; lia); try (now rewrite app_nil_r).
    eexists _, _; reflexivity.
  - rewrite fetch_not_ok_run, updateDashboard_run. cbn [snd].
    eexists _, _. split; [reflexivity|]. cbn.
    repeat split; try (f_equal; lia); try (now rewrite app_nil_r).
    eexists _, _; reflexivity.
Qed.

Lemma display_eq (p q : DataDashboard.page) :
  display q = display p ->
  DataDashboard.data q = DataDashboard.data p
  /\ DataDashboard.chart q = DataDashboard.chart p
  /\ DataDashboard.current_temp q = DataDashboard.current_temp p
  /\ DataDashboard.current_humidity q = DataDashboard.current_humidity p
  /\ DataDashboard.current_pressure q = DataDashboard.current_pressure p.
Proof. unfold display. intros [= -> -> -> -> ->]. repeat split. Qed.

Lemma update_page_chart (d : DataDashboard.reading) (p : DataDashboard.page) :
  DataDashboard.chart (DataDashboard.update_page rnd d p)
  = option_map
      (fun c => chart_of (DataDashboard.update_page rnd d p) (S (DataDashboard.redraws c)))
      (DataDashboard.chart p).
Proof.
  destruct p as [h [c|] t hu pr r k co ca]; reflexivity.
Qed.

Lemma update_page_boxes (d : DataDashboard.reading) (p : DataDashboard.page) :
  DataDashboard.current_temp (DataDashboard.update_page rnd d p)
  = option_map (fun _ => DataDashboard.temperature d ++ ch_degree :: lit "C")
      (DataDashboard.current_temp p)
  /\ DataDashboard.current_humidity (DataDashboard.update_page rnd d p)
     = option_map (fun _ => DataDashboard.humidity d ++ lit "%")
         (DataDashboard.current_humidity p)
  /\ DataDashboard.current_pressure (DataDashboard.update_page rnd d p)
     = option_map (fun _ => DataDashboard.pressure d ++ lit " hPa")
         (DataDashboard.current_pressure p).
Proof.
  unfold DataDashboard.update_page, DataDashboard.updateChart. simpl.
  destruct (DataDashboard.chart p); auto.
Qed.

Lemma append_reading_length (d : DataDashboard.reading) (h : DataDashboard.histories) :
  length (DataDashboard.h_temperature (DataDashboard.append_reading rnd d h))
  = if (20 <=? length (DataDashboard.h_temperature h))%nat
    then length (DataDashboard.h_temperature h)
    else S (length (DataDashboard.h_temperature h)).
Proof.
  unfold DataDashboard.append_reading, DataDashboard.push, DataDashboard.shift.
  cbn [DataDashboard.h_temperature]. rewrite length_app. cbn [length].
  destruct (Nat.ltb_spec 20 (length (DataDashboard.h_temperature h) + 1)) as [Hlt|Hge];
    destruct (Nat.leb_spec 20 (length (DataDashboard.h_temperature h))) as [Hle|Hgt];
    cbn [DataDashboard.h_temperature]; try lia.
  - destruct (DataDashboard.h_temperature h); simpl in *; [lia|].
    rewrite length_app. simpl. lia.
  - rewrite length_app. simpl. lia.
Qed.

(** The entry a reading leaves at the end of each history. *)
Lemma last_push_shift {A : Type} (l : list A) (x : A) (b : bool) :
  (b = true -> (0 < length l)%nat) ->
  last (if b then DataDashboard.shift (DataDashboard.push l x) else DataDashboard.push l x)
  = Some x.
Proof.
  unfold DataDashboard.shift, DataDashboard.push. intros Hb.
  destruct b; [|apply last_snoc].
  destruct l as [|a l]; [specialize (Hb eq_refl); simpl in Hb; lia|]. apply last_snoc.
Qed.

Lemma append_reading_last (d : DataDashboard.reading) (h : DataDashboard.histories) :
  capped h ->
  let h' := DataDashboard.append_reading rnd d h in
  last (DataDashboard.h_temperature h') = Some (parseFloat rnd (DataDashboard.temperature d))
  /\ last (DataDashboard.h_humidity h') = Some (parseFloat rnd (DataDashboard.humidity d))
  /\ last (DataDashboard.h_pressure h') = Some (parseFloat rnd (DataDashboard.pressure d))
  /\ last (DataDashboard.h_timestamps h') = Some (DataDashboard.timestamp d).
Proof.
  intros (_ & H2 & H3 & H4). cbv zeta. unfold DataDashboard.append_reading.
  cbn [DataDashboard.h_temperature].
  set (b := (20 <? _)%nat).
  assert (Hb : b = true -> (0 < length (DataDashboard.h_temperature h))%nat).
  { subst b. intros Hb. apply Nat.ltb_lt in Hb.
    unfold DataDashboard.push in Hb. rewrite length_app in Hb. simpl in Hb. lia. }
  repeat split.
  - rewrite <- (last_push_shift (DataDashboard.h_temperature h) _ b Hb). now destruct b.
  - rewrite <- (last_push_shift (DataDashboard.h_humidity h) _ b) by (rewrite H2; exact Hb).
    now destruct b.
  - rewrite <- (last_push_shift (DataDashboard.h_pressure h) _ b) by (rewrite H3; exact Hb).
    now destruct b.
  - rewrite <- (last_push_shift (DataDashboard.h_timestamps h) _ b) by (rewrite H4; exact Hb).
    now destruct b.
Qed.

(** The page's histories after a cycle. *)
Lemma cycle_data (o : DataDashboard.fetch_outcome) (p : DataDashboard.page)
    (d : DataDashboard.reading) (q : DataDashboard.page) :
  cycle o p = DataDashboard.update_page rnd d
                (DataDashboard.add_call (DataDashboard.CallUpdateDashboard d) q) ->
  display q = display p ->
  DataDashboard.data (cycle o p) = DataDashboard.append_reading rnd d (DataDashboard.data p).
Proof.
  intros -> Hq. apply display_eq in Hq as (Hd & _).
  rewrite update_page_data. cbn. now rewrite Hd.
Qed.

(** X1. Along the polling, whatever the fetches do, each cycle adds one
    entry to each of the four histories until there are 20, and none
    afterwards: the four lengths stay equal, at the smaller of 20 and the
    number of entries and cycles so far. *)
Theorem poll_history_length (os : list DataDashboard.fetch_outcome) (p : DataDashboard.page) :
  capped (DataDashboard.data p) ->
  let h := DataDashboard.data (poll os p) in
  length (DataDashboard.h_temperature h)
  = Nat.min (length (DataDashboard.h_temperature (DataDashboard.data p)) + length os) 20
  /\ length (DataDashboard.h_humidity h) = length (DataDashboard.h_temperature h)
  /\ length (DataDashboard.h_pressure h) = length (DataDashboard.h_temperature h)
  /\ length (DataDashboard.h_timestamps h) = length (DataDashboard.h_temperature h).
Proof.
  intros Hp h. subst h.
  pose proof (poll_capped rnd random toLocaleTimeString os p Hp) as (_ & H2 & H3 & H4).
  fold poll in H2, H3, H4. split; [|auto].
  clear H2 H3 H4. induction os as [|o os IH] using rev_ind.
  - destruct Hp as (Hp & _). simpl. lia.
  - rewrite poll_snoc.
    destruct (cycle_cases o (poll os p))
      as (d & q & Hc & Hq & _).
    fold cycle in Hc. rewrite (cycle_data _ _ _ _ Hc Hq), append_reading_length, IH.
    rewrite length_app. cbn [length].
    destruct (Nat.leb_spec 20
                (Nat.min (length (DataDashboard.h_temperature (DataDashboard.data p))
                          + length os) 20)); lia.
Qed.

(** X2. When the page has a chart, after every cycle it shows the
    histories as they then are (labels, temperatures and humidities) and
    has been redrawn once per cycle; a page without a chart never gets
    one. *)
Theorem chart_follows_histories (o : DataDashboard.fetch_outcome)
    (os : list DataDashboard.fetch_outcome) (p : DataDashboard.page) :
  let q := poll (o :: os) p in
  DataDashboard.chart q
  = option_map (fun c => chart_of q (DataDashboard.redraws c + S (length os)))
      (DataDashboard.chart p).
Proof.
  cbv zeta. induction os as [|o' os IH] using rev_ind.
  - change (poll [o] p) with (cycle o p).
    destruct (cycle_cases o p) as (d & q & Hc & Hq & _).
    fold cycle in Hc. apply display_eq in Hq as (_ & Hq & _).
    rewrite Hc at 1. rewrite update_page_chart, <- Hc. cbn. rewrite Hq.
    destruct (DataDashboard.chart p); [|reflexivity].
    cbn. do 2 f_equal. lia.
  - change (o :: os ++ [o']) with ((o :: os) ++ [o']). rewrite poll_snoc.
    set (p' := poll (o :: os) p) in *.
    destruct (cycle_cases o' p') as (d & q & Hc & Hq & _).
    fold cycle in Hc. apply display_eq in Hq as (_ & Hq & _).
    rewrite Hc at 1. rewrite update_page_chart, <- Hc. cbn. rewrite Hq, IH.
    destruct (DataDashboard.chart p); [|reflexivity].
    cbn. do 2 f_equal. rewrite length_app. cbn. lia.
Qed.

(** X3. Every run of [generateMockData] costs three draws of
    [Math.random] and one reading of the clock, and a cycle runs it twice
    when the promise of [fetch] is rejected, not at all when a reading
    arrives, and once otherwise. *)
Theorem poll_mock_accounting (os : list DataDashboard.fetch_outcome) (p : DataDashboard.page) :
  let q := poll os p in
  let n := list_sum (List.map mock_generations os) in
  DataDashboard.random_calls q = (DataDashboard.random_calls p + 3 * n)%nat
  /\ DataDashboard.clock_reads q = (DataDashboard.clock_reads p + n)%nat.
Proof.
  cbv zeta. induction os as [|o os IH] using rev_ind.
  - simpl. lia.
  - rewrite poll_snoc, List.map_app, list_sum_app. cbn [List.map list_sum].
    destruct (cycle_cases o (poll os p))
      as (d & q & Hc & _ & Hr & Hk & _).
    fold cycle in Hc. rewrite Hc.
    destruct (update_page_rest d
                (DataDashboard.add_call (DataDashboard.CallUpdateDashboard d) q))
      as (-> & -> & _).
    cbn [DataDashboard.add_call DataDashboard.random_calls DataDashboard.clock_reads].
    rewrite Hr, Hk. destruct IH as [-> ->].
    change (list_sum [mock_generations o]) with (mock_generations o + 0)%nat. lia.
Qed.

(** X4. The console gets a line exactly for the cycles that end in the
    [catch] block, that is when the call of [fetch] throws or the body of
    a successful answer does not parse; a rejected promise and a status
    that is not a success fall back to mock data without a trace. *)
Theorem poll_console (os : list DataDashboard.fetch_outcome) (p : DataDashboard.page) :
  DataDashboard.console (poll os p) = DataDashboard.console p ++ console_trace os.
Proof.
  induction os as [|o os IH] using rev_ind.
  - simpl. now rewrite app_nil_r.
  - rewrite poll_snoc. unfold console_trace. rewrite flat_map_app. cbn [flat_map].
    fold (console_trace os). rewrite app_nil_r, app_assoc, <- IH.
    destruct (cycle_cases o (poll os p))
      as (d & q & Hc & _ & _ & _ & Hcon & _).
    fold cycle in Hc. rewrite Hc.
    destruct (update_page_rest d
                (DataDashboard.add_call (DataDashboard.CallUpdateDashboard d) q))
      as (_ & _ & ->).
    exact Hcon.
Qed.
(** The fields of a mock reading, as strings and as [parseFloat] reads
    them back. *)
Lemma mock_reading_fields (now : nat) (r1 r2 r3 : Q) :
  rounding rnd -> (0 <= r1 < 1)%Q -> (0 <= r2 < 1)%Q -> (0 <= r3 < 1)%Q ->
  let d := DataDashboard.mock_reading rnd toLocaleTimeString now r1 r2 r3 in
  (two_decimals_within 20 30 (DataDashboard.temperature d)
   /\ two_decimals_within 40 70 (DataDashboard.humidity d)
   /\ two_decimals_within 1013 1018 (DataDashboard.pressure d))
  /\ (number_within 20 30 (parseFloat rnd (DataDashboard.temperature d))
      /\ number_within 40 70 (parseFloat rnd (DataDashboard.humidity d))
      /\ number_within 1013 1018 (parseFloat rnd (DataDashboard.pressure d))).
Proof.
  intros Hrnd H1 H2 H3 d. subst d. unfold DataDashboard.mock_reading.
  cbn [DataDashboard.temperature DataDashboard.humidity DataDashboard.pressure].
  split; (split; [|split]).
  - apply (mock_field_within rnd Hrnd 20 10); try lia. exact H1.
  - apply (mock_field_within rnd Hrnd 40 30); try lia. exact H2.
  - apply (mock_field_within rnd Hrnd 1013 5); try lia. exact H3.
  - apply (mock_field_parses_within rnd Hrnd 20 10); try lia. exact H1.
  - apply (mock_field_parses_within rnd Hrnd 40 30); try lia. exact H2.
  - apply (mock_field_parses_within rnd Hrnd 1013 5); try lia. exact H3.
Qed.

(** The reading of a failed cycle is a mock reading. *)
Lemma failed_cycle_reading (o : DataDashboard.fetch_outcome) (p : DataDashboard.page) :
  fetch_failed o = true ->
  exists (d : DataDashboard.reading) (now k : nat),
    d = DataDashboard.mock_reading rnd toLocaleTimeString now
          (random k) (random (S k)) (random (S (S k)))
    /\ DataDashboard.data (cycle o p)
       = DataDashboard.append_reading rnd d (DataDashboard.data p)
    /\ DataDashboard.current_temp (cycle o p)
       = option_map (fun _ => DataDashboard.temperature d ++ ch_degree :: lit "C")
           (DataDashboard.current_temp p)
    /\ DataDashboard.current_humidity (cycle o p)
       = option_map (fun _ => DataDashboard.humidity d ++ lit "%")
           (DataDashboard.current_humidity p)
    /\ DataDashboard.current_pressure (cycle o p)
       = option_map (fun _ => DataDashboard.pressure d ++ lit " hPa")
           (DataDashboard.current_pressure p).
Proof.
  intros Hfail.
  destruct (cycle_cases o p) as (d & q & Hc & Hq & _ & _ & _ & Hd).
  fold cycle in Hc.
  assert (Hmock : exists now k : nat,
             d = DataDashboard.mock_reading rnd toLocaleTimeString now
                   (random k) (random (S k)) (random (S (S k)))).
  { destruct o as [| |[|] [|d']]; try exact Hd. discriminate Hfail. }
  destruct Hmock as (now & k & Hmock).
  exists d, now, k. split; [exact Hmock|].
  split; [exact (cycle_data _ _ _ _ Hc Hq)|].
  apply display_eq in Hq as (_ & _ & Ht & Hh & Hp).
  rewrite Hc.
  destruct (update_page_boxes d
              (DataDashboard.add_call (DataDashboard.CallUpdateDashboard d) q))
    as (-> & -> & ->).
  cbn [DataDashboard.add_call DataDashboard.current_temp DataDashboard.current_humidity
       DataDashboard.current_pressure].
  now rewrite Ht, Hh, Hp.
Qed.

(** X5. After a cycle without a reading (the fetch throws, is rejected,
    is answered with a status that is not a success, or with a body that
    does not parse) each stat box that exists shows a numeral with two
    decimals from the mock range, followed by its unit; a box the document
    lacks stays absent. *)
Theorem failed_cycle_readout (o : DataDashboard.fetch_outcome) (p : DataDashboard.page) :
  rounding rnd -> unit_interval random -> fetch_failed o = true ->
  exists t h pr : list N,
    two_decimals_within 20 30 t
    /\ two_decimals_within 40 70 h
    /\ two_decimals_within 1013 1018 pr
    /\ DataDashboard.current_temp (cycle o p)
       = option_map (fun _ => t ++ ch_degree :: lit "C") (DataDashboard.current_temp p)
    /\ DataDashboard.current_humidity (cycle o p)
       = option_map (fun _ => h ++ lit "%") (DataDashboard.current_humidity p)
    /\ DataDashboard.current_pressure (cycle o p)
       = option_map (fun _ => pr ++ lit " hPa") (DataDashboard.current_pressure p).
Proof.
  intros Hrnd Hrand Hfail.
  destruct (failed_cycle_reading o p Hfail) as (d & now & k & Hd & _ & Ht & Hh & Hp).
  destruct (mock_reading_fields now (random k) (random (S k)) (random (S (S k)))
              Hrnd (Hrand _) (Hrand _) (Hrand _)) as ((F1 & F2 & F3) & _).
  cbv zeta in F1, F2, F3. rewrite <- Hd in F1, F2, F3.
  exists (DataDashboard.temperature d), (DataDashboard.humidity d), (DataDashboard.pressure d).
  repeat split; assumption.
Qed.

Lemma Forall_push_shift {A : Type} (P : A -> Prop) (l : list A) (x : A) (b : bool) :
  Forall P l -> P x ->
  Forall P (if b then DataDashboard.shift (DataDashboard.push l x) else DataDashboard.push l x).
Proof.
  intros Hl Hx.
  assert (H : Forall P (DataDashboard.push l x)).
  { unfold DataDashboard.push. apply Forall_app. split; [exact Hl | now constructor]. }
  destruct b; [|exact H]. unfold DataDashboard.shift.
  destruct (DataDashboard.push l x); [constructor|]. now apply Forall_cons in H as [_ H].
Qed.

(** X6. While the endpoint stays out of reach, the chart only ever gets
    numbers from the mock ranges: from histories within the ranges (the
    empty ones of a new dashboard, say), after any number of cycles
    without a reading every temperature lies in [20,30], every humidity
    in [40,70] and every pressure in [1013,1018]. *)
Theorem offline_histories_within_ranges (os : list DataDashboard.fetch_outcome)
    (p : DataDashboard.page) :
  rounding rnd -> unit_interval random ->
  Forall (fun o => fetch_failed o = true) os ->
  within_mock_ranges (DataDashboard.data p) ->
  within_mock_ranges (DataDashboard.data (poll os p)).
Proof.
  intros Hrnd Hrand Hos Hp. induction os as [|o os IH] using rev_ind; [exact Hp|].
  apply Forall_app in Hos as [Hos Ho]. apply Forall_cons in Ho as [Ho _].
  specialize (IH Hos). rewrite poll_snoc.
  destruct (failed_cycle_reading o (poll os p) Ho) as (d & now & k & Hd & -> & _).
  destruct (mock_reading_fields now (random k) (random (S k)) (random (S (S k)))
              Hrnd (Hrand _) (Hrand _) (Hrand _)) as (_ & F1 & F2 & F3).
  cbv zeta in F1, F2, F3. rewrite <- Hd in F1, F2, F3.
  destruct IH as (I1 & I2 & I3).
  unfold within_mock_ranges, DataDashboard.append_reading.
  cbn [DataDashboard.h_temperature].
  set (b := (20 <? _)%nat).
  repeat split.
  - generalize (Forall_push_shift _ _ _ b I1 F1). now destruct b.
  - generalize (Forall_push_shift _ _ _ b I2 F2). now destruct b.
  - generalize (Forall_push_shift _ _ _ b I3 F3). now destruct b.
Qed.

(** X7. A reading that arrives is taken as it is: the stat boxes show its
    strings with the units appended, the histories get what [parseFloat]
    makes of them ([NaN] for a string that is no numeral, an infinity for
    a numeral beyond the largest double) and the timestamp, no mock
    reading is generated, and nothing is logged. *)
Theorem server_reading_recorded (d : DataDashboard.reading) (p : DataDashboard.page) :
  capped (DataDashboard.data p) ->
  let q := cycle (DataDashboard.FetchResolves true (DataDashboard.JsonValue d)) p in
  (last (DataDashboard.h_temperature (DataDashboard.data q))
   = Some (parseFloat rnd (DataDashboard.temperature d))
   /\ last (DataDashboard.h_humidity (DataDashboard.data q))
      = Some (parseFloat rnd (DataDashboard.humidity d))
   /\ last (DataDashboard.h_pressure (DataDashboard.data q))
      = Some (parseFloat rnd (DataDashboard.pressure d))
   /\ last (DataDashboard.h_timestamps (DataDashboard.data q))
      = Some (DataDashboard.timestamp d))
  /\ (DataDashboard.current_temp q
      = option_map (fun _ => DataDashboard.temperature d ++ ch_degree :: lit "C")
          (DataDashboard.current_temp p)
      /\ DataDashboard.current_humidity q
         = option_map (fun _ => DataDashboard.humidity d ++ lit "%")
             (DataDashboard.current_humidity p)
      /\ DataDashboard.current_pressure q
         = option_map (fun _ => DataDashboard.pressure d ++ lit " hPa")
             (DataDashboard.current_pressure p))
  /\ DataDashboard.calls q = DataDashboard.calls p ++ [DataDashboard.CallUpdateDashboard d]
  /\ DataDashboard.console q = DataDashboard.console p
  /\ (StrDecimalLiteral (DataDashboard.temperature d) = None ->
      last (DataDashboard.h_temperature (DataDashboard.data q)) = Some NaN)
  /\ (forall v : Q,
        StrDecimalLiteral (DataDashboard.temperature d) = Some (Finite v) ->
        ((Qabs (rnd v) <= max_double)%Q ->
         last (DataDashboard.h_temperature (DataDashboard.data q)) = Some (Finite (rnd v)))
        /\ ((max_double < Qabs (rnd v))%Q ->
            exists negative : bool,
              last (DataDashboard.h_temperature (DataDashboard.data q))
              = Some (Infinity negative))).
Proof.
  intros Hp q.
  assert (Hq : q = DataDashboard.update_page rnd d
                     (DataDashboard.add_call (DataDashboard.CallUpdateDashboard d) p)).
  { subst q. unfold cycle, DataDashboard.cycle. now rewrite fetch_ok_run, updateDashboard_run. }
  assert (Hdata : DataDashboard.data q
                  = DataDashboard.append_reading rnd d (DataDashboard.data p)).
  { rewrite Hq. now rewrite update_page_data. }
  pose proof (append_reading_last d (DataDashboard.data p) Hp) as Hlast.
  cbv zeta in Hlast. rewrite <- Hdata in Hlast.
  split; [exact Hlast|]. split; [|split; [|split]].
  - rewrite Hq.
    exact (update_page_boxes d
             (DataDashboard.add_call (DataDashboard.CallUpdateDashboard d) p)).
  - rewrite Hq. now rewrite update_page_calls.
  - rewrite Hq.
    now destruct (update_page_rest d
                    (DataDashboard.add_call (DataDashboard.CallUpdateDashboard d) p))
      as (_ & _ & ->).
  - destruct Hlast as (Hl & _). split.
    + intros Hnone. rewrite Hl. unfold parseFloat. now rewrite Hnone.
    + intros v Hv. rewrite Hl. unfold parseFloat, double_or_infinity. rewrite Hv. split.
      * intros Hin. apply Qle_bool_iff in Hin. now rewrite Hin.
      * intros Hout.
        destruct (Qle_bool (Qabs (rnd v)) max_double) eqn:Hb; [|eexists; reflexivity].
        apply Qle_bool_iff in Hb. exfalso. revert Hb. now apply Qlt_not_le.
Qed.

End Polling.
(** ** The cursor and its events *)

Section CursorEvents.
Variable rnd : Q -> Q.

(** What holds of the object when the handlers and the frames keep it. *)
Lemma run_invariant (P : CustomCursor.cursor -> Prop) :
  (forall c cb x y, P c -> P (CustomCursor.run_callback cb x y c)) ->
  (forall c, P c -> CustomCursor.frame_requested c = true ->
             P (CustomCursor.animate rnd (CustomCursor.set_frame_requested false c))) ->
  forall es c, P c -> P (CustomCursor.run rnd es c).
Proof.
  intros Hcb Hframe es. induction es as [|e es IH]; intros c Hc; [exact Hc|].
  unfold CustomCursor.run in *. cbn [fold_left]. apply IH.
  assert (Hl : forall t ty x y c, P c -> P (CustomCursor.run_listeners t ty x y c)).
  { clear - Hcb. intros t ty x y c Hc. unfold CustomCursor.run_listeners.
    generalize (CustomCursor.listeners c). intros L. revert c Hc.
    induction L as [|[[t' ty'] cb] L IHL]; intros c Hc; [exact Hc|].
    cbn [fold_left]. apply IHL. destruct (decide _); [now apply Hcb | exact Hc]. }
  destruct e as [t ty x y|]; cbn [CustomCursor.dispatch].
  - destruct t as [|el]; [now apply Hl|].
    destruct (CustomCursor.bubbles ty); [apply Hl|]; now apply Hl.
  - destruct (CustomCursor.frame_requested c) eqn:Hf; [now apply Hframe | exact Hc].
Qed.

Lemma addHoverListeners_fields (interactive : list nat) (c : CustomCursor.cursor) :
  let c' := CustomCursor.addHoverListeners interactive c in
  CustomCursor.listeners c'
  = CustomCursor.listeners c
    ++ flat_map (fun el => [(CustomCursor.Element el, CustomCursor.mouseenter,
                             CustomCursor.call_onElementHover);
                            (CustomCursor.Element el, CustomCursor.mouseleave,
                             CustomCursor.call_onElementLeave)]) interactive
  /\ CustomCursor.innerCursor c' = CustomCursor.innerCursor c
  /\ CustomCursor.outerCursor c' = CustomCursor.outerCursor c
  /\ CustomCursor.innerX c' = CustomCursor.innerX c
  /\ CustomCursor.innerY c' = CustomCursor.innerY c
  /\ CustomCursor.outerX c' = CustomCursor.outerX c
  /\ CustomCursor.outerY c' = CustomCursor.outerY c
  /\ CustomCursor.isHovering c' = CustomCursor.isHovering c
  /\ CustomCursor.easeAmount c' = CustomCursor.easeAmount c
  /\ CustomCursor.frame_requested c' = CustomCursor.frame_requested c.
Proof.
  cbv zeta. revert c. induction interactive as [|el l IH]; intros c.
  - simpl. rewrite app_nil_r. repeat split.
  - unfold CustomCursor.addHoverListeners in *. cbn [fold_left flat_map].
    destruct (IH (CustomCursor.addEventListener (CustomCursor.Element el)
                    CustomCursor.mouseleave CustomCursor.call_onElementLeave
                    (CustomCursor.addEventListener (CustomCursor.Element el)
                       CustomCursor.mouseenter CustomCursor.call_onElementHover c)))
      as (-> & -> & -> & -> & -> & -> & -> & -> & -> & ->).
    cbn. rewrite <- !app_assoc. repeat split.
Qed.

Lemma animate_keeps (c : CustomCursor.cursor) :
  CustomCursor.listeners (CustomCursor.animate rnd c) = CustomCursor.listeners c
  /\ CustomCursor.innerCursor (CustomCursor.animate rnd c) = CustomCursor.innerCursor c
  /\ CustomCursor.isHovering (CustomCursor.animate rnd c) = CustomCursor.isHovering c.
Proof.
  unfold CustomCursor.animate. simpl. destruct (CustomCursor.outerCursor c); auto.
Qed.

(** The object a browser without touch input constructs. *)
Lemma constructor_desktop (d : CustomCursor.device)
    (inner outer : option CustomCursor.marker) (interactive : list nat) :
  CustomCursor.isTouchDevice d = false ->
  let c := CustomCursor.constructor rnd d inner outer interactive in
  CustomCursor.listeners c = document_listeners ++ hover_listeners interactive
  /\ CustomCursor.innerCursor c = inner
  /\ CustomCursor.isHovering c = false
  /\ CustomCursor.easeAmount c = num_lit rnd (12 # 100)
  /\ match outer with
     | Some o =>
         CustomCursor.frame_requested c = true
         /\ CustomCursor.outerCursor c
            = Some (CustomCursor.with_position (CustomCursor.outerX c)
                      (CustomCursor.outerY c) o)
     | None =>
         CustomCursor.frame_requested c = false /\ CustomCursor.outerCursor c = None
     end.
Proof.
  intros Hd c. subst c. unfold CustomCursor.constructor, CustomCursor.init. rewrite Hd.
  set (c3 := CustomCursor.addEventListener _ _ _
               (CustomCursor.addEventListener _ _ _
                  (CustomCursor.addEventListener _ _ _ _))).
  destruct (addHoverListeners_fields interactive c3)
    as (Hl & Hi & Ho & Hix & Hiy & Hox & Hoy & Hh & He & Hf).
  destruct (animate_keeps (CustomCursor.addHoverListeners interactive c3)) as (-> & -> & ->).
  destruct (animate_pointer rnd (CustomCursor.addHoverListeners interactive c3))
    as (_ & _ & ->).
  rewrite Hl, Hi, Hh, He. repeat split.
  unfold CustomCursor.animate. cbn. rewrite !Ho.
  destruct outer as [o|]; cbn; rewrite ?Ho, ?Hf; cbn; split; reflexivity.
Qed.

(** No handler registers a listener or changes the ease amount. *)
Lemma run_keeps (es : list CustomCursor.event) (c : CustomCursor.cursor) :
  CustomCursor.listeners (CustomCursor.run rnd es c) = CustomCursor.listeners c
  /\ CustomCursor.easeAmount (CustomCursor.run rnd es c) = CustomCursor.easeAmount c
  /\ (is_Some (CustomCursor.innerCursor c) ->
      is_Some (CustomCursor.innerCursor (CustomCursor.run rnd es c)))
  /\ (CustomCursor.innerCursor c = None ->
      CustomCursor.innerCursor (CustomCursor.run rnd es c) = None).
Proof.
  apply (run_invariant
           (fun c' => CustomCursor.listeners c' = CustomCursor.listeners c
                      /\ CustomCursor.easeAmount c' = CustomCursor.easeAmount c
                      /\ (is_Some (CustomCursor.innerCursor c) ->
                          is_Some (CustomCursor.innerCursor c'))
                      /\ (CustomCursor.innerCursor c = None ->
                          CustomCursor.innerCursor c' = None))); [| |auto].
  - intros c' cb x y (Hl & He & Hi & Hn).
    destruct cb; cbn [CustomCursor.run_callback];
      unfold CustomCursor.onMouseMove, CustomCursor.onMouseEnter, CustomCursor.onMouseLeave,
        CustomCursor.onElementHover, CustomCursor.onElementLeave; cbn;
      destruct (CustomCursor.innerCursor c') eqn:Hic;
      destruct (CustomCursor.outerCursor c') eqn:Hoc; cbn;
      (split; [exact Hl|]); (split; [exact He|]);
      (split; [intros Hs; specialize (Hi Hs); try rewrite Hic; try exact Hi; eauto
              |intros Hs; specialize (Hn Hs); try rewrite Hic; try exact Hn;
               try discriminate Hn]).
  - intros c' (Hl & He & Hi & Hn) _.
    destruct (animate_keeps (CustomCursor.set_frame_requested false c')) as (-> & -> & _).
    destruct (animate_pointer rnd (CustomCursor.set_frame_requested false c')) as (_ & _ & ->).
    auto.
Qed.

(** X8. The hover flag and the class of the follower stay in step: on a
    device without touch input, with a follower that does not carry
    [cursor-hover] to begin with, after any events [isHovering] is true
    exactly when the follower carries the class. *)
Theorem hover_flag_matches_class (d : CustomCursor.device)
    (inner : option CustomCursor.marker) (o : CustomCursor.marker)
    (interactive : list nat) (es : list CustomCursor.event) :
  CustomCursor.isTouchDevice d = false ->
  cursor_hover ∉ CustomCursor.classList o ->
  let c := CustomCursor.run rnd es (CustomCursor.constructor rnd d inner (Some o) interactive) in
  CustomCursor.isHovering c = true <-> hover_shown c.
Proof.
  intros Hd Ho c.
  enough (H : exists o', CustomCursor.outerCursor c = Some o'
                         /\ (CustomCursor.isHovering c = true
                             <-> cursor_hover ∈ CustomCursor.classList o')).
  { destruct H as (o' & Ho' & H). unfold hover_shown. rewrite H. split.
    - intros Hin. now exists o'.
    - intros (o'' & Ho'' & Hin). congruence. }
  subst c.
  apply (run_invariant
           (fun c => exists o', CustomCursor.outerCursor c = Some o'
                                /\ (CustomCursor.isHovering c = true
                                    <-> cursor_hover ∈ CustomCursor.classList o'))).
  - intros c cb x y (o' & Ho' & H).
    destruct cb; cbn [CustomCursor.run_callback];
      unfold CustomCursor.onMouseMove, CustomCursor.onMouseEnter, CustomCursor.onMouseLeave,
        CustomCursor.onElementHover, CustomCursor.onElementLeave; cbn;
      destruct (CustomCursor.innerCursor c) eqn:Hic; cbn; rewrite ?Ho'; cbn;
      try (exists o'; split; [assumption | exact H]);
      try (eexists; split; [reflexivity|]; cbn; try exact H).
    + split; [intros _|reflexivity]. unfold CustomCursor.classList_add.
      destruct (decide _); [assumption|]. apply elem_of_app. right. now left.
    + split; [intros _|reflexivity]. unfold CustomCursor.classList_add.
      destruct (decide _); [assumption|]. apply elem_of_app. right. now left.
    + split; [discriminate|]. unfold CustomCursor.classList_remove.
      intros Hin. apply list_elem_of_filter in Hin as [Hne _]. now contradiction Hne.
    + split; [discriminate|]. unfold CustomCursor.classList_remove.
      intros Hin. apply list_elem_of_filter in Hin as [Hne _]. now contradiction Hne.
  - intros c (o' & Ho' & H) _. unfold CustomCursor.animate. cbn. rewrite Ho'.
    eexists. split; [reflexivity|]. cbn. exact H.
  - destruct (constructor_desktop d inner (Some o) interactive Hd)
      as (_ & _ & Hh & _ & _ & Hoc).
    eexists. split; [exact Hoc|]. rewrite Hh. cbn. split; [discriminate|].
    intros Hin. contradiction.
Qed.

(** An event runs nothing on listeners that do not match it. *)
Lemma fold_no_match (t : CustomCursor.target) (ty : CustomCursor.event_type) (x y : Q)
    (L : list (CustomCursor.target * CustomCursor.event_type * CustomCursor.callback))
    (c : CustomCursor.cursor) :
  Forall (fun l => ~ (l.1.1 = t /\ l.1.2 = ty)) L ->
  fold_left
    (fun c l =>
       match l with
       | (t', ty', cb) =>
           if decide (t' = t /\ ty' = ty) then CustomCursor.run_callback cb x y c else c
       end) L c = c.
Proof.
  intros HL. revert c. induction HL as [|[[t' ty'] cb] L Hl _ IH]; intros c; [reflexivity|].
  cbn [fold_left]. cbn in Hl. destruct (decide _); [contradiction | apply IH].
Qed.

Lemma hover_listeners_no_mousemove (interactive : list nat) (t : CustomCursor.target) :
  Forall (fun l => ~ (l.1.1 = t /\ l.1.2 = CustomCursor.mousemove))
    (hover_listeners interactive).
Proof.
  apply Forall_forall. intros l Hl. unfold hover_listeners in Hl.
  apply list_elem_of_In, in_flat_map in Hl as (el & _ & [<-|[<-|[]]]);
    cbn; intros [_ ?]; discriminate.
Qed.

(** The three listeners on the document keep the list of listeners. *)
Lemma onMouseMove_listeners (x y : Q) (c : CustomCursor.cursor) :
  CustomCursor.listeners (CustomCursor.onMouseMove x y c) = CustomCursor.listeners c.
Proof.
  unfold CustomCursor.onMouseMove. cbn.
  destruct (CustomCursor.innerCursor c); reflexivity.
Qed.

(** A move of the mouse runs [onMouseMove], once, on the document or,
    bubbling up to it, on any element. *)
Lemma dispatch_mousemove (interactive : list nat) (c : CustomCursor.cursor)
    (t : CustomCursor.target) (x y : Q) :
  CustomCursor.listeners c = document_listeners ++ hover_listeners interactive ->
  CustomCursor.dispatch rnd c (CustomCursor.Mouse t CustomCursor.mousemove x y)
  = CustomCursor.onMouseMove x y c.
Proof.
  intros Hl.
  assert (Hdoc : forall c', CustomCursor.listeners c'
                            = document_listeners ++ hover_listeners interactive ->
                 CustomCursor.run_listeners CustomCursor.Document CustomCursor.mousemove
                   x y c' = CustomCursor.onMouseMove x y c').
  { intros c' Hl'. unfold CustomCursor.run_listeners. rewrite Hl', fold_left_app.
    rewrite fold_no_match by apply hover_listeners_no_mousemove.
    unfold document_listeners. cbn [fold_left].
    repeat (destruct (decide _) as [[? ?]|?]; try discriminate; try tauto). }
  cbn [CustomCursor.dispatch CustomCursor.bubbles].
  destruct t as [|el]; [now apply Hdoc|].
  assert (Hel : CustomCursor.run_listeners (CustomCursor.Element el)
                  CustomCursor.mousemove x y c = c).
  { unfold CustomCursor.run_listeners. rewrite Hl. apply fold_no_match.
    apply Forall_app. split; [|apply hover_listeners_no_mousemove].
    unfold document_listeners. repeat constructor; cbn; intros [? _]; discriminate. }
  rewrite Hel. now apply Hdoc.
Qed.

(** Entering or leaving the element [el] runs the handler once for
    each time [el] is among the interactive elements. *)
Lemma dispatch_hover (interactive : list nat) (c : CustomCursor.cursor) (el : nat) (x y : Q) :
  CustomCursor.listeners c = document_listeners ++ hover_listeners interactive ->
  CustomCursor.dispatch rnd c
    (CustomCursor.Mouse (CustomCursor.Element el) CustomCursor.mouseenter x y)
  = Nat.iter (count_occ Nat.eq_dec interactive el) CustomCursor.onElementHover c
  /\ CustomCursor.dispatch rnd c
       (CustomCursor.Mouse (CustomCursor.Element el) CustomCursor.mouseleave x y)
     = Nat.iter (count_occ Nat.eq_dec interactive el) CustomCursor.onElementLeave c.
Proof.
  intros Hl. cbn [CustomCursor.dispatch CustomCursor.bubbles].
  unfold CustomCursor.run_listeners. rewrite Hl, !fold_left_app.
  rewrite !(fold_no_match _ _ _ _ document_listeners)
    by (unfold document_listeners; repeat constructor; cbn; intros [? _]; discriminate).
  clear Hl. split; revert c; induction interactive as [|el' l IH]; intros c;
    try reflexivity; cbn [hover_listeners flat_map app fold_left count_occ];
    fold (hover_listeners l);
    repeat (destruct (decide (_ /\ _)) as [[? ?]|?]; try discriminate);
    destruct (Nat.eq_dec el' el) as [->|Hne];
    try (exfalso; tauto); try congruence;
    cbn [CustomCursor.run_callback]; rewrite IH; try reflexivity;
    now rewrite Nat.iter_succ_r.
Qed.

(** X9. The inner marker has no lag: on a device without touch input
    and with an inner marker, whatever happened before, a move of the
    mouse to [(x, y)], over the document or over any element of it, puts
    the pointer position and the inner marker there at once, and leaves
    the follower where it was. *)
Theorem mousemove_places_inner_marker (d : CustomCursor.device)
    (m : CustomCursor.marker) (outer : option CustomCursor.marker)
    (interactive : list nat) (es : list CustomCursor.event)
    (t : CustomCursor.target) (x y : Q) :
  CustomCursor.isTouchDevice d = false ->
  let c := CustomCursor.run rnd es
             (CustomCursor.constructor rnd d (Some m) outer interactive) in
  let c' := CustomCursor.dispatch rnd c (CustomCursor.Mouse t CustomCursor.mousemove x y) in
  CustomCursor.innerX c' = x /\ CustomCursor.innerY c' = y
  /\ inner_drawn_at x y c'
  /\ CustomCursor.outerX c' = CustomCursor.outerX c
  /\ CustomCursor.outerY c' = CustomCursor.outerY c
  /\ CustomCursor.outerCursor c' = CustomCursor.outerCursor c.
Proof.
  intros Hd c c'.
  destruct (constructor_desktop d (Some m) outer interactive Hd) as (Hl & Hi & _).
  destruct (run_keeps es (CustomCursor.constructor rnd d (Some m) outer interactive))
    as (Hl' & _ & Hi' & _).
  fold c in Hl', Hi'. rewrite Hl in Hl'. rewrite Hi in Hi'.
  destruct (Hi' (mk_is_Some _ _ eq_refl)) as [m' Hm'].
  subst c'. rewrite (dispatch_mousemove interactive c t x y Hl').
  unfold CustomCursor.onMouseMove, inner_drawn_at. cbn. rewrite Hm'. cbn.
  repeat split. eexists. split; [reflexivity|]. split; reflexivity.
Qed.

(** X10. Entering an interactive element turns the hover flag on and
    leaving it turns the flag off, whatever happened before; an element
    that the selector list of [addHoverListeners] did not match changes
    nothing. *)
Theorem hover_follows_interactive_elements (d : CustomCursor.device)
    (inner outer : option CustomCursor.marker)
    (interactive : list nat) (es : list CustomCursor.event)
    (el : nat) (x y : Q) :
  CustomCursor.isTouchDevice d = false ->
  let c := CustomCursor.run rnd es
             (CustomCursor.constructor rnd d inner outer interactive) in
  let enter := CustomCursor.Mouse (CustomCursor.Element el) CustomCursor.mouseenter x y in
  let leave := CustomCursor.Mouse (CustomCursor.Element el) CustomCursor.mouseleave x y in
  (el ∈ interactive ->
   CustomCursor.isHovering (CustomCursor.dispatch rnd c enter) = true
   /\ CustomCursor.isHovering (CustomCursor.dispatch rnd c leave) = false)
  /\ (el ∉ interactive ->
      CustomCursor.dispatch rnd c enter = c /\ CustomCursor.dispatch rnd c leave = c).
Proof.
  intros Hd c enter leave.
  destruct (constructor_desktop d inner outer interactive Hd) as (Hl & _).
  destruct (run_keeps es (CustomCursor.constructor rnd d inner outer interactive))
    as (Hl' & _).
  fold c in Hl'. rewrite Hl in Hl'.
  destruct (dispatch_hover interactive c el x y Hl') as (He & Hv).
  subst enter leave. rewrite He, Hv. split.
  - intros Hin. apply list_elem_of_In, (count_occ_In Nat.eq_dec) in Hin.
    destruct (count_occ Nat.eq_dec interactive el) as [|n]; [lia|].
    cbn [Nat.iter]. unfold CustomCursor.onElementHover, CustomCursor.onElementLeave. cbn.
    split; match goal with |- context [CustomCursor.outerCursor ?z] =>
                   destruct (CustomCursor.outerCursor z) end; reflexivity.
  - intros Hout.
    assert (H0 : count_occ Nat.eq_dec interactive el = 0%nat).
    { apply count_occ_not_In. now rewrite <- list_elem_of_In. }
    rewrite H0. split; reflexivity.
Qed.

(** X11. Once started, the animation never stops, and the follower is
    drawn where the object holds it: on a device without touch input and
    with a follower, after any events a frame is requested and the
    follower's [left] and [top] are [outerX] and [outerY]. *)
Theorem follower_loop_persists (d : CustomCursor.device)
    (inner : option CustomCursor.marker) (o : CustomCursor.marker)
    (interactive : list nat) (es : list CustomCursor.event) :
  CustomCursor.isTouchDevice d = false ->
  let c := CustomCursor.run rnd es (CustomCursor.constructor rnd d inner (Some o) interactive) in
  CustomCursor.frame_requested c = true /\ follower_drawn c.
Proof.
  intros Hd c. subst c.
  apply (run_invariant
           (fun c => CustomCursor.frame_requested c = true /\ follower_drawn c)).
  - intros c cb x y (Hf & o' & Ho' & Hx & Hy). unfold follower_drawn.
    destruct cb; cbn [CustomCursor.run_callback];
      unfold CustomCursor.onMouseMove, CustomCursor.onMouseEnter, CustomCursor.onMouseLeave,
        CustomCursor.onElementHover, CustomCursor.onElementLeave; cbn;
      destruct (CustomCursor.innerCursor c) eqn:Hic; cbn; rewrite ?Ho'; cbn;
      (split; [exact Hf|]);
      first [ exists o'; split; [assumption | split; assumption]
            | eexists; split; [reflexivity|]; cbn; split; assumption ].
  - intros c (_ & o' & Ho' & _) _. unfold CustomCursor.animate, follower_drawn. cbn.
    rewrite Ho'. cbn. split; [reflexivity|]. eexists. split; [reflexivity|].
    split; reflexivity.
  - destruct (constructor_desktop d inner (Some o) interactive Hd)
      as (_ & _ & _ & _ & Hf & Hoc).
    split; [exact Hf|]. eexists. split; [exact Hoc|]. split; reflexivity.
Qed.

(** X12. Without a follower in the document the first [animate] throws
    before it requests a frame: no frame is ever requested, whatever
    events follow, and the position the object holds for the follower
    never changes again. *)
Theorem missing_follower_never_animates (d : CustomCursor.device)
    (inner : option CustomCursor.marker)
    (interactive : list nat) (es : list CustomCursor.event) :
  CustomCursor.isTouchDevice d = false ->
  let c0 := CustomCursor.constructor rnd d inner None interactive in
  let c := CustomCursor.run rnd es c0 in
  CustomCursor.frame_requested c = false
  /\ CustomCursor.outerCursor c = None
  /\ CustomCursor.outerX c = CustomCursor.outerX c0
  /\ CustomCursor.outerY c = CustomCursor.outerY c0.
Proof.
  intros Hd c0 c. subst c.
  apply (run_invariant
           (fun c => CustomCursor.frame_requested c = false
                     /\ CustomCursor.outerCursor c = None
                     /\ CustomCursor.outerX c = CustomCursor.outerX c0
                     /\ CustomCursor.outerY c = CustomCursor.outerY c0)).
  - intros c cb x y (Hf & Ho & Hx & Hy).
    destruct cb; cbn [CustomCursor.run_callback];
      unfold CustomCursor.onMouseMove, CustomCursor.onMouseEnter, CustomCursor.onMouseLeave,
        CustomCursor.onElementHover, CustomCursor.onElementLeave; cbn;
      destruct (CustomCursor.innerCursor c) eqn:Hic; cbn; rewrite ?Ho; cbn; auto.
  - intros c (Hf & _) Hf'. congruence.
  - destruct (constructor_desktop d inner None interactive Hd)
      as (_ & _ & _ & _ & Hf & Hoc).
    auto.
Qed.

End CursorEvents.
(** ** The follower in doubles *)

Lemma frames_S (rnd : Q -> Q) (n : nat) (c : CustomCursor.cursor) :
  frames rnd (S n) c = CustomCursor.animate rnd (frames rnd n c).
Proof. reflexivity. Qed.

Lemma frames_pointer (rnd : Q -> Q) (n : nat) (c : CustomCursor.cursor) :
  CustomCursor.innerX (frames rnd n c) = CustomCursor.innerX c
  /\ CustomCursor.innerY (frames rnd n c) = CustomCursor.innerY c.
Proof.
  induction n as [|n [IHx IHy]]; [split; reflexivity|].
  rewrite frames_S. destruct (animate_pointer rnd (frames rnd n c)) as (-> & -> & _).
  now split.
Qed.

Lemma frames_double_positions (n : nat) (c : CustomCursor.cursor) :
  double_positions c ->
  CustomCursor.easeAmount c = num_lit binary64 (12 # 100) ->
  double_positions (frames binary64 n c).
Proof.
  intros Hd He. induction n as [|n IH]; [exact Hd|].
  rewrite frames_S. apply animate_binary64_step; [exact IH|].
  now rewrite frames_easeAmount.
Qed.

Open Scope R_scope.

(** X13. In doubles the distance from the follower to a pointer at rest
    never grows: from positions that are doubles up to 2^1022 in
    magnitude, it is no larger after more frames than after fewer, and no
    operation of any frame overflows. *)
Theorem follower_distance_monotone_in_doubles (c : CustomCursor.cursor) (M : Q)
    (n m : nat) :
  double_positions c -> positions_within M c -> (M <= 2 ^ 1022)%Q ->
  CustomCursor.easeAmount c = num_lit binary64 (12 # 100) ->
  (n <= m)%nat ->
  CustomCursor.distance (frames binary64 m c) <= CustomCursor.distance (frames binary64 n c)
  /\ forall k : nat, frame_finite (frames binary64 k c).
Proof.
  intros Hd Hw HM He Hnm.
  assert (Hstep : forall k : nat,
             frame_finite (frames binary64 k c)
             /\ CustomCursor.distance (frames binary64 (S k) c)
                <= CustomCursor.distance (frames binary64 k c)).
  { intros k. destruct (frames_binary64_invariant c M k Hd Hw HM He) as (I1 & I2 & I3).
    destruct (animate_binary64_error _ M I1 I2 HM I3) as (_ & _ & J3 & J4 & _).
    auto. }
  split; [|intros k; apply Hstep].
  induction Hnm as [|m Hnm IH]; [apply Rle_refl|].
  eapply Rle_trans; [|exact IH]. apply Hstep.
Qed.

Close Scope R_scope.

(** X14. In doubles the follower never overshoots: with the pointer at
    rest and positions that are doubles up to 2^1022 in magnitude, each
    coordinate of the follower moves towards the pointer's, frame after
    frame, and never past it, and no operation of the frame overflows. *)
Theorem follower_never_overshoots (c : CustomCursor.cursor) (M : Q) (n : nat) :
  double_positions c -> positions_within M c -> (M <= 2 ^ 1022)%Q ->
  CustomCursor.easeAmount c = num_lit binary64 (12 # 100) ->
  let c1 := frames binary64 n c in
  let c2 := frames binary64 (S n) c in
  frame_finite c1
  /\ ((CustomCursor.outerX c <= CustomCursor.innerX c)%Q ->
      (CustomCursor.outerX c1 <= CustomCursor.outerX c2 <= CustomCursor.innerX c)%Q)
  /\ ((CustomCursor.innerX c <= CustomCursor.outerX c)%Q ->
      (CustomCursor.innerX c <= CustomCursor.outerX c2 <= CustomCursor.outerX c1)%Q)
  /\ ((CustomCursor.outerY c <= CustomCursor.innerY c)%Q ->
      (CustomCursor.outerY c1 <= CustomCursor.outerY c2 <= CustomCursor.innerY c)%Q)
  /\ ((CustomCursor.innerY c <= CustomCursor.outerY c)%Q ->
      (CustomCursor.innerY c <= CustomCursor.outerY c2 <= CustomCursor.outerY c1)%Q).
Proof.
  intros Hd Hw HM He c1 c2.
  assert (Hfin : frame_finite c1).
  { destruct (frames_binary64_invariant c M n Hd Hw HM He) as (I1 & I2 & I3).
    now destruct (animate_binary64_error _ M I1 I2 HM I3) as (_ & _ & J3 & _). }
  split; [exact Hfin|]. clear Hfin.
  assert (Hstep : forall k,
             let a := frames binary64 k c in
             let b := frames binary64 (S k) c in
             ((CustomCursor.outerX a <= CustomCursor.innerX c)%Q ->
              (CustomCursor.outerX a <= CustomCursor.outerX b <= CustomCursor.innerX c)%Q)
             /\ ((CustomCursor.innerX c <= CustomCursor.outerX a)%Q ->
                 (CustomCursor.innerX c <= CustomCursor.outerX b <= CustomCursor.outerX a)%Q)
             /\ ((CustomCursor.outerY a <= CustomCursor.innerY c)%Q ->
                 (CustomCursor.outerY a <= CustomCursor.outerY b <= CustomCursor.innerY c)%Q)
             /\ ((CustomCursor.innerY c <= CustomCursor.outerY a)%Q ->
                 (CustomCursor.innerY c <= CustomCursor.outerY b
                  <= CustomCursor.outerY a)%Q)).
  { intros k a b.
    destruct (frames_double_positions k c Hd He) as (Hix & Hiy & Hox & Hoy). fold a in Hix, Hiy, Hox, Hoy.
    destruct (frames_pointer binary64 k c) as (Ex & Ey). fold a in Ex, Ey.
    destruct (animate_outer binary64 a) as (Eox & Eoy).
    change (CustomCursor.animate binary64 a) with b in Eox, Eoy.
    assert (Ea : CustomCursor.easeAmount a = binary64 (12 # 100)).
    { unfold a. rewrite frames_easeAmount. exact He. }
    rewrite Ea, Ex in Eox. rewrite Ea, Ey in Eoy. rewrite Ex in Hix. rewrite Ey in Hiy.
    rewrite Eox, Eoy.
    split; [|split; [|split]]; intros Hle;
      first [ apply (ease_between_up _ _ Hix Hox Hle)
            | apply (ease_between_down _ _ Hix Hox Hle)
            | apply (ease_between_up _ _ Hiy Hoy Hle)
            | apply (ease_between_down _ _ Hiy Hoy Hle) ]. }
  assert (Hall : forall k,
             let a := frames binary64 k c in
             ((CustomCursor.outerX c <= CustomCursor.innerX c)%Q ->
              (CustomCursor.outerX a <= CustomCursor.innerX c)%Q)
             /\ ((CustomCursor.innerX c <= CustomCursor.outerX c)%Q ->
                 (CustomCursor.innerX c <= CustomCursor.outerX a)%Q)
             /\ ((CustomCursor.outerY c <= CustomCursor.innerY c)%Q ->
                 (CustomCursor.outerY a <= CustomCursor.innerY c)%Q)
             /\ ((CustomCursor.innerY c <= CustomCursor.outerY c)%Q ->
                 (CustomCursor.innerY c <= CustomCursor.outerY a)%Q)).
  { intros k. induction k as [|k IH]; [cbv zeta; simpl; tauto|].
    cbv zeta in IH |- *. destruct IH as (I1 & I2 & I3 & I4).
    destruct (Hstep k) as (S1 & S2 & S3 & S4). cbv zeta in S1, S2, S3, S4.
    split; [|split; [|split]]; intros H.
    - apply S1, I1, H.
    - apply S2, I2, H.
    - apply S3, I3, H.
    - apply S4, I4, H. }
  destruct (Hstep n) as (S1 & S2 & S3 & S4). cbv zeta in S1, S2, S3, S4.
  destruct (Hall n) as (A1 & A2 & A3 & A4). cbv zeta in A1, A2, A3, A4.
  subst c1 c2. split; [|split; [|split]]; intros H;
    first [ apply S1, A1, H | apply S2, A2, H | apply S3, A3, H | apply S4, A4, H ].
Qed.

(** ** [toFixed(2)] and [parseFloat], one after the other *)

(** X15. What [generateMockData] prints with [toFixed(2)],
    [updateDashboard] reads back with [parseFloat]: for a number that is
    not negative the result is the rounding of a multiple of one
    hundredth that lies within half a hundredth of the number, finite
    whenever that rounding is in the range of the finite doubles (and
    the infinity that a double beyond it is, otherwise). *)
Theorem toFixed_parseFloat_round_trip (rnd : Q -> Q) (x : Q) :
  (0 <= x)%Q ->
  exists q : Q,
    parseFloat rnd (toFixed x 2) = double_or_infinity (rnd q)
    /\ ((Qabs (rnd q) <= max_double)%Q -> parseFloat rnd (toFixed x 2) = Finite (rnd q))
    /\ (q == inject_Z (Z.of_N (hundredths x)) / 100)%Q
    /\ (x - (1 # 200) < q <= x + (1 # 200))%Q.
Proof.
  intros Hx.
  destruct (StrDecimalLiteral_two_decimals _ _ (toFixed_2_two_decimals x Hx)) as (q & Hs & E).
  exists q.
  assert (Hp : parseFloat rnd (toFixed x 2) = double_or_infinity (rnd q))
    by (unfold parseFloat; now rewrite Hs).
  split; [exact Hp|]. split.
  { intros Hr. rewrite Hp. unfold double_or_infinity.
    apply Qle_bool_iff in Hr. now rewrite Hr. }
  split; [exact E|].
  rewrite E. unfold hundredths.
  set (y := (x * 100 + (1 # 2))%Q).
  assert (Hy : (0 <= y)%Q) by (unfold y; lra).
  assert (Hf : (0 <= Qfloor y)%Z).
  { rewrite <- (Qfloor_Z 0). now apply Qfloor_resp_le. }
  rewrite Z2N.id by exact Hf.
  pose proof (Qfloor_le y) as H1. pose proof (Qlt_floor y) as H2.
  rewrite inject_Z_plus in H2. change (inject_Z 1) with 1%Q in H2.
  set (f := inject_Z (Qfloor y)) in *.
  split.
  - apply Qlt_shift_div_l; [reflexivity|]. unfold y in H2. lra.
  - apply Qle_shift_div_r; [reflexivity|]. unfold y in H1. lra.
Qed.

(** ** Links and the contact form, case by case *)

(** X16. The two click handlers throw only for a selector that does not
    parse; the handler of the first script has then done nothing, the one
    of [initSmoothScroll] has already cancelled the navigation.  A bare
    ["#"] is never looked up, and both handlers leave it alone. *)
Theorem smooth_scroll_exceptions (querySelector : list N -> SmoothScroll.query_result)
    (href : list N) :
  let first := SmoothScroll.smoothScrollEnhancement querySelector href in
  let second := SmoothScroll.initSmoothScroll querySelector href in
  (SmoothScroll.threw first = true
   <-> href <> lit "#" /\ querySelector href = SmoothScroll.QuerySyntaxError)
  /\ (SmoothScroll.threw second = true
      <-> href <> lit "#" /\ querySelector href = SmoothScroll.QuerySyntaxError)
  /\ (SmoothScroll.threw first = true -> SmoothScroll.effects first = [])
  /\ (SmoothScroll.threw second = true
      -> SmoothScroll.effects second = [SmoothScroll.PreventDefault])
  /\ (href = lit "#"
      -> first = SmoothScroll.done_with [] /\ second = SmoothScroll.done_with []).
Proof.
  cbv zeta. unfold SmoothScroll.smoothScrollEnhancement, SmoothScroll.initSmoothScroll.
  destruct (decide (href ≠ lit "#")) as [Hne|He].
  - destruct (querySelector href) as [| |el] eqn:Hq; cbn;
      repeat split; try discriminate; try tauto; try congruence;
      intros [_ H]; discriminate.
  - cbn. repeat split; try discriminate; try tauto.
Qed.

Lemma initContactForm_complete (entries : list (list N * list N)) :
  ~ incomplete entries ->
  ContactForm.initContactForm entries
  = ContactForm.PreventDefault ::
    if isValidEmail (ContactForm.field "email" entries)
    then [ContactForm.ShowNotification
            (ContactForm.showNotification ContactForm.msg_thanks (lit "success"));
          ContactForm.Reset;
          ContactForm.ConsoleLog (ContactForm.fromEntries entries)]
    else [ContactForm.ShowNotification
            (ContactForm.showNotification ContactForm.msg_bad_email (lit "error"))].
Proof.
  intros Hc. pose proof (incomplete_spec entries) as Hspec. cbv zeta in Hspec.
  unfold ContactForm.initContactForm.
  destruct (ContactForm.falsy _ || ContactForm.falsy _ || ContactForm.falsy _) eqn:Hf.
  - exfalso. apply Hc, Hspec. reflexivity.
  - fold (ContactForm.field "email" entries).
    now destruct (isValidEmail (ContactForm.field "email" entries)).
Qed.

(** X17. A submission with the three fields filled and a valid address
    is answered by the green toast; the form goes back to its default
    values, and the data as they were submitted go to the console. *)
Theorem submit_valid_resets_and_logs (p : ContactForm.form_page) :
  ~ incomplete (ContactForm.fields p) ->
  isValidEmail (ContactForm.field "email" (ContactForm.fields p)) = true ->
  ContactForm.fields (ContactForm.submit p) = ContactForm.defaults p
  /\ ContactForm.toasts (ContactForm.submit p)
     = ContactForm.toasts p
       ++ [{| ContactForm.textContent := ContactForm.msg_thanks;
              ContactForm.backgroundColor := ContactForm.color_success |}]
  /\ ContactForm.console (ContactForm.submit p)
     = ContactForm.console p ++ [ContactForm.fromEntries (ContactForm.fields p)]
  /\ ContactForm.default_prevented (ContactForm.submit p) = true.
Proof.
  intros Hc Hv. unfold ContactForm.submit.
  rewrite (initContactForm_complete _ Hc), Hv. repeat split.
Qed.

(** X18. A submission with the three fields filled but an address that
    [isValidEmail] rejects is answered by the red toast about the
    address; the form keeps its values and nothing goes to the console. *)
Theorem submit_invalid_email_keeps_form (p : ContactForm.form_page) :
  ~ incomplete (ContactForm.fields p) ->
  isValidEmail (ContactForm.field "email" (ContactForm.fields p)) = false ->
  ContactForm.fields (ContactForm.submit p) = ContactForm.fields p
  /\ ContactForm.toasts (ContactForm.submit p)
     = ContactForm.toasts p
       ++ [{| ContactForm.textContent := ContactForm.msg_bad_email;
              ContactForm.backgroundColor := ContactForm.color_error |}]
  /\ ContactForm.console (ContactForm.submit p) = ContactForm.console p
  /\ ContactForm.default_prevented (ContactForm.submit p) = true.
Proof.
  intros Hc Hv. unfold ContactForm.submit.
  rewrite (initContactForm_complete _ Hc), Hv. repeat split.
Qed.

(** The three ways a submission ends. *)
Lemma initContactForm_cases (entries : list (list N * list N)) :
  exists n : ContactForm.notification,
    ContactForm.initContactForm entries
    = [ContactForm.PreventDefault; ContactForm.ShowNotification n]
    \/ ContactForm.initContactForm entries
       = [ContactForm.PreventDefault; ContactForm.ShowNotification n;
          ContactForm.Reset; ContactForm.ConsoleLog (ContactForm.fromEntries entries)].
Proof.
  unfold ContactForm.initContactForm.
  destruct (ContactForm.falsy _ || ContactForm.falsy _ || ContactForm.falsy _);
    [eexists; left; reflexivity|].
  destruct (negb _); eexists; [left|right]; reflexivity.
Qed.

(** X19. Every submission, whatever the form holds, is kept from the
    browser's own handling and answered by exactly one toast; the default
    values of the form are never touched. *)
Theorem submit_always_answers (p : ContactForm.form_page) :
  ContactForm.default_prevented (ContactForm.submit p) = true
  /\ length (ContactForm.toasts (ContactForm.submit p)) = S (length (ContactForm.toasts p))
  /\ ContactForm.defaults (ContactForm.submit p) = ContactForm.defaults p.
Proof.
  unfold ContactForm.submit.
  destruct (initContactForm_cases (ContactForm.fields p)) as (n & [-> | ->]);
    cbn; rewrite length_app; cbn; repeat split; lia.
Qed.

(** X20. A form whose default values leave a required field empty
    cannot be sent twice in a row: after a valid submission it is reset,
    and the next submission is answered by the red toast about the empty
    fields. *)
Theorem resubmission_after_reset (p : ContactForm.form_page) :
  ~ incomplete (ContactForm.fields p) ->
  isValidEmail (ContactForm.field "email" (ContactForm.fields p)) = true ->
  incomplete (ContactForm.defaults p) ->
  let p2 := ContactForm.submit (ContactForm.submit p) in
  ContactForm.fields p2 = ContactForm.defaults p
  /\ ContactForm.toasts p2
     = ContactForm.toasts p
       ++ [{| ContactForm.textContent := ContactForm.msg_thanks;
              ContactForm.backgroundColor := ContactForm.color_success |};
           {| ContactForm.textContent := ContactForm.msg_fill_all;
              ContactForm.backgroundColor := ContactForm.color_error |}]
  /\ ContactForm.console p2
     = ContactForm.console p ++ [ContactForm.fromEntries (ContactForm.fields p)].
Proof.
  intros Hc Hv Hd p2. subst p2.
  set (p1 := ContactForm.submit p).
  assert (H1 : ContactForm.fields p1 = ContactForm.defaults p
               /\ ContactForm.toasts p1
                  = ContactForm.toasts p
                    ++ [{| ContactForm.textContent := ContactForm.msg_thanks;
                           ContactForm.backgroundColor := ContactForm.color_success |}]
               /\ ContactForm.console p1
                  = ContactForm.console p
                    ++ [ContactForm.fromEntries (ContactForm.fields p)]).
  { subst p1. unfold ContactForm.submit.
    rewrite (initContactForm_complete _ Hc), Hv. repeat split. }
  destruct H1 as (Hf & Ht & Hl). clearbody p1.
  unfold ContactForm.submit. rewrite Hf.
  rewrite (initContactForm_incomplete _ Hd). cbn.
  rewrite Ht, Hl, <- app_assoc. repeat split.
Qed.
(** ** The mobile menu *)

Lemma classList_remove_not_elem (tok : list N) (l : list (list N)) :
  tok ∉ CustomCursor.classList_remove tok l.
Proof.
  unfold CustomCursor.classList_remove. intros H.
  apply list_elem_of_filter in H as [H _]. now apply H.
Qed.

Lemma classList_toggle_elem (tok : list N) (l : list (list N)) :
  tok ∈ MobileMenu.classList_toggle tok l <-> tok ∉ l.
Proof.
  unfold MobileMenu.classList_toggle. destruct (decide (tok ∈ l)) as [Hin|Hout].
  - split; [intros H; now apply classList_remove_not_elem in H | contradiction].
  - split; [intros _; exact Hout | intros _; apply elem_of_app; right; now left].
Qed.

Lemma is_active_Some (l : list (list N)) :
  MobileMenu.is_active (Some l) <-> MobileMenu.active ∈ l.
Proof.
  unfold MobileMenu.is_active. split.
  - intros (l' & [= <-] & H). exact H.
  - intros H. now exists l.
Qed.

(** What holds of the menu when the three listeners keep it. *)
Lemma menu_run_listeners_invariant (P : MobileMenu.menu -> Prop) (e : MobileMenu.click) :
  (forall m cb, P m -> P (MobileMenu.run_callback cb e m)) ->
  forall (t : MobileMenu.target) L m, P m ->
    P (fold_left
         (fun m l => if decide (l.1 = t) then MobileMenu.run_callback l.2 e m else m) L m).
Proof.
  intros Hcb t L. induction L as [|l L IH]; intros m Hm; [exact Hm|].
  cbn [fold_left]. apply IH. destruct (decide _); [now apply Hcb | exact Hm].
Qed.

Lemma menu_dispatch_invariant (P : MobileMenu.menu -> Prop) (e : MobileMenu.click) :
  (forall m cb, P m -> P (MobileMenu.run_callback cb e m)) ->
  forall m, P m -> P (MobileMenu.dispatch m e).
Proof.
  intros Hcb m Hm. unfold MobileMenu.dispatch, MobileMenu.run_listeners.
  apply menu_run_listeners_invariant; [exact Hcb|].
  generalize (MobileMenu.path e). intros p. revert m Hm.
  induction p as [|n p IH]; intros m Hm; [exact Hm|].
  cbn [fold_left]. apply IH. now apply menu_run_listeners_invariant.
Qed.

Lemma menu_run_invariant (P : MobileMenu.menu -> Prop) :
  (forall m cb e, P m -> P (MobileMenu.run_callback cb e m)) ->
  forall es m, P m -> P (MobileMenu.run es m).
Proof.
  intros Hcb es. induction es as [|e es IH]; intros m Hm; [exact Hm|].
  unfold MobileMenu.run in *. cbn [fold_left]. apply IH.
  apply menu_dispatch_invariant; [|exact Hm]. intros m' cb. apply Hcb.
Qed.

(** The listeners keep the elements and the list of listeners. *)
Lemma run_callback_keeps (cb : MobileMenu.callback) (e : MobileMenu.click)
    (m : MobileMenu.menu) :
  MobileMenu.listeners (MobileMenu.run_callback cb e m) = MobileMenu.listeners m
  /\ (menu_complete m -> menu_complete (MobileMenu.run_callback cb e m))
  /\ (MobileMenu.menuToggle m = None -> MobileMenu.run_callback cb e m = m).
Proof.
  unfold menu_complete.
  destruct m as [[t|] [n|] L]; destruct cb; cbn; unfold MobileMenu.toggle_click,
    MobileMenu.link_click, MobileMenu.document_click, MobileMenu.on_both; cbn;
    try destruct (MobileMenu.in_navbar e); cbn;
    (split; [reflexivity|]); (split; [|try discriminate; reflexivity]);
    intros [[? ?] [? ?]]; try discriminate; split; eexists; reflexivity.
Qed.

(** The button and the panel together, as the listeners leave them. *)
Lemma run_callback_in_step (cb : MobileMenu.callback) (e : MobileMenu.click)
    (m : MobileMenu.menu) :
  menu_complete m ->
  (MobileMenu.is_active (MobileMenu.menuToggle m)
   <-> MobileMenu.is_active (MobileMenu.navMenu m)) ->
  let m' := MobileMenu.run_callback cb e m in
  (MobileMenu.is_active (MobileMenu.menuToggle m')
   <-> MobileMenu.is_active (MobileMenu.navMenu m')).
Proof.
  intros [[t Ht] [n Hn]] Hstep. destruct m as [mt mn L]. cbn in Ht, Hn. subst mt mn.
  cbn in Hstep. rewrite !is_active_Some in Hstep.
  destruct cb; cbn; unfold MobileMenu.toggle_click, MobileMenu.link_click,
    MobileMenu.document_click, MobileMenu.on_both; cbn;
    try destruct (MobileMenu.in_navbar e); cbn; rewrite !is_active_Some;
    rewrite ?classList_toggle_elem; try tauto;
    split; intros H; now apply classList_remove_not_elem in H.
Qed.

Lemma initMobileMenu_fields (links : list nat) (m : MobileMenu.menu) :
  MobileMenu.menuToggle (MobileMenu.initMobileMenu links m) = MobileMenu.menuToggle m
  /\ MobileMenu.navMenu (MobileMenu.initMobileMenu links m) = MobileMenu.navMenu m
  /\ MobileMenu.listeners (MobileMenu.initMobileMenu links m)
     = MobileMenu.listeners m
       ++ match MobileMenu.menuToggle m with
          | Some _ => menu_listeners links
          | None => []
          end.
Proof.
  unfold MobileMenu.initMobileMenu.
  destruct (MobileMenu.menuToggle m) as [t|] eqn:Ht; [|now rewrite app_nil_r].
  assert (H : forall m1,
             let m2 := fold_left
                         (fun m i => MobileMenu.addEventListener
                                       (MobileMenu.OnNode (MobileMenu.NodeNavLink i))
                                       MobileMenu.call_close_link m) links m1 in
             MobileMenu.menuToggle m2 = MobileMenu.menuToggle m1
             /\ MobileMenu.navMenu m2 = MobileMenu.navMenu m1
             /\ MobileMenu.listeners m2
                = MobileMenu.listeners m1
                  ++ List.map (fun i => (MobileMenu.OnNode (MobileMenu.NodeNavLink i),
                                         MobileMenu.call_close_link)) links).
  { cbv zeta. induction links as [|i l IH]; intros m1.
    - cbn. now rewrite app_nil_r.
    - cbn [fold_left List.map].
      destruct (IH (MobileMenu.addEventListener
                      (MobileMenu.OnNode (MobileMenu.NodeNavLink i))
                      MobileMenu.call_close_link m1)) as (-> & -> & ->).
      cbn. now rewrite <- app_assoc. }
  cbn [MobileMenu.addEventListener MobileMenu.menuToggle MobileMenu.navMenu
       MobileMenu.listeners].
  destruct (H (MobileMenu.addEventListener (MobileMenu.OnNode MobileMenu.NodeToggle)
                 MobileMenu.call_toggle m)) as (-> & -> & ->).
  cbn. unfold menu_listeners. rewrite Ht, <- !app_assoc. repeat split.
Qed.

(** X21. The button and the panel open and close together: in a
    document that has both, in step to begin with, after any clicks the
    button carries [active] exactly when the panel does. *)
Theorem menu_button_and_panel_in_step (links : list nat) (m0 : MobileMenu.menu)
    (es : list MobileMenu.click) :
  menu_complete m0 ->
  (MobileMenu.is_active (MobileMenu.menuToggle m0)
   <-> MobileMenu.is_active (MobileMenu.navMenu m0)) ->
  let m := MobileMenu.run es (MobileMenu.initMobileMenu links m0) in
  MobileMenu.is_active (MobileMenu.menuToggle m)
  <-> MobileMenu.is_active (MobileMenu.navMenu m).
Proof.
  intros Hc Hstep m. subst m.
  enough (H : menu_complete (MobileMenu.run es (MobileMenu.initMobileMenu links m0))
              /\ (MobileMenu.is_active
                    (MobileMenu.menuToggle
                       (MobileMenu.run es (MobileMenu.initMobileMenu links m0)))
                  <-> MobileMenu.is_active
                        (MobileMenu.navMenu
                           (MobileMenu.run es (MobileMenu.initMobileMenu links m0)))))
    by apply H.
  apply (menu_run_invariant
           (fun m => menu_complete m
                     /\ (MobileMenu.is_active (MobileMenu.menuToggle m)
                         <-> MobileMenu.is_active (MobileMenu.navMenu m)))).
  - intros m cb e [Hm Hs]. split.
    + now apply run_callback_keeps.
    + now apply run_callback_in_step.
  - destruct (initMobileMenu_fields links m0) as (Ht & Hn & _).
    unfold menu_complete. rewrite Ht, Hn. split; [exact Hc | exact Hstep].
Qed.
Lemma menu_fold_no_match (t : MobileMenu.target) (e : MobileMenu.click)
    (L : list (MobileMenu.target * MobileMenu.callback)) (m : MobileMenu.menu) :
  Forall (fun l => l.1 <> t) L ->
  fold_left (fun m l => if decide (l.1 = t) then MobileMenu.run_callback l.2 e m else m) L m
  = m.
Proof.
  intros HL. revert m. induction HL as [|l L Hl _ IH]; intros m; [reflexivity|].
  cbn [fold_left]. destruct (decide _); [contradiction | apply IH].
Qed.

Lemma link_listeners_fold (links : list nat) (j : nat) (e : MobileMenu.click)
    (m : MobileMenu.menu) :
  fold_left
    (fun m l => if decide (l.1 = MobileMenu.OnNode (MobileMenu.NodeNavLink j))
                then MobileMenu.run_callback l.2 e m else m)
    (List.map (fun i => (MobileMenu.OnNode (MobileMenu.NodeNavLink i),
                         MobileMenu.call_close_link)) links) m
  = Nat.iter (count_occ Nat.eq_dec links j) MobileMenu.link_click m.
Proof.
  revert m. induction links as [|i l IH]; intros m; [reflexivity|].
  cbn [List.map fold_left count_occ fst snd]. rewrite IH.
  destruct (Nat.eq_dec i j) as [->|Hne].
  - destruct (decide _) as [_|Hn]; [|now contradiction Hn].
    cbn [MobileMenu.run_callback]. now rewrite Nat.iter_succ_r.
  - destruct (decide _) as [[= Heq]|_]; [contradiction | reflexivity].
Qed.

(** The listeners of each target, taken together. *)
Lemma run_listeners_menu (links : list nat) (e : MobileMenu.click) (m : MobileMenu.menu) :
  MobileMenu.listeners m = menu_listeners links ->
  (forall n, MobileMenu.run_listeners (MobileMenu.OnNode n) e m = node_effect links n m)
  /\ MobileMenu.run_listeners MobileMenu.OnDocument e m
     = MobileMenu.document_click (MobileMenu.in_navbar e) m.
Proof.
  intros Hl. unfold MobileMenu.run_listeners. rewrite Hl. unfold menu_listeners.
  split.
  - intros n. cbn [fold_left fst snd]. rewrite fold_left_app. cbn [fold_left fst snd].
    destruct (decide (MobileMenu.OnDocument = MobileMenu.OnNode n)) as [Hd|_];
      [discriminate|].
    destruct n as [|j|]; cbn [node_effect].
    + destruct (decide _) as [_|Hn]; [|now contradiction Hn].
      cbn [MobileMenu.run_callback]. apply menu_fold_no_match.
      apply Forall_forall. intros l Hin.
      apply list_elem_of_In, in_map_iff in Hin as (i & <- & _). discriminate.
    + destruct (decide _) as [Hd|_]; [discriminate|]. apply link_listeners_fold.
    + destruct (decide _) as [Hd|_]; [discriminate|]. apply menu_fold_no_match.
      apply Forall_forall. intros l Hin.
      apply list_elem_of_In, in_map_iff in Hin as (i & <- & _). discriminate.
  - cbn [fold_left fst snd]. rewrite fold_left_app. cbn [fold_left fst snd].
    destruct (decide (MobileMenu.OnNode MobileMenu.NodeToggle = MobileMenu.OnDocument))
      as [Hd|_]; [discriminate|].
    rewrite menu_fold_no_match.
    + destruct (decide _) as [_|Hn]; [reflexivity | now contradiction Hn].
    + apply Forall_forall. intros l Hin.
      apply list_elem_of_In, in_map_iff in Hin as (i & <- & _). discriminate.
Qed.

Lemma on_both_remove_closed (m : MobileMenu.menu) :
  menu_complete m ->
  menu_closed (MobileMenu.on_both (CustomCursor.classList_remove MobileMenu.active) m).
Proof.
  intros [[t Ht] [n Hn]]. destruct m as [mt mn L]. cbn in Ht, Hn. subst mt mn.
  unfold menu_closed, MobileMenu.on_both. cbn. rewrite !is_active_Some.
  split; apply classList_remove_not_elem.
Qed.

Lemma iter_link_click (k : nat) (m : MobileMenu.menu) :
  let m' := Nat.iter k MobileMenu.link_click m in
  MobileMenu.listeners m' = MobileMenu.listeners m
  /\ (menu_complete m -> menu_complete m')
  /\ (menu_complete m -> menu_closed m -> menu_closed m')
  /\ (menu_complete m -> (0 < k)%nat -> menu_closed m').
Proof.
  cbv zeta. induction k as [|k (IH1 & IH2 & IH3 & IH4)]; rewrite ?Nat.iter_succ.
  - split; [reflexivity|]. split; [tauto|]. split; [tauto|]. intros _ H. lia.
  - destruct (run_callback_keeps MobileMenu.call_close_link
                {| MobileMenu.path := []; MobileMenu.in_navbar := true |}
                (Nat.iter k MobileMenu.link_click m)) as (Hl & Hc & _).
    cbn [MobileMenu.run_callback] in Hl, Hc.
    split; [now rewrite Hl|]. split; [auto|].
    split; intros Hm; intros; apply on_both_remove_closed; auto.
Qed.

(** X22. A click outside the navbar closes the menu, whatever its state
    and wherever the click lands: afterwards neither the button nor the
    panel carries [active]. *)
Theorem outside_click_closes_menu (links : list nat) (m0 : MobileMenu.menu)
    (es : list MobileMenu.click) (e : MobileMenu.click) :
  menu_complete m0 ->
  MobileMenu.in_navbar e = false ->
  menu_closed (MobileMenu.dispatch
                 (MobileMenu.run es (MobileMenu.initMobileMenu links m0)) e).
Proof.
  intros Hc He.
  set (m := MobileMenu.run es (MobileMenu.initMobileMenu links m0)).
  assert (Hm : menu_complete m
               /\ exists L, MobileMenu.listeners m
                            = L ++ [(MobileMenu.OnDocument, MobileMenu.call_outside)]).
  { subst m.
    apply (menu_run_invariant
             (fun m => menu_complete m
                       /\ exists L, MobileMenu.listeners m
                                    = L ++ [(MobileMenu.OnDocument,
                                             MobileMenu.call_outside)])).
    - intros m cb e' [H1 H2].
      destruct (run_callback_keeps cb e' m) as (-> & Hk & _). auto.
    - destruct (initMobileMenu_fields links m0) as (Ht & Hn & Hl).
      split; [unfold menu_complete; now rewrite Ht, Hn|].
      rewrite Hl. destruct Hc as [[t ->] _]. unfold menu_listeners.
      eexists. rewrite app_comm_cons, app_assoc. reflexivity. }
  destruct Hm as (Hm & L & HL).
  unfold MobileMenu.dispatch.
  set (m1 := fold_left _ (MobileMenu.path e) m).
  assert (Hm1 : menu_complete m1 /\ MobileMenu.listeners m1 = MobileMenu.listeners m).
  { subst m1. generalize (MobileMenu.path e). intros p.
    assert (H : forall m', menu_complete m' /\ MobileMenu.listeners m' = MobileMenu.listeners m ->
                menu_complete (fold_left (fun m n => MobileMenu.run_listeners
                                                       (MobileMenu.OnNode n) e m) p m')
                /\ MobileMenu.listeners
                     (fold_left (fun m n => MobileMenu.run_listeners
                                              (MobileMenu.OnNode n) e m) p m')
                   = MobileMenu.listeners m).
    { induction p as [|n p IH]; intros m' Hm'; [exact Hm'|].
      cbn [fold_left]. apply IH. unfold MobileMenu.run_listeners.
      apply (menu_run_listeners_invariant
               (fun m' => menu_complete m'
                          /\ MobileMenu.listeners m' = MobileMenu.listeners m));
        [|exact Hm'].
      intros m2 cb [H1 H2]. destruct (run_callback_keeps cb e m2) as (-> & Hk & _). auto. }
    apply H. auto. }
  destruct Hm1 as (Hc1 & Hl1).
  unfold MobileMenu.run_listeners. rewrite Hl1, HL, fold_left_app. cbn [fold_left fst snd].
  destruct (decide _) as [_|Hn]; [|now contradiction Hn].
  cbn [MobileMenu.run_callback]. unfold MobileMenu.document_click. rewrite He.
  apply on_both_remove_closed.
  apply (menu_run_listeners_invariant menu_complete); [|exact Hc1].
  intros m2 cb. apply run_callback_keeps.
Qed.
Lemma node_effect_keeps (links : list nat) (n : MobileMenu.node) (m : MobileMenu.menu) :
  MobileMenu.listeners (node_effect links n m) = MobileMenu.listeners m
  /\ (menu_complete m -> menu_complete (node_effect links n m)).
Proof.
  destruct n as [|j|]; cbn [node_effect].
  - destruct (run_callback_keeps MobileMenu.call_toggle
                {| MobileMenu.path := []; MobileMenu.in_navbar := true |} m) as (Hl & Hc & _).
    split; [exact Hl | exact Hc].
  - destruct (iter_link_click (count_occ Nat.eq_dec links j) m) as (Hl & Hc & _).
    split; [exact Hl | exact Hc].
  - split; [reflexivity | tauto].
Qed.

(** A click as the composition of what it does on its way up. *)
Lemma dispatch_menu (links : list nat) (e : MobileMenu.click) (m : MobileMenu.menu) :
  MobileMenu.listeners m = menu_listeners links ->
  MobileMenu.dispatch m e
  = MobileMenu.document_click (MobileMenu.in_navbar e)
      (fold_left (fun m n => node_effect links n m) (MobileMenu.path e) m).
Proof.
  intros Hl. unfold MobileMenu.dispatch.
  assert (H : forall p m, MobileMenu.listeners m = menu_listeners links ->
              fold_left (fun m n => MobileMenu.run_listeners (MobileMenu.OnNode n) e m) p m
              = fold_left (fun m n => node_effect links n m) p m
              /\ MobileMenu.listeners (fold_left (fun m n => node_effect links n m) p m)
                 = menu_listeners links).
  { induction p as [|n p IH]; intros m' Hm'; [auto|]. cbn [fold_left].
    rewrite (proj1 (run_listeners_menu links e m' Hm') n).
    apply IH. now rewrite (proj1 (node_effect_keeps links n m')). }
  destruct (H (MobileMenu.path e) m Hl) as (-> & Hl').
  apply (run_listeners_menu links e _ Hl').
Qed.

(** The menu a document with the button and the panel gets, after any
    clicks. *)
Lemma menu_reachable (links : list nat) (m0 : MobileMenu.menu) (es : list MobileMenu.click) :
  menu_complete m0 -> MobileMenu.listeners m0 = [] ->
  let m := MobileMenu.run es (MobileMenu.initMobileMenu links m0) in
  menu_complete m /\ MobileMenu.listeners m = menu_listeners links.
Proof.
  intros Hc Hl m. subst m.
  apply (menu_run_invariant
           (fun m => menu_complete m /\ MobileMenu.listeners m = menu_listeners links)).
  - intros m cb e [H1 H2]. destruct (run_callback_keeps cb e m) as (-> & Hk & _). auto.
  - destruct (initMobileMenu_fields links m0) as (Ht & Hn & Hl').
    split; [unfold menu_complete; now rewrite Ht, Hn|].
    rewrite Hl', Hl. destruct Hc as [[t ->] _]. reflexivity.
Qed.

Lemma document_click_keeps_closed (b : bool) (m : MobileMenu.menu) :
  menu_complete m -> menu_closed m -> menu_closed (MobileMenu.document_click b m).
Proof.
  intros Hc Hcl. unfold MobileMenu.document_click.
  destruct b; [exact Hcl | now apply on_both_remove_closed].
Qed.

(** X23. A click on a nav link closes the menu: when the click passes a
    nav link and not the button, neither the button nor the panel
    carries [active] afterwards. *)
Theorem nav_link_click_closes_menu (links : list nat) (m0 : MobileMenu.menu)
    (es : list MobileMenu.click) (e : MobileMenu.click) (i : nat) :
  menu_complete m0 -> MobileMenu.listeners m0 = [] ->
  i ∈ links ->
  MobileMenu.NodeNavLink i ∈ MobileMenu.path e ->
  MobileMenu.NodeToggle ∉ MobileMenu.path e ->
  menu_closed (MobileMenu.dispatch
                 (MobileMenu.run es (MobileMenu.initMobileMenu links m0)) e).
Proof.
  intros Hc Hl Hi Hlink Hbutton.
  destruct (menu_reachable links m0 es Hc Hl) as (Hm & Hlm). cbv zeta in Hm, Hlm.
  rewrite (dispatch_menu links e _ Hlm).
  set (m := MobileMenu.run es (MobileMenu.initMobileMenu links m0)) in *. clearbody m.
  assert (H : forall p m, menu_complete m -> MobileMenu.NodeToggle ∉ p ->
              menu_closed m \/ MobileMenu.NodeNavLink i ∈ p ->
              menu_complete (fold_left (fun m n => node_effect links n m) p m)
              /\ menu_closed (fold_left (fun m n => node_effect links n m) p m)).
  { induction p as [|n p IH]; intros m' Hm' Hb Hor.
    - split; [exact Hm'|]. destruct Hor as [H|H]; [exact H | now apply elem_of_nil in H].
    - cbn [fold_left]. apply not_elem_of_cons in Hb as [Hn Hb].
      apply IH; [now apply node_effect_keeps | exact Hb |].
      destruct n as [|j|]; [congruence| |].
      + cbn [node_effect].
        destruct (iter_link_click (count_occ Nat.eq_dec links j) m') as (_ & _ & K1 & K2).
        destruct Hor as [Hcl|Hin]; [left; auto|].
        apply elem_of_cons in Hin as [[= <-]|Hin]; [left|right; exact Hin].
        apply K2; [exact Hm'|].
        apply (count_occ_In Nat.eq_dec). now apply list_elem_of_In.
      + cbn [node_effect]. destruct Hor as [Hcl|Hin]; [left; exact Hcl|].
        apply elem_of_cons in Hin as [Heq|Hin]; [discriminate | right; exact Hin]. }
  destruct (H (MobileMenu.path e) m Hm Hbutton (or_intror Hlink)) as (H1 & H2).
  now apply document_click_keeps_closed.
Qed.

(** X24. A click on the button flips the menu: when the click passes
    the button once and no nav link, and lands in the navbar, it runs the
    listener of the button and nothing else, and the button and the panel
    carry [active] afterwards exactly when they did not before. *)
Theorem button_click_flips_menu (links : list nat) (m0 : MobileMenu.menu)
    (es : list MobileMenu.click) (e : MobileMenu.click) :
  menu_complete m0 -> MobileMenu.listeners m0 = [] ->
  button_click links e ->
  let m := MobileMenu.run es (MobileMenu.initMobileMenu links m0) in
  let m' := MobileMenu.dispatch m e in
  m' = MobileMenu.toggle_click m
  /\ (MobileMenu.is_active (MobileMenu.menuToggle m')
      <-> ~ MobileMenu.is_active (MobileMenu.menuToggle m))
  /\ (MobileMenu.is_active (MobileMenu.navMenu m')
      <-> ~ MobileMenu.is_active (MobileMenu.navMenu m)).
Proof.
  intros Hc Hl (Hnav & Hone & Hlinks) m m'.
  destruct (menu_reachable links m0 es Hc Hl) as (Hm & Hlm). cbv zeta in Hm, Hlm.
  fold m in Hm, Hlm.
  assert (Hd : m' = MobileMenu.toggle_click m).
  { subst m'. rewrite (dispatch_menu links e _ Hlm), Hnav. cbn [MobileMenu.document_click].
    clearbody m. revert Hone Hlinks. generalize (MobileMenu.path e). intros p.
    assert (H : forall p m,
               (forall i, i ∈ links -> MobileMenu.NodeNavLink i ∉ p) ->
               fold_left (fun m n => node_effect links n m) p m
               = Nat.iter (count_occ MobileMenu.node_eq_dec p MobileMenu.NodeToggle)
                   MobileMenu.toggle_click m).
    { clear. induction p as [|n p IH]; intros m Hp; [reflexivity|].
      cbn [fold_left count_occ]. rewrite IH.
      2:{ intros i Hi Hin. apply (Hp i Hi). now right. }
      destruct n as [|j|]; cbn [node_effect].
      - destruct (MobileMenu.node_eq_dec _ _) as [_|Hn]; [|now contradiction Hn].
        now rewrite Nat.iter_succ_r.
      - destruct (MobileMenu.node_eq_dec _ _) as [Heq|_]; [discriminate|].
        replace (count_occ Nat.eq_dec links j) with 0%nat; [reflexivity|].
        symmetry. apply count_occ_not_In. rewrite <- list_elem_of_In.
        intros Hj. apply (Hp j Hj). now left.
      - destruct (MobileMenu.node_eq_dec _ _) as [Heq|_]; [discriminate | reflexivity]. }
    intros Hone Hlinks. rewrite (H p m Hlinks), Hone. reflexivity. }
  split; [exact Hd|]. rewrite Hd.
  destruct Hm as [[t Ht] [n Hn]]. destruct m as [mt mn L]. cbn in Ht, Hn. subst mt mn.
  unfold MobileMenu.toggle_click, MobileMenu.on_both. cbn.
  rewrite !is_active_Some, !classList_toggle_elem. tauto.
Qed.

(** X25. Without the button the menu is dead: [initMobileMenu] returns
    before it registers a listener, and no click changes anything, nav
    links and panel or not. *)
Theorem menu_inert_without_button (links : list nat) (m0 : MobileMenu.menu)
    (es : list MobileMenu.click) :
  MobileMenu.menuToggle m0 = None ->
  MobileMenu.initMobileMenu links m0 = m0
  /\ MobileMenu.run es (MobileMenu.initMobileMenu links m0) = m0.
Proof.
  intros Hnone.
  assert (Hinit : MobileMenu.initMobileMenu links m0 = m0).
  { unfold MobileMenu.initMobileMenu. now rewrite Hnone. }
  split; [exact Hinit|]. rewrite Hinit.
  apply (menu_run_invariant (fun m => m = m0)); [|reflexivity].
  intros m cb e ->. now apply run_callback_keeps.
Qed.
(** ** Reveal on scroll *)

Lemma style_of_set_style (el el' : nat) (st : Reveal.style) (s : Reveal.scene) :
  Reveal.style_of el (Reveal.set_style el' st s)
  = if decide (el = el') then st else Reveal.style_of el s.
Proof.
  unfold Reveal.style_of, Reveal.set_style. cbn.
  destruct (decide (el = el')) as [->|Hne].
  - now rewrite lookup_insert_eq.
  - now rewrite lookup_insert_ne by congruence.
Qed.

Lemma run_concat (calls : list (list Reveal.entry)) (s : Reveal.scene) :
  Reveal.run calls s = fold_left Reveal.on_entry (concat calls) s.
Proof.
  revert s. induction calls as [|es calls IH]; intros s; [reflexivity|].
  unfold Reveal.run in *. cbn [fold_left concat]. rewrite IH.
  unfold Reveal.callback. now rewrite fold_left_app.
Qed.

(** An entry that reports [el] as intersecting reveals it and ends its
    observation; any other entry leaves [el] alone. *)
Lemma on_entry_element (el : nat) (e : Reveal.entry) (s : Reveal.scene) :
  let s' := Reveal.on_entry s e in
  (Reveal.target e = el /\ Reveal.isIntersecting e = true ->
   Reveal.revealed el s' /\ el ∉ Reveal.observed s')
  /\ (~ (Reveal.target e = el /\ Reveal.isIntersecting e = true) ->
      Reveal.style_of el s' = Reveal.style_of el s
      /\ (el ∈ Reveal.observed s' <-> el ∈ Reveal.observed s)).
Proof.
  cbv zeta. unfold Reveal.on_entry. split.
  - intros [<- ->]. unfold Reveal.revealed. cbn [Reveal.styles Reveal.observed].
    split.
    + unfold Reveal.style_of. cbn. rewrite !lookup_insert_eq. cbn. split; reflexivity.
    + cbn. intros H. apply elem_of_difference in H as [_ H].
      apply H. now apply elem_of_singleton.
  - intros Hno. destruct (Reveal.isIntersecting e) eqn:Hi; [|tauto].
    assert (Hne : el <> Reveal.target e) by (intros ->; tauto).
    split.
    + unfold Reveal.style_of. cbn. now rewrite !lookup_insert_ne by congruence.
    + cbn. rewrite elem_of_difference, elem_of_singleton. tauto.
Qed.

Lemma entries_element (el : nat) (es : list Reveal.entry) (s : Reveal.scene) :
  let s' := fold_left Reveal.on_entry es s in
  (Exists (fun e => Reveal.target e = el /\ Reveal.isIntersecting e = true) es ->
   Reveal.revealed el s' /\ el ∉ Reveal.observed s')
  /\ (~ Exists (fun e => Reveal.target e = el /\ Reveal.isIntersecting e = true) es ->
      Reveal.style_of el s' = Reveal.style_of el s
      /\ (el ∈ Reveal.observed s' <-> el ∈ Reveal.observed s)).
Proof.
  cbv zeta. induction es as [|e es IH] using rev_ind.
  - split; [intros H; now apply Exists_nil in H | intros _; split; [reflexivity | tauto]].
  - rewrite fold_left_app. cbn [fold_left].
    destruct (on_entry_element el e (fold_left Reveal.on_entry es s)) as (Hyes & Hno).
    cbv zeta in Hyes, Hno. destruct IH as (IHyes & IHno).
    assert (Hdec : (Reveal.target e = el /\ Reveal.isIntersecting e = true)
                   \/ ~ (Reveal.target e = el /\ Reveal.isIntersecting e = true)).
    { destruct (decide (Reveal.target e = el)); destruct (Reveal.isIntersecting e);
        intuition congruence. }
    split.
    + intros Hex. destruct Hdec as [Hm|Hm]; [now apply Hyes|].
      destruct (Hno Hm) as (Hs & Ho).
      apply Exists_app in Hex as [Hex|Hex].
      * destruct (IHyes Hex) as ((R1 & R2) & R3).
        unfold Reveal.revealed. rewrite Hs, Ho. auto.
      * apply Exists_cons in Hex as [Hex|Hex]; [contradiction | now apply Exists_nil in Hex].
    + intros Hnex.
      assert (Hm : ~ (Reveal.target e = el /\ Reveal.isIntersecting e = true)).
      { intros Hm. apply Hnex, Exists_app. right. now left. }
      assert (Hes : ~ Exists (fun e => Reveal.target e = el
                                       /\ Reveal.isIntersecting e = true) es).
      { intros Hes. apply Hnex, Exists_app. now left. }
      destruct (Hno Hm) as (Hs & Ho). destruct (IHno Hes) as (Hs' & Ho').
      rewrite Hs, Ho. auto.
Qed.

(** Every card is hidden and observed when [initIntersectionObserver]
    is through. *)
Lemma initIntersectionObserver_card (cards : list nat) (s0 : Reveal.scene) (el : nat) :
  el ∈ cards ->
  let s := Reveal.initIntersectionObserver cards s0 in
  Reveal.hidden el s /\ el ∈ Reveal.observed s.
Proof.
  intros Hel. cbv zeta. unfold Reveal.initIntersectionObserver.
  induction cards as [|c cards IH] using rev_ind; [now apply elem_of_nil in Hel|].
  rewrite fold_left_app. cbn [fold_left].
  set (s := fold_left _ cards s0) in *.
  unfold Reveal.hidden. cbn [Reveal.observed Reveal.styles].
  destruct (decide (el = c)) as [->|Hne].
  - split; [|apply elem_of_union; right; now apply elem_of_singleton].
    unfold Reveal.style_of. cbn. now rewrite lookup_insert_eq.
  - apply elem_of_app in Hel as [Hel|Hel]; [|apply list_elem_of_singleton in Hel; congruence].
    destruct (IH Hel) as (Hh & Ho). split; [|apply elem_of_union; now left].
    unfold Reveal.hidden, Reveal.style_of in *. cbn.
    now rewrite lookup_insert_ne by congruence.
Qed.

(** X26. A card is revealed by the first report that it intersects, and
    only by that: after any calls of the observer's callback, a card that
    was reported as intersecting has opacity 1 and the slide-in
    animation and is no longer observed, for good; a card that was not is
    still hidden, with opacity 0, and still observed. *)
Theorem card_revealed_on_intersection (cards : list nat) (s0 : Reveal.scene)
    (calls : list (list Reveal.entry)) (el : nat) :
  el ∈ cards ->
  let s := Reveal.run calls (Reveal.initIntersectionObserver cards s0) in
  (intersected el calls -> Reveal.revealed el s /\ el ∉ Reveal.observed s)
  /\ (~ intersected el calls -> Reveal.hidden el s /\ el ∈ Reveal.observed s).
Proof.
  intros Hel s. subst s. rewrite run_concat. unfold intersected.
  destruct (entries_element el (concat calls) (Reveal.initIntersectionObserver cards s0))
    as (Hyes & Hno).
  cbv zeta in Hyes, Hno. split; [exact Hyes|].
  intros Hn. destruct (Hno Hn) as (Hs & Ho).
  destruct (initIntersectionObserver_card cards s0 el Hel) as (Hh & Hobs).
  cbv zeta in Hh, Hobs. unfold Reveal.hidden. rewrite Hs, Ho. auto.
Qed.
(** ** Toasts and their timers *)

Lemma empty_screen_sound : timers_sound Toasts.empty_screen.
Proof.
  split; cbn.
  - intros due id H. now apply elem_of_nil in H.
  - intros due id H. now apply elem_of_nil in H.
  - intros id t H. now rewrite lookup_empty in H.
  - constructor.
  - intros due a H. now apply elem_of_nil in H.
Qed.

Lemma pass_sound (dt : N) (s : Toasts.screen) : timers_sound s -> timers_sound (Toasts.pass dt s).
Proof. intros [A B C D E]. split; cbn; assumption. Qed.

Lemma showNotification_sound (message type : list N) (s : Toasts.screen) :
  timers_sound s -> timers_sound (Toasts.showNotification message type s).
Proof.
  intros [A B C D E]. unfold Toasts.showNotification, Toasts.setTimeout.
  split; cbn [Toasts.toasts Toasts.timers Toasts.now Toasts.next_id].
  - intros due id H. apply elem_of_app in H as [H|H].
    + pose proof (E _ _ H) as Hlt. cbn in Hlt.
      rewrite lookup_insert_ne by lia. now apply A.
    + apply list_elem_of_singleton in H as [= -> ->].
      rewrite lookup_insert_eq. eexists. split; [reflexivity|]. split; reflexivity.
  - intros due id H. apply elem_of_app in H as [H|H].
    + pose proof (E _ _ H) as Hlt. cbn in Hlt.
      rewrite lookup_insert_ne by lia. now apply B.
    + apply list_elem_of_singleton in H. discriminate H.
  - intros id t H. destruct (decide (id = Toasts.next_id s)) as [->|Hne].
    + eexists _, _. split; [apply elem_of_app; right; now left | reflexivity].
    + rewrite lookup_insert_ne in H by congruence.
      destruct (C _ _ H) as (due & a & Hin & Ha).
      exists due, a. split; [apply elem_of_app; now left | exact Ha].
  - rewrite List.map_app. cbn. apply NoDup_app. split; [exact D|].
    split; [|apply NoDup_singleton].
    intros x Hx Hx'. apply list_elem_of_singleton in Hx'. subst x.
    apply list_elem_of_In, in_map_iff in Hx as ((due & a) & Ha & Hin).
    apply list_elem_of_In, E in Hin. cbn in Ha. lia.
  - intros due a H. apply elem_of_app in H as [H|H].
    + apply E in H. lia.
    + apply list_elem_of_singleton in H as [= -> ->]. cbn. lia.
Qed.

(** A list around its [k]-th entry. *)
Lemma list_split_at {A : Type} (l : list A) (k : nat) (x : A) :
  l !! k = Some x ->
  exists l1 l2, l = l1 ++ x :: l2 /\ delete k l = l1 ++ l2.
Proof.
  intros H. exists (take k l), (drop (S k) l).
  split; [symmetry; now apply take_drop_middle | apply delete_take_drop].
Qed.

Lemma fire_sound (k : nat) (s : Toasts.screen) :
  timers_sound s -> timers_sound (Toasts.fire k s).
Proof.
  intros Hs. pose proof Hs as [A B C D E]. unfold Toasts.fire.
  destruct (Toasts.timers s !! k) as [[due a]|] eqn:Hk; [|exact Hs].
  destruct (N.leb_spec due (Toasts.now s)) as [Hdue|_]; [|exact Hs].
  destruct (list_split_at _ _ _ Hk) as (l1 & l2 & Hl & Hdel).
  rewrite Hdel. rewrite Hl in A, B, C, D, E.
  rewrite List.map_app in D. cbn [List.map snd] in D.
  apply NoDup_app in D as (D1 & D12 & D2). apply NoDup_cons in D2 as (Da & D2).
  assert (Hfresh : forall due' a', (due', a') ∈ l1 ++ l2 -> action_id a' <> action_id a).
  { intros due' a' Hin Heq. apply elem_of_app in Hin as [Hin|Hin].
    - apply (D12 (action_id a)).
      + apply list_elem_of_In, in_map_iff. exists (due', a').
        split; [exact Heq | now apply list_elem_of_In].
      + now left.
    - apply Da. apply list_elem_of_In, in_map_iff. exists (due', a').
      split; [exact Heq | now apply list_elem_of_In]. }
  assert (Hold : forall d, d ∈ l1 ++ l2 -> d ∈ l1 ++ (due, a) :: l2).
  { intros d Hd. apply elem_of_app in Hd as [Hd|Hd]; apply elem_of_app;
      [now left | right; now right]. }
  assert (Hrest : forall d, d ∈ l1 ++ (due, a) :: l2 -> action_id d.2 <> action_id a ->
                            d ∈ l1 ++ l2).
  { intros d Hd Hne. apply elem_of_app in Hd as [Hd|Hd]; [apply elem_of_app; now left|].
    apply elem_of_cons in Hd as [->|Hd]; [now contradiction Hne|].
    apply elem_of_app. now right. }
  assert (Hnodup : NoDup (List.map (fun d : N * Toasts.action => action_id d.2) (l1 ++ l2))).
  { rewrite List.map_app. apply NoDup_app. split; [exact D1|]. split; [|exact D2].
    intros x Hx Hx'. apply (D12 x Hx). now right. }
  destruct a as [id|id]; unfold Toasts.run_action, Toasts.setTimeout;
    cbn [Toasts.toasts Toasts.timers Toasts.now Toasts.next_id action_id] in *.
  - destruct (A due id) as (t & Ht & Hanim & Hdue_eq); [apply elem_of_app; right; now left|].
    split; cbn [Toasts.toasts Toasts.timers Toasts.now Toasts.next_id].
    + intros due' id' H. apply elem_of_app in H as [H|H].
      * pose proof (Hfresh _ _ H) as Hne. cbn in Hne.
        rewrite lookup_alter_ne by congruence. apply A, Hold, H.
      * apply list_elem_of_singleton in H. discriminate H.
    + intros due' id' H. apply elem_of_app in H as [H|H].
      * pose proof (Hfresh _ _ H) as Hne. cbn in Hne.
        rewrite lookup_alter_ne by congruence. apply B, Hold, H.
      * apply list_elem_of_singleton in H as [= -> ->].
        rewrite lookup_alter_eq, Ht. cbn. eexists. split; [reflexivity|].
        cbn. split; [reflexivity | lia].
    + intros id' t' H. destruct (decide (id' = id)) as [->|Hne].
      * eexists _, _. split; [apply elem_of_app; right; now left | reflexivity].
      * rewrite lookup_alter_ne in H by congruence.
        destruct (C _ _ H) as (due' & a' & Hin & Ha).
        exists due', a'. split; [|exact Ha].
        apply elem_of_app. left. apply Hrest; [exact Hin | cbn; congruence].
    + rewrite List.map_app. cbn. apply NoDup_app. split; [exact Hnodup|].
      split; [|apply NoDup_singleton].
      intros x Hx Hx'. apply list_elem_of_singleton in Hx'. subst x.
      apply list_elem_of_In, in_map_iff in Hx as ((due' & a') & Ha & Hin).
      apply list_elem_of_In in Hin. now apply (Hfresh _ _ Hin).
    + intros due' a' H. apply elem_of_app in H as [H|H].
      * apply (E due'), Hold, H.
      * apply list_elem_of_singleton in H as [= -> ->].
        apply (E due (Toasts.StartSlideOut id)). apply elem_of_app. right. now left.
  - split; cbn [Toasts.toasts Toasts.timers Toasts.now Toasts.next_id].
    + intros due' id' H. pose proof (Hfresh _ _ H) as Hne. cbn in Hne.
      rewrite lookup_delete_ne by congruence. apply A, Hold, H.
    + intros due' id' H. pose proof (Hfresh _ _ H) as Hne. cbn in Hne.
      rewrite lookup_delete_ne by congruence. apply B, Hold, H.
    + intros id' t' H. destruct (decide (id' = id)) as [->|Hne];
        [now rewrite lookup_delete_eq in H|].
      rewrite lookup_delete_ne in H by congruence.
      destruct (C _ _ H) as (due' & a' & Hin & Ha).
      exists due', a'. split; [|exact Ha]. apply Hrest; [exact Hin | cbn; congruence].
    + exact Hnodup.
    + intros due' a' H. apply (E due'), Hold, H.
Qed.

Lemma step_sound (s : Toasts.screen) (e : N * Toasts.event) :
  timers_sound s -> timers_sound (Toasts.step s e).
Proof.
  intros Hs. unfold Toasts.step. apply (pass_sound e.1) in Hs.
  destruct e.2 as [message type|k];
    [now apply showNotification_sound | now apply fire_sound].
Qed.

Lemma run_sound (es : list (N * Toasts.event)) (s : Toasts.screen) :
  timers_sound s -> timers_sound (Toasts.run es s).
Proof.
  revert s. induction es as [|e es IH]; intros s Hs; [exact Hs|].
  unfold Toasts.run in *. cbn [fold_left]. now apply IH, step_sound.
Qed.

(** X27. A toast stays for 3.3 seconds at least: whatever is shown and
    whenever the timers fire, a toast that is on the page before an event
    and gone after it was shown 3300 ms before or earlier. *)
Theorem toast_stays_3300_ms (es : list (N * Toasts.event)) (e : N * Toasts.event)
    (id : nat) (t : Toasts.toast) :
  let s := Toasts.run es Toasts.empty_screen in
  Toasts.toasts s !! id = Some t ->
  Toasts.toasts (Toasts.step s e) !! id = None ->
  Toasts.shown_at t + 3300 <= Toasts.now (Toasts.step s e).
Proof.
  intros s Hin Hout.
  pose proof (run_sound es Toasts.empty_screen empty_screen_sound) as Hs. fold s in Hs.
  apply (pass_sound e.1) in Hs.
  unfold Toasts.step in *. set (s1 := Toasts.pass e.1 s) in *.
  assert (Hin1 : Toasts.toasts s1 !! id = Some t) by exact Hin.
  clearbody s1. destruct e.2 as [message type|k].
  - exfalso. unfold Toasts.showNotification, Toasts.setTimeout in Hout. cbn in Hout.
    destruct (decide (id = Toasts.next_id s1)) as [->|Hne].
    + now rewrite lookup_insert_eq in Hout.
    + rewrite lookup_insert_ne in Hout by congruence. congruence.
  - unfold Toasts.fire in *.
    destruct (Toasts.timers s1 !! k) as [[due a]|] eqn:Hk; [|congruence].
    destruct (N.leb_spec due (Toasts.now s1)) as [Hdue|_]; [|congruence].
    destruct a as [id'|id']; cbn in Hout |- *.
    + exfalso. destruct (decide (id = id')) as [->|Hne].
      * rewrite lookup_alter_eq, Hin1 in Hout. discriminate Hout.
      * rewrite lookup_alter_ne in Hout by congruence. congruence.
    + destruct (decide (id = id')) as [->|Hne];
        [|rewrite lookup_delete_ne in Hout by congruence; congruence].
      destruct (sound_remove _ Hs due id') as (t' & Ht' & _ & Hlate).
      { eapply list_elem_of_lookup_2. exact Hk. }
      rewrite Hin1 in Ht'. injection Ht' as <-. lia.
Qed.

(** X28. No toast is left behind: whatever is shown and whenever the
    timers fire, every toast on the page has its timer pending, the one
    that starts the slide-out while it slides in or rests, and the one
    that removes it, due 3.3 seconds after its showing at the earliest,
    once it slides out. *)
Theorem toast_has_its_timer (es : list (N * Toasts.event)) (id : nat) (t : Toasts.toast) :
  let s := Toasts.run es Toasts.empty_screen in
  Toasts.toasts s !! id = Some t -> toast_phase s id t.
Proof.
  intros s Hin.
  pose proof (run_sound es Toasts.empty_screen empty_screen_sound) as Hs. fold s in Hs.
  destruct (sound_toast _ Hs id t Hin) as (due & a & Ha & Hid).
  destruct a as [id'|id']; cbn in Hid; subst id'.
  - left. destruct (sound_slide_out _ Hs due id Ha) as (t' & Ht' & Hanim & ->).
    rewrite Hin in Ht'. injection Ht' as <-. split; [exact Hanim | exact Ha].
  - right. destruct (sound_remove _ Hs due id Ha) as (t' & Ht' & Hanim & Hlate).
    rewrite Hin in Ht'. injection Ht' as <-. split; [exact Hanim|].
    exists due. split; [exact Hlate | exact Ha].
Qed.
(** X29. Every toast goes away once its timers fire: from any screen
    reached, a toast on the page is gone after two events at most, the
    firing of its timer of three seconds, when that is still pending,
    and the firing of the timer of its removal 300 ms later. *)
Theorem toast_dismissed_by_its_timers (es : list (N * Toasts.event))
    (id : nat) (t : Toasts.toast) :
  let s := Toasts.run es Toasts.empty_screen in
  Toasts.toasts s !! id = Some t ->
  exists es' : list (N * Toasts.event),
    (length es' <= 2)%nat
    /\ Forall (fun e => exists k, e.2 = Toasts.Fire k) es'
    /\ Toasts.toasts (Toasts.run es' s) !! id = None.
Proof.
  intros s Hin.
  pose proof (run_sound es Toasts.empty_screen empty_screen_sound) as Hs. fold s in Hs.
  destruct (sound_toast _ Hs id t Hin) as (due & a & Ha & Hid).
  apply list_elem_of_lookup_1 in Ha as [k Hk].
  clearbody s.
  assert (Hremove : forall s k due,
             Toasts.timers s !! k = Some (due, Toasts.Remove id) ->
             Toasts.toasts
               (Toasts.step s (due - Toasts.now s, Toasts.Fire k)) !! id = None).
  { clear. intros s k due Hk. unfold Toasts.step, Toasts.fire, Toasts.pass.
    cbn [fst snd Toasts.timers Toasts.now Toasts.toasts Toasts.next_id]. rewrite Hk.
    destruct (N.leb_spec due (Toasts.now s + (due - Toasts.now s))) as [_|Hlt]; [|lia].
    cbn. apply lookup_delete_eq. }
  destruct a as [id'|id']; cbn in Hid; subst id'.
  - set (s1 := Toasts.step s (due - Toasts.now s, Toasts.Fire k)).
    assert (Hk1 : Toasts.timers s1 !! length (delete k (Toasts.timers s))
                  = Some (Toasts.now s1 + 300, Toasts.Remove id)).
    { subst s1. unfold Toasts.step, Toasts.fire, Toasts.pass.
      cbn [fst snd Toasts.timers Toasts.now Toasts.toasts Toasts.next_id]. rewrite Hk.
      destruct (N.leb_spec due (Toasts.now s + (due - Toasts.now s))) as [_|Hlt]; [|lia].
      unfold Toasts.run_action, Toasts.setTimeout.
      cbn [Toasts.timers Toasts.now].
      now apply list_lookup_middle. }
    exists [(due - Toasts.now s, Toasts.Fire k);
            (Toasts.now s1 + 300 - Toasts.now s1,
             Toasts.Fire (length (delete k (Toasts.timers s))))].
    split; [cbn; lia|]. split; [repeat constructor; eexists; reflexivity|].
    unfold Toasts.run. cbn [fold_left]. fold s1. now apply Hremove.
  - exists [(due - Toasts.now s, Toasts.Fire k)].
    split; [cbn; lia|]. split; [repeat constructor; eexists; reflexivity|].
    unfold Toasts.run. cbn [fold_left]. now apply Hremove.
Qed.

(** ** The further properties at sample inputs *)

Lemma sample_page_capped : capped (DataDashboard.data sample_page).
Proof. repeat split. cbn. lia. Qed.

Lemma poll_history_length_witness :
  capped (DataDashboard.data sample_page)
  /\ length (DataDashboard.h_temperature
               (DataDashboard.data
                  (DataDashboard.poll binary64 sample_random sample_clock
                     sample_outcomes sample_page)))
     = 2%nat.
Proof.
  split; [exact sample_page_capped|].
  exact (proj1 (poll_history_length binary64 sample_random sample_clock
                  sample_outcomes sample_page sample_page_capped)).
Defined.

Lemma failed_cycle_readout_witness :
  fetch_failed DataDashboard.FetchRejects = true
  /\ exists t h pr : list N,
       two_decimals_within 20 30 t
       /\ two_decimals_within 40 70 h
       /\ two_decimals_within 1013 1018 pr
       /\ DataDashboard.current_temp
            (DataDashboard.cycle binary64 sample_random sample_clock
               DataDashboard.FetchRejects sample_page)
          = option_map (fun _ => t ++ ch_degree :: lit "C")
              (DataDashboard.current_temp sample_page)
       /\ DataDashboard.current_humidity
            (DataDashboard.cycle binary64 sample_random sample_clock
               DataDashboard.FetchRejects sample_page)
          = option_map (fun _ => h ++ lit "%") (DataDashboard.current_humidity sample_page)
       /\ DataDashboard.current_pressure
            (DataDashboard.cycle binary64 sample_random sample_clock
               DataDashboard.FetchRejects sample_page)
          = option_map (fun _ => pr ++ lit " hPa")
              (DataDashboard.current_pressure sample_page).
Proof.
  split; [reflexivity|].
  exact (failed_cycle_readout binary64 sample_random sample_clock
           DataDashboard.FetchRejects sample_page
           binary64_rounding sample_random_unit eq_refl).
Defined.

Lemma offline_histories_within_ranges_witness :
  Forall (fun o => fetch_failed o = true) sample_outcomes
  /\ within_mock_ranges (DataDashboard.data sample_page)
  /\ within_mock_ranges
       (DataDashboard.data
          (DataDashboard.poll binary64 sample_random sample_clock
             sample_outcomes sample_page)).
Proof.
  assert (Hos : Forall (fun o => fetch_failed o = true) sample_outcomes)
    by (repeat constructor).
  assert (Hp : within_mock_ranges (DataDashboard.data sample_page))
    by (repeat split; constructor).
  split; [exact Hos|]. split; [exact Hp|].
  exact (offline_histories_within_ranges binary64 sample_random sample_clock
           sample_outcomes sample_page binary64_rounding sample_random_unit Hos Hp).
Defined.

Lemma server_reading_recorded_witness :
  capped (DataDashboard.data sample_page)
  /\ DataDashboard.calls
       (DataDashboard.cycle binary64 sample_random sample_clock
          (DataDashboard.FetchResolves true (DataDashboard.JsonValue (sample_reading 1)))
          sample_page)
     = DataDashboard.calls sample_page
       ++ [DataDashboard.CallUpdateDashboard (sample_reading 1)].
Proof.
  split; [exact sample_page_capped|].
  exact (proj1 (proj2 (proj2 (server_reading_recorded binary64 sample_random sample_clock
                                 (sample_reading 1) sample_page sample_page_capped)))).
Defined.

Lemma hover_flag_matches_class_witness :
  CustomCursor.isTouchDevice desktop = false
  /\ (cursor_hover ∉ CustomCursor.classList CustomCursor.plain_marker)
  /\ (CustomCursor.isHovering
        (CustomCursor.run binary64
           [CustomCursor.Mouse (CustomCursor.Element 1) CustomCursor.mouseenter 10 20]
           (CustomCursor.constructor binary64 desktop (Some CustomCursor.plain_marker)
              (Some CustomCursor.plain_marker) [1; 2]%nat)) = true
      <-> hover_shown
            (CustomCursor.run binary64
               [CustomCursor.Mouse (CustomCursor.Element 1) CustomCursor.mouseenter 10 20]
               (CustomCursor.constructor binary64 desktop (Some CustomCursor.plain_marker)
                  (Some CustomCursor.plain_marker) [1; 2]%nat))).
Proof.
  assert (Hc : cursor_hover ∉ CustomCursor.classList CustomCursor.plain_marker)
    by apply not_elem_of_nil.
  split; [reflexivity|]. split; [exact Hc|].
  exact (hover_flag_matches_class binary64 desktop (Some CustomCursor.plain_marker)
           CustomCursor.plain_marker [1; 2]%nat
           [CustomCursor.Mouse (CustomCursor.Element 1) CustomCursor.mouseenter 10 20]
           eq_refl Hc).
Defined.

Lemma mousemove_places_inner_marker_witness :
  CustomCursor.isTouchDevice desktop = false
  /\ inner_drawn_at 100 50
       (CustomCursor.dispatch binary64
          (CustomCursor.run binary64 [CustomCursor.AnimationFrame]
             (CustomCursor.constructor binary64 desktop (Some CustomCursor.plain_marker)
                (Some CustomCursor.plain_marker) [1; 2]%nat))
          (CustomCursor.Mouse (CustomCursor.Element 1) CustomCursor.mousemove 100 50)).
Proof.
  split; [reflexivity|].
  exact (proj1 (proj2 (proj2
           (mousemove_places_inner_marker binary64 desktop CustomCursor.plain_marker
              (Some CustomCursor.plain_marker) [1; 2]%nat [CustomCursor.AnimationFrame]
              (CustomCursor.Element 1) 100 50 eq_refl)))).
Defined.

Lemma hover_follows_interactive_elements_witness :
  CustomCursor.isTouchDevice desktop = false
  /\ 2%nat ∈ [1; 2]%nat
  /\ CustomCursor.isHovering
       (CustomCursor.dispatch binary64
          (CustomCursor.run binary64 []
             (CustomCursor.constructor binary64 desktop (Some CustomCursor.plain_marker)
                (Some CustomCursor.plain_marker) [1; 2]%nat))
          (CustomCursor.Mouse (CustomCursor.Element 2) CustomCursor.mouseenter 0 0))
     = true
  /\ CustomCursor.isHovering
       (CustomCursor.dispatch binary64
          (CustomCursor.run binary64 []
             (CustomCursor.constructor binary64 desktop (Some CustomCursor.plain_marker)
                (Some CustomCursor.plain_marker) [1; 2]%nat))
          (CustomCursor.Mouse (CustomCursor.Element 2) CustomCursor.mouseleave 0 0))
     = false.
Proof.
  assert (Hel : 2%nat ∈ [1; 2]%nat) by (right; left).
  split; [reflexivity|]. split; [exact Hel|].
  exact (proj1 (hover_follows_interactive_elements binary64 desktop
                  (Some CustomCursor.plain_marker) (Some CustomCursor.plain_marker)
                  [1; 2]%nat [] 2%nat 0 0 eq_refl) Hel).
Defined.

Lemma follower_loop_persists_witness :
  CustomCursor.isTouchDevice desktop = false
  /\ CustomCursor.frame_requested
       (CustomCursor.run binary64
          [CustomCursor.AnimationFrame; CustomCursor.AnimationFrame]
          (CustomCursor.constructor binary64 desktop (Some CustomCursor.plain_marker)
             (Some CustomCursor.plain_marker) [1; 2]%nat)) = true.
Proof.
  split; [reflexivity|].
  exact (proj1 (follower_loop_persists binary64 desktop (Some CustomCursor.plain_marker)
                  CustomCursor.plain_marker [1; 2]%nat
                  [CustomCursor.AnimationFrame; CustomCursor.AnimationFrame] eq_refl)).
Defined.

Lemma missing_follower_never_animates_witness :
  CustomCursor.isTouchDevice desktop = false
  /\ CustomCursor.frame_requested
       (CustomCursor.run binary64
          [CustomCursor.Mouse CustomCursor.Document CustomCursor.mousemove 100 50;
           CustomCursor.AnimationFrame]
          (CustomCursor.constructor binary64 desktop (Some CustomCursor.plain_marker)
             None [1; 2]%nat)) = false.
Proof.
  split; [reflexivity|].
  exact (proj1 (missing_follower_never_animates binary64 desktop
                  (Some CustomCursor.plain_marker) [1; 2]%nat
                  [CustomCursor.Mouse CustomCursor.Document CustomCursor.mousemove 100 50;
                   CustomCursor.AnimationFrame] eq_refl)).
Defined.

Lemma follower_distance_monotone_in_doubles_witness :
  double_positions sample_cursor64
  /\ positions_within 100 sample_cursor64
  /\ (100 <= 2 ^ 1022)%Q
  /\ (CustomCursor.distance (frames binary64 3 sample_cursor64)
      <= CustomCursor.distance (frames binary64 1 sample_cursor64))%R.
Proof.
  split; [exact sample_cursor64_doubles|]. split; [exact sample_cursor64_within|].
  split; [exact hundred_in_range|].
  exact (proj1 (follower_distance_monotone_in_doubles sample_cursor64 100 1 3
                  sample_cursor64_doubles sample_cursor64_within hundred_in_range
                  eq_refl ltac:(lia))).
Defined.

Lemma follower_never_overshoots_witness :
  double_positions sample_cursor64
  /\ positions_within 100 sample_cursor64
  /\ (100 <= 2 ^ 1022)%Q
  /\ (CustomCursor.outerX sample_cursor64 <= CustomCursor.innerX sample_cursor64)%Q
  /\ frame_finite (frames binary64 2 sample_cursor64)
  /\ (CustomCursor.outerX (frames binary64 2 sample_cursor64)
      <= CustomCursor.outerX (frames binary64 3 sample_cursor64)
      <= CustomCursor.innerX sample_cursor64)%Q.
Proof.
  assert (Hle : (CustomCursor.outerX sample_cursor64
                 <= CustomCursor.innerX sample_cursor64)%Q) by discriminate.
  pose proof (follower_never_overshoots sample_cursor64 100 2
                sample_cursor64_doubles sample_cursor64_within hundred_in_range eq_refl)
    as (H1 & H2 & _).
  split; [exact sample_cursor64_doubles|]. split; [exact sample_cursor64_within|].
  split; [exact hundred_in_range|]. split; [exact Hle|].
  split; [exact H1 | exact (H2 Hle)].
Defined.

Lemma toFixed_parseFloat_round_trip_witness :
  (0 <= 2549 # 100)%Q
  /\ exists q : Q,
       parseFloat binary64 (toFixed (2549 # 100) 2) = double_or_infinity (binary64 q)
       /\ ((Qabs (binary64 q) <= max_double)%Q
           -> parseFloat binary64 (toFixed (2549 # 100) 2) = Finite (binary64 q))
       /\ (q == inject_Z (Z.of_N (hundredths (2549 # 100))) / 100)%Q
       /\ ((2549 # 100) - (1 # 200) < q <= (2549 # 100) + (1 # 200))%Q.
Proof.
  assert (H : (0 <= 2549 # 100)%Q) by discriminate.
  split; [exact H|].
  exact (toFixed_parseFloat_round_trip binary64 (2549 # 100) H).
Defined.

Lemma sample_form_valid_complete : ~ incomplete (ContactForm.fields sample_form_valid).
Proof. intros [H|[H|H]]; vm_compute in H; discriminate H. Qed.

Lemma sample_form_bad_address_complete :
  ~ incomplete (ContactForm.fields sample_form_bad_address).
Proof. intros [H|[H|H]]; vm_compute in H; discriminate H. Qed.

Lemma submit_valid_resets_and_logs_witness :
  ~ incomplete (ContactForm.fields sample_form_valid)
  /\ ContactForm.fields (ContactForm.submit sample_form_valid)
     = ContactForm.defaults sample_form_valid.
Proof.
  split; [exact sample_form_valid_complete|].
  exact (proj1 (submit_valid_resets_and_logs sample_form_valid
                  sample_form_valid_complete ltac:(vm_compute; reflexivity))).
Defined.

Lemma submit_invalid_email_keeps_form_witness :
  ~ incomplete (ContactForm.fields sample_form_bad_address)
  /\ ContactForm.fields (ContactForm.submit sample_form_bad_address)
     = ContactForm.fields sample_form_bad_address.
Proof.
  split; [exact sample_form_bad_address_complete|].
  exact (proj1 (submit_invalid_email_keeps_form sample_form_bad_address
                  sample_form_bad_address_complete ltac:(vm_compute; reflexivity))).
Defined.

Lemma resubmission_after_reset_witness :
  incomplete (ContactForm.defaults sample_form_valid)
  /\ ContactForm.fields (ContactForm.submit (ContactForm.submit sample_form_valid))
     = ContactForm.defaults sample_form_valid.
Proof.
  assert (Hd : incomplete (ContactForm.defaults sample_form_valid))
    by (left; vm_compute; reflexivity).
  split; [exact Hd|].
  exact (proj1 (resubmission_after_reset sample_form_valid
                  sample_form_valid_complete ltac:(vm_compute; reflexivity) Hd)).
Defined.

Lemma sample_menu_complete : menu_complete sample_menu.
Proof. split; eexists; reflexivity. Qed.

Lemma sample_menu_in_step :
  MobileMenu.is_active (MobileMenu.menuToggle sample_menu)
  <-> MobileMenu.is_active (MobileMenu.navMenu sample_menu).
Proof.
  cbn. rewrite !is_active_Some.
  split; intros H; repeat (apply elem_of_cons in H as [H|H]; [discriminate H|]);
    now apply elem_of_nil in H.
Qed.

Lemma menu_button_and_panel_in_step_witness :
  menu_complete sample_menu
  /\ (MobileMenu.is_active
        (MobileMenu.menuToggle
           (MobileMenu.run [sample_button_click; sample_link_click]
              (MobileMenu.initMobileMenu [1; 2]%nat sample_menu)))
      <-> MobileMenu.is_active
            (MobileMenu.navMenu
               (MobileMenu.run [sample_button_click; sample_link_click]
                  (MobileMenu.initMobileMenu [1; 2]%nat sample_menu)))).
Proof.
  split; [exact sample_menu_complete|].
  exact (menu_button_and_panel_in_step [1; 2]%nat sample_menu
           [sample_button_click; sample_link_click]
           sample_menu_complete sample_menu_in_step).
Defined.

Lemma outside_click_closes_menu_witness :
  menu_complete sample_menu
  /\ menu_closed
       (MobileMenu.dispatch
          (MobileMenu.run [sample_button_click]
             (MobileMenu.initMobileMenu [1; 2]%nat sample_menu))
          sample_outside_click).
Proof.
  split; [exact sample_menu_complete|].
  exact (outside_click_closes_menu [1; 2]%nat sample_menu [sample_button_click]
           sample_outside_click sample_menu_complete eq_refl).
Defined.

Lemma sample_link_click_path :
  1%nat ∈ [1; 2]%nat
  /\ MobileMenu.NodeNavLink 1 ∈ MobileMenu.path sample_link_click
  /\ MobileMenu.NodeToggle ∉ MobileMenu.path sample_link_click.
Proof.
  split; [now left|]. split; [now left|].
  intros H. repeat (apply elem_of_cons in H as [H|H]; [discriminate H|]).
  now apply elem_of_nil in H.
Qed.

Lemma nav_link_click_closes_menu_witness :
  menu_complete sample_menu
  /\ menu_closed
       (MobileMenu.dispatch
          (MobileMenu.run [sample_button_click]
             (MobileMenu.initMobileMenu [1; 2]%nat sample_menu))
          sample_link_click).
Proof.
  split; [exact sample_menu_complete|].
  exact (nav_link_click_closes_menu [1; 2]%nat sample_menu [sample_button_click]
           sample_link_click 1 sample_menu_complete eq_refl
           (proj1 sample_link_click_path)
           (proj1 (proj2 sample_link_click_path))
           (proj2 (proj2 sample_link_click_path))).
Defined.

Lemma sample_button_click_plain : button_click [1; 2]%nat sample_button_click.
Proof.
  split; [reflexivity|]. split; [reflexivity|].
  intros i _ H. repeat (apply elem_of_cons in H as [H|H]; [discriminate H|]).
  now apply elem_of_nil in H.
Qed.

Lemma button_click_flips_menu_witness :
  button_click [1; 2]%nat sample_button_click
  /\ MobileMenu.dispatch
       (MobileMenu.run [] (MobileMenu.initMobileMenu [1; 2]%nat sample_menu))
       sample_button_click
     = MobileMenu.toggle_click
         (MobileMenu.run [] (MobileMenu.initMobileMenu [1; 2]%nat sample_menu)).
Proof.
  split; [exact sample_button_click_plain|].
  exact (proj1 (button_click_flips_menu [1; 2]%nat sample_menu [] sample_button_click
                  sample_menu_complete eq_refl sample_button_click_plain)).
Defined.

Lemma menu_inert_without_button_witness :
  MobileMenu.menuToggle sample_menu_without_button = None
  /\ MobileMenu.run [sample_button_click; sample_outside_click]
       (MobileMenu.initMobileMenu [1; 2]%nat sample_menu_without_button)
     = sample_menu_without_button.
Proof.
  split; [reflexivity|].
  exact (proj2 (menu_inert_without_button [1; 2]%nat sample_menu_without_button
                  [sample_button_click; sample_outside_click] eq_refl)).
Defined.

Lemma card_revealed_on_intersection_witness :
  2%nat ∈ [1; 2; 3]%nat
  /\ intersected 2 sample_entries
  /\ Reveal.revealed 2
       (Reveal.run sample_entries
          (Reveal.initIntersectionObserver [1; 2; 3]%nat sample_scene)).
Proof.
  assert (Hel : 2%nat ∈ [1; 2; 3]%nat) by (right; left).
  assert (Hin : intersected 2 sample_entries).
  { unfold intersected. cbn. apply Exists_cons. right. apply Exists_cons. left.
    split; reflexivity. }
  split; [exact Hel|]. split; [exact Hin|].
  exact (proj1 (proj1 (card_revealed_on_intersection [1; 2; 3]%nat sample_scene
                         sample_entries 2 Hel) Hin)).
Defined.

Lemma sample_toast_shown :
  Toasts.toasts (Toasts.run sample_toast_events Toasts.empty_screen) !! 0%nat
  = Some sample_toast.
Proof. vm_compute. reflexivity. Qed.

Lemma toast_stays_3300_ms_witness :
  Toasts.toasts (Toasts.run sample_toast_events Toasts.empty_screen) !! 0%nat
  = Some sample_toast
  /\ Toasts.shown_at sample_toast + 3300
     <= Toasts.now
          (Toasts.step (Toasts.run sample_toast_events Toasts.empty_screen)
             (300, Toasts.Fire 0)).
Proof.
  split; [exact sample_toast_shown|].
  exact (toast_stays_3300_ms sample_toast_events (300, Toasts.Fire 0) 0 sample_toast
           sample_toast_shown ltac:(vm_compute; reflexivity)).
Defined.

Lemma toast_has_its_timer_witness :
  Toasts.toasts (Toasts.run sample_toast_events Toasts.empty_screen) !! 0%nat
  = Some sample_toast
  /\ toast_phase (Toasts.run sample_toast_events Toasts.empty_screen) 0 sample_toast.
Proof.
  split; [exact sample_toast_shown|].
  exact (toast_has_its_timer sample_toast_events 0 sample_toast sample_toast_shown).
Defined.

Lemma toast_dismissed_by_its_timers_witness :
  Toasts.toasts (Toasts.run sample_toast_events Toasts.empty_screen) !! 0%nat
  = Some sample_toast
  /\ exists es' : list (N * Toasts.event),
       (length es' <= 2)%nat
       /\ Forall (fun e => exists k, e.2 = Toasts.Fire k) es'
       /\ Toasts.toasts
            (Toasts.run es' (Toasts.run sample_toast_events Toasts.empty_screen)) !! 0%nat
          = None.
Proof.
  split; [exact sample_toast_shown|].
  exact (toast_dismissed_by_its_timers sample_toast_events 0 sample_toast
           sample_toast_shown).
Defined.
